(** * WordPress media optimizer: a shallow embedding of the asset pipeline

    The development follows the two Python sources of the repository:

    - [wp_media_optimizer_complete-2.py]: the multi-threaded optimizer
      (planner loop, coordinator, per-attachment pipeline, backup, WebP
      conversion, database updates) and its sequential sibling;
    - [wp_media_optimizer_enhanced.py]: the class-based optimizer
      ([WordPressMediaOptimizerEnhanced]).

    Python objects are embedded as follows.  Text is [string]; the regular
    expressions of the sources are character-class expressions and are
    embedded as functions over characters.  A dictionary row of the store is
    a record, a SQL [NULL] or Python [None] is [None].  The file system is a
    finite map from the literal path strings the program builds to file
    contents, the relational store is a triple of finite maps.  The behaviour
    of the libraries the program calls (image codec, metadata embedding,
    clock, faults of the operating system and of the database driver) is an
    explicit argument of the function that calls them.  A Python exception
    that leaves a function is the [Raise] result. *)

From Stdlib Require Import ZArith Ascii String List Bool Lia.
From Stdlib Require Import Numbers.DecimalString.
From stdpp Require Import base option list gmap strings.

Open Scope string_scope.

(** ** Results of fallible code *)

Inductive exn : Type :=
  | NameError            (* an unbound global, e.g. [logger] *)
  | AttributeError       (* a method call on [None] *)
  | ValueError           (* a library refuses its argument *)
  | ZeroDivisionError
  | OSError              (* a file-system call fails *)
  | ImageError           (* the image library fails *)
  | MySQLError           (* [mysql.connector.Error] *)
  | KeyError             (* a missing configuration key *)
  | TimeoutError         (* [concurrent.futures.TimeoutError] *)
  | RegexError           (* [re.error] *)
  | UnicodeEncodeError.  (* [print] of text the output stream cannot encode *)

Inductive result (A : Type) : Type :=
  | Ok (a : A)
  | Raise (e : exn).
Arguments Ok {A} a.
Arguments Raise {A} e.

Definition rbind {A B} (r : result A) (k : A -> result B) : result B :=
  match r with
  | Ok a => k a
  | Raise e => Raise e
  end.

#[global] Instance result_ret : MRet result := @Ok.
#[global] Instance result_bind : MBind result :=
  fun A B k r => rbind r k.

Definition is_ok {A} (r : result A) : bool :=
  match r with Ok _ => true | Raise _ => false end.

(** ** Text: the character classes and string operations of the sources *)

Module Text.

Definition code (c : ascii) : nat := nat_of_ascii c.

Definition between (lo hi : nat) (c : ascii) : bool :=
  (lo <=? code c)%nat && (code c <=? hi)%nat.

Definition is_upper (c : ascii) : bool := between 65 90 c.
Definition is_lower (c : ascii) : bool := between 97 122 c.
Definition is_digit (c : ascii) : bool := between 48 57 c.

(** [\w] on the ASCII range: letters, digits and the underscore.  The model
    is a model of ASCII text: a code above 127 is neither a word character
    nor white space. *)
Definition is_word (c : ascii) : bool :=
  is_upper c || is_lower c || is_digit c || (code c =? 95)%nat.

(** [\s] and [str.strip()]: tab, line feed, vertical tab, form feed,
    carriage return, the four separators 28..31 and the space. *)
Definition is_space (c : ascii) : bool :=
  between 9 13 c || between 28 31 c || (code c =? 32)%nat.

Definition is_hyphen (c : ascii) : bool := (code c =? 45)%nat.
Definition is_underscore (c : ascii) : bool := (code c =? 95)%nat.
Definition is_hyphen_or_underscore (c : ascii) : bool :=
  is_hyphen c || is_underscore c.

Definition lower_char (c : ascii) : ascii :=
  if is_upper c then ascii_of_nat (code c + 32) else c.

(** [str.lower()] *)
Fixpoint lower (s : string) : string :=
  match s with
  | EmptyString => EmptyString
  | String c s' => String (lower_char c) (lower s')
  end.

(** [re.sub('[^...]', '', s)]: keep the characters of the class. *)
Fixpoint keep (p : ascii -> bool) (s : string) : string :=
  match s with
  | EmptyString => EmptyString
  | String c s' => if p c then String c (keep p s') else keep p s'
  end.

(** [re.sub('[...]+', rep, s)]: every maximal run of characters of the
    class is replaced by [rep] (taken literally). *)
Fixpoint collapse_runs (p : ascii -> bool) (rep : string) (s : string) : string :=
  match s with
  | EmptyString => EmptyString
  | String c s' =>
      if p c then
        match s' with
        | EmptyString => rep
        | String c' _ =>
            if p c' then collapse_runs p rep s'
            else rep ++ collapse_runs p rep s'
        end
      else String c (collapse_runs p rep s')
  end.

(** [re.sub('[...]+', repl, s)] for a replacement template: every maximal
    run of characters of the class is replaced by what the template expands
    to for that run.  [run] is the run read so far. *)
Fixpoint sub_runs_from (p : ascii -> bool) (expand : string -> string)
    (run : string) (s : string) : string :=
  match s with
  | EmptyString =>
      match run with EmptyString => EmptyString | _ => expand run end
  | String c s' =>
      if p c then sub_runs_from p expand (run ++ String c EmptyString) s'
      else
        match run with EmptyString => EmptyString | _ => expand run end
        ++ String c (sub_runs_from p expand EmptyString s')
  end.

Definition sub_runs (p : ascii -> bool) (expand : string -> string) (s : string) : string :=
  sub_runs_from p expand EmptyString s.

Definition backslash : ascii := ascii_of_nat 92.

(** [c in s] for a character *)
Fixpoint contains_char (c : ascii) (s : string) : bool :=
  match s with
  | EmptyString => false
  | String c' s' => Ascii.eqb c c' || contains_char c s'
  end.

(** [str.lstrip(chars)], [str.rstrip(chars)], [str.strip(chars)] *)
Fixpoint lstrip (p : ascii -> bool) (s : string) : string :=
  match s with
  | EmptyString => EmptyString
  | String c s' => if p c then lstrip p s' else s
  end.

Fixpoint rstrip (p : ascii -> bool) (s : string) : string :=
  match s with
  | EmptyString => EmptyString
  | String c s' =>
      match rstrip p s' with
      | EmptyString => if p c then EmptyString else String c EmptyString
      | r => String c r
      end
  end.

Definition strip (p : ascii -> bool) (s : string) : string :=
  rstrip p (lstrip p s).

(** Truthiness of a [str]: the empty string is false. *)
Definition truthy (s : string) : bool :=
  match s with EmptyString => false | _ => true end.

(** [s or fallback] *)
Definition or_else (s fallback : string) : string :=
  if truthy s then s else fallback.

(** Python slices [l[:n]] and [s[:n]] for any integer [n]: a negative [n]
    counts from the end. *)
Definition stop_index (len : nat) (n : Z) : nat :=
  if (0 <=? n)%Z then Nat.min (Z.to_nat n) len
  else len - Z.to_nat (- n).

Definition slice_to {A} (n : Z) (l : list A) : list A :=
  take (stop_index (length l) n) l.

Fixpoint string_take (n : nat) (s : string) : string :=
  match n, s with
  | S n', String c s' => String c (string_take n' s')
  | _, _ => EmptyString
  end.

Definition string_slice_to (n : Z) (s : string) : string :=
  string_take (stop_index (String.length s) n) s.

(** [sep.join(l)] *)
Fixpoint join (sep : string) (l : list string) : string :=
  match l with
  | [] => EmptyString
  | [x] => x
  | x :: rest => x ++ sep ++ join sep rest
  end.

(** [s.split(sep)] for a one-character separator: never the empty list. *)
Fixpoint split_on (sep : ascii) (s : string) : list string :=
  match s with
  | EmptyString => [EmptyString]
  | String c s' =>
      if Ascii.eqb c sep then EmptyString :: split_on sep s'
      else match split_on sep s' with
           | h :: t => String c h :: t
           | [] => [String c EmptyString]
           end
  end.

Definition starts_with_char (c : ascii) (s : string) : bool :=
  match s with
  | String c' _ => Ascii.eqb c c'
  | EmptyString => false
  end.

Fixpoint ends_with_char (c : ascii) (s : string) : bool :=
  match s with
  | EmptyString => false
  | String c' EmptyString => Ascii.eqb c c'
  | String _ s' => ends_with_char c s'
  end.

(** [s.endswith(suffix)] *)
Fixpoint ends_with (suffix s : string) : bool :=
  String.eqb s suffix
  || match s with
     | EmptyString => false
     | String _ s' => ends_with suffix s'
     end.

(** [str(n)] for an [int] *)
Definition str_of_Z (n : Z) : string := NilZero.string_of_int (Z.to_int n).

Definition str_of_nat (n : nat) : string := str_of_Z (Z.of_nat n).

(** Two decimal digits, as [%m] and [%d] of [strftime] print them. *)
Definition two_digits (n : nat) : string :=
  if (n <? 10)%nat then "0" ++ str_of_nat n else str_of_nat n.

(** [x in l] for a list of strings *)
Definition mem (x : string) (l : list string) : bool :=
  existsb (String.eqb x) l.

End Text.

(** ** Paths: [pathlib.PurePosixPath] and [os.path.join] *)

Module PathLib.

(** A pure path is a root flag and its components.  Parsing drops empty
    components and ["."] components (["a//b"], ["a/./b"] and ["a/b/"] all
    denote [a/b]) and keeps [".."].  The two-slash root of POSIX is read as
    the ordinary root. *)
Record path : Type := { absolute : bool; parts : list string }.

Definition is_component (s : string) : bool :=
  negb (String.eqb s "") && negb (String.eqb s ".").

(** [Path(s)] *)
Definition parse (s : string) : path :=
  {| absolute := Text.starts_with_char "/" s;
     parts := filter (fun c => is_component c = true) (Text.split_on "/" s) |}.

(** [p == q] *)
Definition eqb (p q : path) : bool :=
  bool_decide (absolute p = absolute q) && bool_decide (parts p = parts q).

(** [str(p)] *)
Definition to_string (p : path) : string :=
  if absolute p then "/" ++ Text.join "/" (parts p)
  else match parts p with
       | [] => "."
       | _ => Text.join "/" (parts p)
       end.

(** [p.name] *)
Definition name (p : path) : string := List.last (parts p) "".

(** [p.parent] *)
Definition parent (p : path) : path :=
  {| absolute := absolute p; parts := removelast (parts p) |}.

(** [p / s] *)
Definition div (p : path) (s : string) : path :=
  let q := parse s in
  if absolute q then q
  else {| absolute := absolute p; parts := parts p ++ parts q |}.

(** The split of a name at its last dot: the text before the dot and the
    text from the dot on. *)
Fixpoint last_dot_split (s : string) : option (string * string) :=
  match s with
  | EmptyString => None
  | String c s' =>
      match last_dot_split s' with
      | Some (a, b) => Some (String c a, b)
      | None => if Ascii.eqb c "." then Some (EmptyString, s) else None
      end
  end.

(** [i = name.rfind('.')] and the test [0 < i < len(name) - 1] *)
Definition has_suffix (ab : string * string) : bool :=
  Text.truthy (fst ab) && (1 <? String.length (snd ab))%nat.

(** [p.suffix] *)
Definition suffix (p : path) : string :=
  match last_dot_split (name p) with
  | Some ab => if has_suffix ab then snd ab else ""
  | None => ""
  end.

(** [p.stem] *)
Definition stem (p : path) : string :=
  match last_dot_split (name p) with
  | Some ab => if has_suffix ab then fst ab else name p
  | None => name p
  end.

(** [os.path.join(a, b)] of [posixpath] *)
Definition os_path_join (a b : string) : string :=
  if Text.starts_with_char "/" b then b
  else if negb (Text.truthy a) || Text.ends_with_char "/" a then a ++ b
  else a ++ "/" ++ b.

End PathLib.

(** ** Library behaviour taken as an argument *)

(** A calendar date, the part of a [datetime] that [strftime('%Y%m%d')]
    prints. *)
Record date : Type := { year : nat; month : nat; day : nat }.

(** The [post_date] of a row: absent, a [datetime], or text. *)
Inductive post_date_value : Type :=
  | NoDate
  | DateTime (d : date)
  | DateText (s : string).

(** The two library calls of the planner whose results the sources do not
    determine: [datetime.strptime(s, '%Y-%m-%d')], which raises on text that
    is not a date, and [urlparse(guid)], of which the planner uses
    [scheme + '://' + netloc] and which raises on a malformed authority. *)
Record library : Type := {
  strptime_ymd : string -> result date;
  url_base : string -> result string
}.

(** A configured pattern: a regular expression that does not compile makes
    [re.sub] raise [re.error]; one that compiles is given by what
    [re.sub(pattern, '', s, flags=re.IGNORECASE)] returns. *)
Inductive pattern : Type :=
  | InvalidRegex
  | Regex (delete_matches : string -> string).

(** ** The file system *)

(** Files are looked up by the path string the program builds; a file is its
    bytes. *)
Abbreviation content := (list Byte.byte).
Abbreviation file_system := (gmap string content).

Module FileSystem.

(** What [shutil.copy2] does, when it is not the faithful copy: it returns
    after writing other bytes than the source holds at the size check that
    follows (the source is written to meanwhile, the copy is cut short), or
    it raises, possibly leaving a partial destination behind. *)
Inductive copy_behaviour : Type :=
  | CopyFaithful
  | CopyWrites (written : content)
  | CopyRaises (left_behind : option content).

(** Faults of the operating system during one call of a backup function. *)
Record os_faults : Type := {
  copy_fault : copy_behaviour;
  rename_raises : bool;
  remove_raises : bool
}.

Definition no_faults : os_faults :=
  {| copy_fault := CopyFaithful; rename_raises := false; remove_raises := false |}.

(** [os.path.exists(path)] *)
Definition path_exists (fs : file_system) (path : string) : bool :=
  bool_decide (is_Some (fs !! path)).

(** [os.path.getsize(path)] *)
Definition getsize (fs : file_system) (path : string) : result nat :=
  match fs !! path with
  | Some c => Ok (length c)
  | None => Raise OSError
  end.

(** [shutil.copy2(src, dst)]: the result and the file system it leaves. *)
Definition copy2 (faults : os_faults) (fs : file_system) (src dst : string)
    : result unit * file_system :=
  match fs !! src with
  | None => (Raise OSError, fs)
  | Some c =>
      match copy_fault faults with
      | CopyFaithful => (Ok tt, <[dst := c]> fs)
      | CopyWrites written => (Ok tt, <[dst := written]> fs)
      | CopyRaises (Some partial) => (Raise OSError, <[dst := partial]> fs)
      | CopyRaises None => (Raise OSError, fs)
      end
  end.

(** [os.rename(src, dst)] *)
Definition rename (faults : os_faults) (fs : file_system) (src dst : string)
    : result file_system :=
  if rename_raises faults then Raise OSError
  else match fs !! src with
       | Some c => Ok (<[dst := c]> (delete src fs))
       | None => Raise OSError
       end.

(** [os.remove(path)] *)
Definition remove (faults : os_faults) (fs : file_system) (path : string)
    : result file_system :=
  if remove_raises faults then Raise OSError
  else match fs !! path with
       | Some _ => Ok (delete path fs)
       | None => Raise OSError
       end.

End FileSystem.

(** ** The relational store *)

Module Store.

(** A row of the [posts] table, with the columns the program writes. *)
Record post : Type := {
  post_guid : string;
  post_content : string;
  post_name : string;
  post_mime_type : string
}.

(** The three tables of the schema: [posts] by [ID], [postmeta] by
    [(post_id, meta_key)], [options] by name.  One value per key: [REPLACE
    INTO] overwrites it, [UPDATE ... WHERE] changes it when the row exists. *)
Record database : Type := {
  posts : gmap Z post;
  postmeta : gmap (Z * string) string;
  options : gmap string string
}.

(** A connection: the committed state of the store, the state the session
    sees, the autocommit flag, the number of statements and commits sent so
    far, and which of them the server refuses. *)
Record connection : Type := {
  committed : database;
  working : database;
  autocommit : bool;
  executed : nat;
  fails : nat -> bool
}.

(** MySQL [REPLACE(s, from, to)]: every occurrence, scanning from the left;
    an empty [from] changes nothing. *)
Fixpoint replace_scan (fuel : nat) (from to s : string) : string :=
  match fuel with
  | O => s
  | S fuel' =>
      if String.prefix from s
      then to ++ replace_scan fuel' from to
             (String.substring (String.length from)
                (String.length s - String.length from) s)
      else match s with
           | EmptyString => EmptyString
           | String c s' => String c (replace_scan fuel' from to s')
           end
  end.

Definition sql_replace (s from to : string) : string :=
  if Text.truthy from then replace_scan (String.length s) from to s else s.

(** MySQL [SUBSTRING_INDEX(s, '/', -1)]: the text after the last slash. *)
Definition substring_after_last_slash (s : string) : string :=
  List.last (Text.split_on "/" s) "".

Definition with_guid (g : string) (p : post) : post :=
  {| post_guid := g; post_content := post_content p;
     post_name := post_name p; post_mime_type := post_mime_type p |}.

Definition with_content (c : string) (p : post) : post :=
  {| post_guid := post_guid p; post_content := c;
     post_name := post_name p; post_mime_type := post_mime_type p |}.

Definition with_name (n : string) (p : post) : post :=
  {| post_guid := post_guid p; post_content := post_content p;
     post_name := n; post_mime_type := post_mime_type p |}.

Definition with_mime_type (m : string) (p : post) : post :=
  {| post_guid := post_guid p; post_content := post_content p;
     post_name := post_name p; post_mime_type := m |}.

(** [UPDATE posts SET post_mime_type = m WHERE ID = id] *)
Definition update_post_mime_type (id : Z) (m : string) (db : database) : database :=
  {| posts := alter (with_mime_type m) id (posts db);
     postmeta := postmeta db; options := options db |}.

(** [UPDATE posts SET guid = g WHERE ID = id] *)
Definition update_guid (id : Z) (g : string) (db : database) : database :=
  {| posts := alter (with_guid g) id (posts db);
     postmeta := postmeta db; options := options db |}.

(** [UPDATE posts SET guid = REPLACE(guid, SUBSTRING_INDEX(guid, '/', -1), f)
    WHERE ID = id] *)
Definition update_guid_filename (id : Z) (f : string) (db : database) : database :=
  {| posts :=
       alter (fun p =>
                with_guid (sql_replace (post_guid p)
                             (substring_after_last_slash (post_guid p)) f) p)
         id (posts db);
     postmeta := postmeta db; options := options db |}.

(** [UPDATE posts SET post_name = slug WHERE ID = id] *)
Definition update_post_name (id : Z) (slug : string) (db : database) : database :=
  {| posts := alter (with_name slug) id (posts db);
     postmeta := postmeta db; options := options db |}.

(** [UPDATE postmeta SET meta_value = v WHERE post_id = id AND meta_key = k] *)
Definition update_meta (id : Z) (k v : string) (db : database) : database :=
  {| posts := posts db;
     postmeta := alter (fun _ => v) (id, k) (postmeta db);
     options := options db |}.

(** [REPLACE INTO postmeta (post_id, meta_key, meta_value) VALUES (id, k, v)] *)
Definition replace_meta (id : Z) (k v : string) (db : database) : database :=
  {| posts := posts db;
     postmeta := <[(id, k) := v]> (postmeta db);
     options := options db |}.

(** [UPDATE posts SET post_content = REPLACE(post_content, old, new)
    WHERE post_content LIKE '%old%'] *)
Definition replace_in_content (old new : string) (db : database) : database :=
  {| posts := (fun p => with_content (sql_replace (post_content p) old new) p) <$> posts db;
     postmeta := postmeta db; options := options db |}.

(** [UPDATE options SET option_value = REPLACE(option_value, old, new)
    WHERE option_value LIKE '%old%'] *)
Definition replace_in_options (old new : string) (db : database) : database :=
  {| posts := posts db; postmeta := postmeta db;
     options := (fun v => sql_replace v old new) <$> options db |}.

(** [SELECT ID FROM posts WHERE post_name = slug AND ID != id] has a row. *)
Definition slug_taken (db : database) (slug : string) (id : Z) : bool :=
  existsb (fun kp => negb (fst kp =? id)%Z && String.eqb (post_name (snd kp)) slug)
    (map_to_list (posts db)).

Definition sent (conn : connection) : connection :=
  {| committed := committed conn; working := working conn;
     autocommit := autocommit conn; executed := S (executed conn);
     fails := fails conn |}.

(** [cursor.execute(statement)] for a statement that writes: a refused
    statement raises and changes nothing; an accepted one changes the
    session state, and the committed state too under autocommit. *)
Definition execute (statement : database -> database) (conn : connection)
    : result unit * connection :=
  if fails conn (executed conn) then (Raise MySQLError, sent conn)
  else
    let db := statement (working conn) in
    (Ok tt,
     {| committed := if autocommit conn then db else committed conn;
        working := db; autocommit := autocommit conn;
        executed := S (executed conn); fails := fails conn |}).

(** [cursor.execute(query)] for a [SELECT]. *)
Definition query {A} (read : database -> A) (conn : connection)
    : result A * connection :=
  if fails conn (executed conn) then (Raise MySQLError, sent conn)
  else (Ok (read (working conn)), sent conn).

(** [connection.commit()]: it is sent to the server like a statement; a
    refused commit raises and commits nothing of its own (what autocommit has
    committed already stays committed). *)
Definition commit (conn : connection) : result unit * connection :=
  if fails conn (executed conn) then (Raise MySQLError, sent conn)
  else
    (Ok tt,
     {| committed := working conn; working := working conn;
        autocommit := autocommit conn; executed := S (executed conn);
        fails := fails conn |}).

(** [connection.rollback()] *)
Definition rollback (conn : connection) : connection :=
  {| committed := committed conn; working := committed conn;
     autocommit := autocommit conn; executed := executed conn;
     fails := fails conn |}.

(** [connection.autocommit = flag]; switching autocommit on commits the
    open transaction. *)
Definition set_autocommit (flag : bool) (conn : connection) : connection :=
  {| committed := if flag then working conn else committed conn;
     working := working conn; autocommit := flag;
     executed := executed conn; fails := fails conn |}.

End Store.

(** ** The multi-threaded optimizer and its sequential sibling *)

Module Complete.

(** *** Configuration *)

Record webp_settings : Type := {
  quality : option nat;            (* [.get('quality', 85)] *)
  method : option nat;             (* [.get('method', 6)] *)
  lossless : option bool;          (* [.get('lossless', False)] *)
  transparency : option bool       (* [.get('transparency', True)] *)
}.

Record permalink_settings : Type := {
  base_path : string;
  max_tags : Z;
  include_timestamp : bool;
  include_asset_id : bool
}.

Record optimization_settings : Type := {
  max_file_size_mb : option nat;
  max_threads : option Z;          (* [.get('max_threads', ...)], any integer *)
  chunk_size : option Z;           (* [.get('chunk_size', 10)], any integer *)
  backup_originals : bool;
  process_thumbnails : bool
}.

Record config : Type := {
  unwanted_patterns : list pattern;
  webp : webp_settings;
  permalink : permalink_settings;
  optimization : optimization_settings
}.

(** *** Cleaning *)

(** The pattern loop of [clean_filename].  Its handler for [re.error] calls
    [logger.warning], and [logger] is neither a parameter nor a global of
    the module: an invalid pattern ends the call with [NameError]. *)
Fixpoint remove_unwanted (patterns : list pattern) (cleaned : string) : result string :=
  match patterns with
  | [] => Ok cleaned
  | Regex delete_matches :: rest => remove_unwanted rest (delete_matches cleaned)
  | InvalidRegex :: _ => Raise NameError
  end.

Definition filename_char (c : ascii) : bool :=
  Text.is_word c || Text.is_space c || Text.is_hyphen c || Text.is_underscore c.

Definition clean_filename (filename : string) (cfg : config) : result string :=
  if negb (Text.truthy filename) then Ok "optimized-media"
  else
    cleaned ← remove_unwanted (unwanted_patterns cfg) filename;
    let cleaned := Text.keep filename_char cleaned in
    let cleaned := Text.collapse_runs Text.is_space "-" cleaned in
    let cleaned := Text.collapse_runs Text.is_hyphen_or_underscore "-" cleaned in
    let cleaned := Text.strip Text.is_hyphen_or_underscore cleaned in
    let cleaned := Text.lower cleaned in
    Ok (Text.or_else cleaned "optimized-media").

(** The pattern loop of [clean_alt_text]: an invalid pattern is skipped. *)
Fixpoint remove_unwanted_lenient (patterns : list pattern) (cleaned : string) : string :=
  match patterns with
  | [] => cleaned
  | Regex delete_matches :: rest => remove_unwanted_lenient rest (delete_matches cleaned)
  | InvalidRegex :: rest => remove_unwanted_lenient rest cleaned
  end.

Definition clean_alt_text (alt_text : string) (cfg : config) : string :=
  if negb (Text.truthy alt_text) then ""
  else
    let cleaned := remove_unwanted_lenient (unwanted_patterns cfg) alt_text in
    let cleaned := Text.collapse_runs Text.is_space " " cleaned in
    Text.strip Text.is_space cleaned.

(** *** Keywords and permalink *)

Definition keyword_char (c : ascii) : bool := Text.is_word c || Text.is_space c.

Definition normalize_keyword (category : string) : string :=
  let keyword := Text.lower category in
  let keyword := Text.keep keyword_char keyword in
  let keyword := Text.collapse_runs Text.is_space "-" keyword in
  Text.strip Text.is_hyphen keyword.

Fixpoint collect_keywords (categories keywords : list string) : list string :=
  match categories with
  | [] => keywords
  | category :: rest =>
      let keyword := normalize_keyword category in
      if Text.truthy keyword && (2 <? String.length keyword)%nat
         && negb (Text.mem keyword keywords)
      then collect_keywords rest (keywords ++ [keyword])
      else collect_keywords rest keywords
  end.

Definition split_categories (categories_string : string) : list string :=
  filter (fun c => Text.truthy c = true)
    (map (Text.strip Text.is_space) (Text.split_on "," categories_string)).

(** [process_categories_to_keywords(categories_string)], with the default
    [max_keywords=10] of every call site. *)
Definition process_categories_to_keywords (categories_string : option string) : list string :=
  match categories_string with
  | None => []
  | Some s =>
      if negb (Text.truthy s) then []
      else collect_keywords (Text.slice_to 10 (split_categories s)) []
  end.

Definition strftime_ymd (d : date) : string :=
  Text.str_of_nat (year d) ++ Text.two_digits (month d) ++ Text.two_digits (day d).

Definition date_component (lib : library) (post_date : post_date_value) : result string :=
  match post_date with
  | DateText s => d ← strptime_ymd lib (Text.string_slice_to 10 s); Ok (strftime_ymd d)
  | DateTime d => Ok (strftime_ymd d)
  | NoDate => Raise AttributeError
  end.

Definition generate_semantic_permalink (lib : library) (tags : list string)
    (asset_id : Z) (post_date : post_date_value) (cfg : config) : result string :=
  let permalink_config := permalink cfg in
  let tag_string :=
    match tags with
    | [] => "media"
    | _ => Text.join "-" (Text.slice_to (max_tags permalink_config) tags)
    end in
  let components := [tag_string] in
  let components :=
    if include_asset_id permalink_config
    then (components ++ [Text.str_of_Z asset_id])%list else components in
  components ←
    (if include_timestamp permalink_config
     then date_string ← date_component lib post_date; Ok (components ++ [date_string])%list
     else Ok components);
  let permalink_slug := Text.join "-" components in
  Ok (base_path permalink_config ++ "/" ++ permalink_slug ++ "/").

(** *** Rows, work items and the planner loop *)

(** One row of [get_media_attachments]. *)
Record attachment : Type := {
  ID : Z;
  guid : string;
  attached_file : option string;
  post_title : string;
  post_excerpt : string;
  post_date : post_date_value;
  categories : option string;
  alt_text : option string
}.

(** The fields the planner writes into [update_info]. *)
Record planned_info : Type := {
  attachment_id : Z;
  old_filename : string;
  new_filename : string;
  old_guid : string;
  new_guid : string;
  permalink_path : string;
  old_alt_text : option string;
  new_alt_text : option string;
  new_attached_file : string;
  keywords : list string;
  description : string;
  needs_rename : bool;
  needs_webp : bool
}.

(** The verdict of [validate_image_for_optimization] (its message). *)
Inductive validation : Type :=
  | ReadyForOptimization
  | NotFound
  | TooLarge
  | AlreadyOptimized
  | Corrupted.

(** The message of [convert_to_webp_threadsafe]. *)
Inductive conversion_message : Type :=
  | NotValid (v : validation)
  | Converted
  | OutputNotCreated
  | ConversionError (e : exn).

(** The keys the pipeline adds to [update_info] as its stages run; an absent
    key is [None]. *)
Record stage_flags : Type := {
  webp_converted : option bool;
  conversion_result : option conversion_message;
  iptc_added : option bool;
  database_updated : option bool;
  database_error : option bool;
  conversion_error : option conversion_message;
  processing_error : option exn;
  dry_run_marker : option bool
}.

Definition no_flags : stage_flags :=
  {| webp_converted := None; conversion_result := None; iptc_added := None;
     database_updated := None; database_error := None;
     conversion_error := None; processing_error := None;
     dry_run_marker := None |}.

Record update_info : Type := { info : planned_info; stages : stage_flags }.

Record task_data : Type := {
  task_attachment_id : Z;
  old_file_path : string;
  optimized_file_path : string;
  task_update_info : update_info
}.

Definition truthy_opt (s : option string) : bool :=
  match s with
  | Some s => Text.truthy s
  | None => false
  end.

Definition webp_extensions_threaded : list string :=
  [".jpg"; ".jpeg"; ".png"; ".gif"; ".bmp"; ".tiff"].

Definition webp_extensions_sequential : list string :=
  [".jpg"; ".jpeg"; ".png"; ".gif"].

(** The four flags of the gate, computed as the loop body computes them. *)
Record optimization_needs : Type := {
  rename_needed : bool;
  webp_needed : bool;
  alt_update_needed : bool;
  has_keywords : bool
}.

Definition any_need (n : optimization_needs) : bool :=
  rename_needed n || webp_needed n || alt_update_needed n || has_keywords n.

Definition alt_needs_update (old_alt new_alt : option string) : bool :=
  truthy_opt old_alt && negb (bool_decide (old_alt = new_alt)).

Inductive skip_reason : Type :=
  | NoFilePath        (* [if not attached_file: continue] *)
  | FileNotFound      (* [if not os.path.exists(old_file_path): continue] *)
  | NothingToDo.      (* the gate *)

Inductive plan_outcome : Type :=
  | Skip (why : skip_reason)
  | PlanError (e : exn)       (* the [except Exception] of the loop body *)
  | Emit (task : task_data).

(** The derived values of one row: cleaned names, keywords, permalink. *)
Record derivation : Type := {
  d_old_filename : string;
  d_extension : string;
  d_directory : string;
  d_new_filename : string;
  d_new_alt_text : option string;
  d_keywords : list string;
  d_permalink_path : string
}.

Definition derive (lib : library) (cfg : config) (a : attachment) (file : string)
    : result derivation :=
  let path_parts := PathLib.parse file in
  let old_filename := PathLib.stem path_parts in
  let extension := Text.lower (PathLib.suffix path_parts) in
  let directory := PathLib.to_string (PathLib.parent path_parts) in
  new_filename ← clean_filename old_filename cfg;
  let new_alt_text :=
    match alt_text a with
    | Some old => if Text.truthy old then Some (clean_alt_text old cfg) else None
    | None => None
    end in
  let keywords := process_categories_to_keywords (categories a) in
  permalink_path ← generate_semantic_permalink lib keywords (ID a) (post_date a) cfg;
  Ok {| d_old_filename := old_filename; d_extension := extension;
        d_directory := directory; d_new_filename := new_filename;
        d_new_alt_text := new_alt_text; d_keywords := keywords;
        d_permalink_path := permalink_path |}.

Definition needs_of (extensions : list string) (a : attachment) (d : derivation)
    : optimization_needs :=
  {| rename_needed := negb (String.eqb (d_old_filename d) (d_new_filename d));
     webp_needed := Text.mem (d_extension d) extensions;
     alt_update_needed := alt_needs_update (alt_text a) (d_new_alt_text d);
     has_keywords := match d_keywords d with [] => false | _ => true end |}.

Definition optimized_filename_of (d : derivation) : string :=
  d_new_filename d ++ ".webp".

Definition optimized_relative_path_of (d : derivation) : string :=
  PathLib.to_string
    (PathLib.div (PathLib.parse (d_directory d)) (optimized_filename_of d)).

Definition build_task (lib : library) (uploads_path : string) (a : attachment)
    (file : string) (d : derivation) (n : optimization_needs) : result task_data :=
  let optimized_filename := optimized_filename_of d in
  let optimized_relative_path := optimized_relative_path_of d in
  let optimized_file_path := PathLib.os_path_join uploads_path optimized_relative_path in
  base_url ← url_base lib (guid a);
  let new_guid := base_url ++ d_permalink_path d ++ optimized_filename in
  let update :=
    {| attachment_id := ID a;
       old_filename := d_old_filename d ++ d_extension d;
       new_filename := optimized_filename;
       old_guid := guid a;
       new_guid := new_guid;
       permalink_path := d_permalink_path d;
       old_alt_text := alt_text a;
       new_alt_text := d_new_alt_text d;
       new_attached_file := optimized_relative_path;
       keywords := d_keywords d;
       description := post_excerpt a;
       needs_rename := rename_needed n;
       needs_webp := webp_needed n |} in
  Ok {| task_attachment_id := ID a;
        old_file_path := PathLib.os_path_join uploads_path file;
        optimized_file_path := optimized_file_path;
        task_update_info := {| info := update; stages := no_flags |} |}.

(** The body of the planner loop of
    [process_media_optimization_multithreaded] for one row. *)
Definition plan_attachment (lib : library) (cfg : config) (uploads_path : string)
    (fs : file_system) (a : attachment) : plan_outcome :=
  match attached_file a with
  | None => Skip NoFilePath
  | Some file =>
      if negb (Text.truthy file) then Skip NoFilePath
      else if negb (FileSystem.path_exists fs (PathLib.os_path_join uploads_path file))
      then Skip FileNotFound
      else
        match derive lib cfg a file with
        | Raise e => PlanError e
        | Ok d =>
            let n := needs_of webp_extensions_threaded a d in
            if negb (any_need n) then Skip NothingToDo
            else match build_task lib uploads_path a file d n with
                 | Raise e => PlanError e
                 | Ok task => Emit task
                 end
        end
  end.

(** The path the loop adds to [processed_db_files] for a row. *)
Definition db_file_of (uploads_path : string) (a : attachment) : option string :=
  match attached_file a with
  | Some file =>
      if Text.truthy file then Some (PathLib.os_path_join uploads_path file) else None
  | None => None
  end.

(** Process-wide counters ([ThreadSafeCounter] values). *)
Record counters : Type := {
  processed : nat;
  errors : nat;
  webp_conversions : nat;
  iptc_processed : nat;
  alt_text_processed : nat;
  permalink_updates : nat
}.

Definition zero_counters : counters :=
  {| processed := 0; errors := 0; webp_conversions := 0; iptc_processed := 0;
     alt_text_processed := 0; permalink_updates := 0 |}.

Definition incr_processed (c : counters) : counters :=
  {| processed := S (processed c); errors := errors c;
     webp_conversions := webp_conversions c; iptc_processed := iptc_processed c;
     alt_text_processed := alt_text_processed c;
     permalink_updates := permalink_updates c |}.

Definition incr_errors (c : counters) : counters :=
  {| processed := processed c; errors := S (errors c);
     webp_conversions := webp_conversions c; iptc_processed := iptc_processed c;
     alt_text_processed := alt_text_processed c;
     permalink_updates := permalink_updates c |}.

Definition incr_webp_conversions (c : counters) : counters :=
  {| processed := processed c; errors := errors c;
     webp_conversions := S (webp_conversions c); iptc_processed := iptc_processed c;
     alt_text_processed := alt_text_processed c;
     permalink_updates := permalink_updates c |}.

Definition incr_iptc_processed (c : counters) : counters :=
  {| processed := processed c; errors := errors c;
     webp_conversions := webp_conversions c; iptc_processed := S (iptc_processed c);
     alt_text_processed := alt_text_processed c;
     permalink_updates := permalink_updates c |}.

(** The state the planner loop accumulates. *)
Record planner_state : Type := {
  attachment_tasks : list task_data;
  processed_db_files : gset string;
  planner_counters : counters
}.

Definition planner_start : planner_state :=
  {| attachment_tasks := []; processed_db_files := ∅;
     planner_counters := zero_counters |}.

Definition plan_step (lib : library) (cfg : config) (uploads_path : string)
    (fs : file_system) (st : planner_state) (a : attachment) : planner_state :=
  let seen :=
    match db_file_of uploads_path a with
    | Some path => {[path]} ∪ processed_db_files st
    | None => processed_db_files st
    end in
  match plan_attachment lib cfg uploads_path fs a with
  | Emit task =>
      {| attachment_tasks := attachment_tasks st ++ [task];
         processed_db_files := seen;
         planner_counters := planner_counters st |}
  | PlanError _ =>
      {| attachment_tasks := attachment_tasks st;
         processed_db_files := seen;
         planner_counters := incr_errors (planner_counters st) |}
  | Skip _ =>
      {| attachment_tasks := attachment_tasks st;
         processed_db_files := seen;
         planner_counters := planner_counters st |}
  end.

(** [for attachment in attachments: ...] *)
Definition plan_all (lib : library) (cfg : config) (uploads_path : string)
    (fs : file_system) (attachments : list attachment) : planner_state :=
  fold_left (plan_step lib cfg uploads_path fs) attachments planner_start.

(** *** The environment of a worker *)

(** The image library: whether [Image.open(...).verify()] accepts the bytes,
    whether their EXIF holds the optimizer marker, and what the chain from
    [Image.open] to [img.save(path, format='WebP', quality, method,
    lossless)] writes, or that it raises. *)
Record image_library : Type := {
  verify : content -> bool;
  has_optimizer_marker : content -> bool;
  encode : content -> nat -> nat -> bool -> result content
}.

Record environment : Type := {
  clock : string;                    (* [datetime.now().strftime('%Y%m%d_%H%M%S')] *)
  now_iso : string;                  (* [datetime.now().isoformat()] *)
  thread_id : Z;                     (* [threading.current_thread().ident] *)
  faults : FileSystem.os_faults;
  images : image_library;
  iptc_available : bool;             (* [IPTC_AVAILABLE] *)
  iptc_embed : content -> result content  (* [IPTCInfo(path, force=True)] ... [info.save()] *)
}.

Definition version : string := "2.1.0".

Definition megabyte : nat := 1024 * 1024.

(** [size / (1024 * 1024) > limit_mb], on exact sizes. *)
Definition exceeds_mb (size limit_mb : nat) : bool :=
  (limit_mb * megabyte <? size)%nat.

(** *** Validate *)

Definition is_valid (v : validation) : bool :=
  match v with ReadyForOptimization => true | _ => false end.

Definition validate_image_for_optimization (images : image_library) (cfg : config)
    (fs : file_system) (image_path : string) : validation :=
  match fs !! image_path with
  | None => NotFound
  | Some c =>
      let max_size_mb := default 50 (max_file_size_mb (optimization cfg)) in
      if exceeds_mb (length c) max_size_mb then TooLarge
      else if Text.ends_with ".webp" (Text.lower image_path)
              && has_optimizer_marker images c
      then AlreadyOptimized
      else if verify images c then ReadyForOptimization
      else Corrupted
  end.

(** *** Backup *)

Definition thread_suffix (thread_id : Z) : string :=
  if (thread_id =? 0)%Z then "" else "_t" ++ Text.str_of_Z thread_id.

Definition backup_path_of (env : environment) (file_path : string) : string :=
  file_path ++ "_backup_" ++ clock env ++ thread_suffix (thread_id env).

(** The [except Exception] handler of [create_backup_copy_threadsafe]. *)
Definition backup_cleanup (env : environment) (fs : file_system)
    (temp_backup : string) : option string * file_system :=
  if FileSystem.path_exists fs temp_backup then
    match FileSystem.remove (faults env) fs temp_backup with
    | Ok fs' => (None, fs')
    | Raise _ => (None, fs)
    end
  else (None, fs).

Definition create_backup_copy_threadsafe (env : environment) (fs : file_system)
    (file_path : string) : option string * file_system :=
  let backup_path := backup_path_of env file_path in
  let temp_backup := backup_path ++ ".tmp" in
  match FileSystem.copy2 (faults env) fs file_path temp_backup with
  | (Raise _, fs1) => backup_cleanup env fs1 temp_backup
  | (Ok _, fs1) =>
      match FileSystem.getsize fs1 file_path, FileSystem.getsize fs1 temp_backup with
      | Ok original_size, Ok backup_size =>
          if (original_size =? backup_size)%nat then
            match FileSystem.rename (faults env) fs1 temp_backup backup_path with
            | Ok fs2 => (Some backup_path, fs2)
            | Raise _ => backup_cleanup env fs1 temp_backup
            end
          else
            match FileSystem.remove (faults env) fs1 temp_backup with
            | Ok fs2 => (None, fs2)
            | Raise _ => backup_cleanup env fs1 temp_backup
            end
      | _, _ => backup_cleanup env fs1 temp_backup
      end
  end.

(** The sequential [create_backup_copy]: a direct copy to the final name. *)
Definition create_backup_copy (os : FileSystem.os_faults) (timestamp : string)
    (fs : file_system) (file_path : string) : option string * file_system :=
  let backup_path := file_path ++ "_backup_" ++ timestamp in
  match FileSystem.copy2 os fs file_path backup_path with
  | (Raise _, fs1) => (None, fs1)
  | (Ok _, fs1) =>
      match FileSystem.getsize fs1 file_path, FileSystem.getsize fs1 backup_path with
      | Ok original_size, Ok backup_size =>
          if negb (original_size =? backup_size)%nat then (None, fs1)
          else (Some backup_path, fs1)
      | _, _ => (None, fs1)
      end
  end.

(** *** Transcode *)

(** The outcome of a conversion, with the [quality] of every [img.save] call
    it made, in order. *)
Record conversion : Type := {
  success : bool;
  message : conversion_message;
  saves : list nat
}.

Definition fallback_quality : nat := 70.
Definition fallback_method : nat := 6.

Definition convert_to_webp_threadsafe (images : image_library) (cfg : config)
    (fs : file_system) (image_path output_path : string)
    : conversion * file_system :=
  let v := validate_image_for_optimization images cfg fs image_path in
  if negb (is_valid v) then
    ({| success := false; message := NotValid v; saves := [] |}, fs)
  else
    let webp_config := webp cfg in
    let optimization_config := optimization cfg in
    let q := default 85 (quality webp_config) in
    let img := default [] (fs !! image_path) in
    match encode images img q (default 6 (method webp_config))
            (default false (lossless webp_config)) with
    | Raise e => ({| success := false; message := ConversionError e; saves := [q] |}, fs)
    | Ok first =>
        let fs1 := <[output_path := first]> fs in
        if FileSystem.path_exists fs1 output_path then
          let max_size := default 10 (max_file_size_mb optimization_config) in
          let resave :=
            if exceeds_mb (length first) max_size then
              match encode images img fallback_quality fallback_method false with
              | Ok second => Ok (<[output_path := second]> fs1, [q; fallback_quality])
              | Raise e => Raise e
              end
            else Ok (fs1, [q]) in
          match resave with
          | Raise e =>
              ({| success := false; message := ConversionError e;
                  saves := [q; fallback_quality] |}, fs1)
          | Ok (fs2, log) =>
              match FileSystem.getsize fs2 image_path with
              | Ok (S _) => ({| success := true; message := Converted; saves := log |}, fs2)
              | Ok O =>
                  ({| success := false; message := ConversionError ZeroDivisionError;
                      saves := log |}, fs2)
              | Raise e =>
                  ({| success := false; message := ConversionError e; saves := log |}, fs2)
              end
          end
        else ({| success := false; message := OutputNotCreated; saves := [q] |}, fs1)
    end.

(** The sequential [convert_to_webp]: no validation, configuration keys read
    without defaults, the same single fallback. *)
Definition convert_to_webp (images : image_library) (cfg : config)
    (fs : file_system) (image_path output_path : string)
    : (bool * list nat) * file_system :=
  match fs !! image_path, quality (webp cfg), method (webp cfg) with
  | Some img, Some q, Some m =>
      match encode images img q m (default false (lossless (webp cfg))) with
      | Raise _ => ((false, [q]), fs)
      | Ok first =>
          let fs1 := <[output_path := first]> fs in
          match max_file_size_mb (optimization cfg) with
          | None => ((false, [q]), fs1)
          | Some max_size =>
              if exceeds_mb (length first) max_size then
                match encode images img fallback_quality fallback_method false with
                | Ok second =>
                    ((true, [q; fallback_quality]), <[output_path := second]> fs1)
                | Raise _ => ((false, [q; fallback_quality]), fs1)
                end
              else ((true, [q]), fs1)
          end
      end
  | _, _, _ => ((false, []), fs)
  end.

(** *** Embed metadata *)

Definition write_enhanced_iptc_threadsafe (env : environment) (fs : file_system)
    (image_path : string) : bool * file_system :=
  if negb (iptc_available env) then (false, fs)
  else match fs !! image_path with
       | None => (false, fs)
       | Some c =>
           match iptc_embed env c with
           | Ok c' => (true, <[image_path := c']> fs)
           | Raise _ => (false, fs)
           end
       end.

(** The gate of the sequential [process_media_optimization]: the same four
    flags, with the shorter extension list. *)
Definition sequential_gate (a : attachment) (d : derivation) : bool :=
  any_need (needs_of webp_extensions_sequential a d).

(** *** Persist *)

(** Statements sent one after the other; the first refused one raises and
    the rest is not sent. *)
Fixpoint execute_all (statements : list (Store.database -> Store.database))
    (conn : Store.connection) : result unit * Store.connection :=
  match statements with
  | [] => (Ok tt, conn)
  | statement :: rest =>
      match Store.execute statement conn with
      | (Ok _, conn') => execute_all rest conn'
      | (Raise e, conn') => (Raise e, conn')
      end
  end.

Definition when (b : bool) (statement : Store.database -> Store.database)
    : list (Store.database -> Store.database) :=
  if b then [statement] else [].

(** The statements of [update_database_threadsafe], in source order. *)
Definition threadsafe_statements (now : string) (u : planned_info)
    : list (Store.database -> Store.database) :=
  let id := attachment_id u in
  when (Text.truthy (new_guid u)) (Store.update_guid id (new_guid u))
  ++ when (Text.truthy (new_attached_file u))
       (Store.update_meta id "_wp_attached_file" (new_attached_file u))
  ++ when (truthy_opt (new_alt_text u))
       (Store.replace_meta id "_wp_attachment_image_alt" (default "" (new_alt_text u)))
  ++ [Store.replace_meta id "_wp_optimizer_version" version;
      Store.replace_meta id "_wp_optimizer_date" now].

Definition update_database_threadsafe (now : string) (conn : Store.connection)
    (u : planned_info) : bool * Store.connection :=
  let conn := Store.set_autocommit true conn in
  match execute_all (threadsafe_statements now u) conn with
  | (Ok _, conn') => (true, Store.set_autocommit false conn')
  | (Raise _, conn') => (false, Store.set_autocommit false conn')
  end.

(** The statements of the sequential [update_database_urls_and_permalinks]. *)
Definition permalink_statements (old_guid new_guid : string) (id : Z)
    (new_attached_file : string) (new_alt_text : option string)
    (permalink_path : string) : list (Store.database -> Store.database) :=
  [Store.update_guid id new_guid;
   Store.update_meta id "_wp_attached_file" new_attached_file]
  ++ match new_alt_text with
     | Some alt => [Store.replace_meta id "_wp_attachment_image_alt" alt]
     | None => []
     end
  ++ [Store.replace_meta id "_semantic_permalink" permalink_path;
      Store.replace_in_content old_guid new_guid;
      Store.replace_in_options old_guid new_guid].

Definition update_database_urls_and_permalinks (conn : Store.connection)
    (old_guid new_guid : string) (id : Z) (new_attached_file : string)
    (new_alt_text : option string) (permalink_path : string)
    : bool * Store.connection :=
  match execute_all
          (permalink_statements old_guid new_guid id new_attached_file
             new_alt_text permalink_path) conn with
  | (Ok _, conn') =>
      match Store.commit conn' with
      | (Ok _, conn'') => (true, conn'')
      | (Raise _, conn'') => (false, Store.rollback conn'')
      end
  | (Raise _, conn') => (false, Store.rollback conn')
  end.

(** The [phpserialize] library: whether it is installed, and what lines
    1162-1192 compute from a stored [_wp_attachment_metadata] value, the old
    file name and the new one: an exception, if [phpserialize.loads], the
    rewriting of the file references or [phpserialize.dumps] raises; [None]
    if the value does not hold a dictionary; otherwise the text that is
    written back (file references rewritten, [webp_optimized],
    [optimization_version] and [optimization_date] added). *)
Record php_library : Type := {
  phpserialize_available : bool;
  rewrite_metadata : string -> string -> string -> result (option string)
}.

(** The last statements of [update_attachment_metadata]: the MIME type, then
    the commit; the handler of [Error] rolls back. *)
Definition set_mime_type_and_commit (conn : Store.connection) (attachment_id : Z)
    : bool * Store.connection :=
  match Store.execute (Store.update_post_mime_type attachment_id "image/webp") conn with
  | (Raise _, conn1) => (false, Store.rollback conn1)
  | (Ok _, conn1) =>
      match Store.commit conn1 with
      | (Ok _, conn2) => (true, conn2)
      | (Raise _, conn2) => (false, Store.rollback conn2)
      end
  end.

(** [update_attachment_metadata]: it reads the stored metadata, writes the
    rewritten value back, sets the MIME type and commits.  Its inner [try]
    returns [False] on any exception, also of the [UPDATE], without a
    rollback; its outer handler of [Error] rolls back. *)
Definition update_attachment_metadata (php : php_library) (conn : Store.connection)
    (attachment_id : Z) (old_filename new_filename : string)
    : bool * Store.connection :=
  if negb (phpserialize_available php) then (false, conn)
  else
    match Store.query
            (fun db => Store.postmeta db !! (attachment_id, "_wp_attachment_metadata"))
            conn with
    | (Raise _, conn1) => (false, Store.rollback conn1)
    | (Ok meta, conn1) =>
        if truthy_opt meta then
          match rewrite_metadata php (default "" meta) old_filename new_filename with
          | Raise _ => (false, conn1)
          | Ok None => set_mime_type_and_commit conn1 attachment_id
          | Ok (Some serialized_data) =>
              match Store.execute
                      (Store.update_meta attachment_id "_wp_attachment_metadata"
                         serialized_data) conn1 with
              | (Raise _, conn2) => (false, conn2)
              | (Ok _, conn2) => set_mime_type_and_commit conn2 attachment_id
              end
          end
        else set_mime_type_and_commit conn1 attachment_id
    end.

(** The store updates of one asset in [process_media_optimization] (lines
    1633-1653): [update_attachment_metadata], whose result is only printed,
    then [update_database_urls_and_permalinks], whose result decides whether
    the asset is counted as processed or as an error. *)
Record persisted_flags : Type := {
  metadata_updated : bool;
  database_urls_updated : bool
}.

Definition persist_attachment (php : php_library) (conn : Store.connection)
    (attachment_id : Z) (old_filename new_filename old_guid new_guid : string)
    (optimized_relative_path : string) (new_alt_text : option string)
    (permalink_path : string) : persisted_flags * Store.connection :=
  let '(metadata_ok, conn1) :=
    update_attachment_metadata php conn attachment_id old_filename new_filename in
  let '(database_ok, conn2) :=
    update_database_urls_and_permalinks conn1 old_guid new_guid attachment_id
      optimized_relative_path new_alt_text permalink_path in
  ({| metadata_updated := metadata_ok; database_urls_updated := database_ok |}, conn2).

(** *** The pipeline of one work item *)

Record world : Type := {
  fs : file_system;
  conn : Store.connection;
  tally : counters
}.

Definition set_converted (conversion_msg : conversion_message) (f : stage_flags)
    : stage_flags :=
  {| webp_converted := Some true;
     conversion_result := Some conversion_msg;
     iptc_added := iptc_added f; database_updated := database_updated f;
     database_error := database_error f; conversion_error := conversion_error f;
     processing_error := processing_error f; dry_run_marker := dry_run_marker f |}.

Definition set_iptc_added (f : stage_flags) : stage_flags :=
  {| webp_converted := webp_converted f; conversion_result := conversion_result f;
     iptc_added := Some true; database_updated := database_updated f;
     database_error := database_error f; conversion_error := conversion_error f;
     processing_error := processing_error f; dry_run_marker := dry_run_marker f |}.

Definition set_database_updated (f : stage_flags) : stage_flags :=
  {| webp_converted := webp_converted f; conversion_result := conversion_result f;
     iptc_added := iptc_added f; database_updated := Some true;
     database_error := database_error f; conversion_error := conversion_error f;
     processing_error := processing_error f; dry_run_marker := dry_run_marker f |}.

Definition set_database_error (f : stage_flags) : stage_flags :=
  {| webp_converted := webp_converted f; conversion_result := conversion_result f;
     iptc_added := iptc_added f; database_updated := database_updated f;
     database_error := Some true; conversion_error := conversion_error f;
     processing_error := processing_error f; dry_run_marker := dry_run_marker f |}.

Definition set_conversion_error (conversion_msg : conversion_message)
    (f : stage_flags) : stage_flags :=
  {| webp_converted := webp_converted f; conversion_result := conversion_result f;
     iptc_added := iptc_added f; database_updated := database_updated f;
     database_error := database_error f; conversion_error := Some conversion_msg;
     processing_error := processing_error f; dry_run_marker := dry_run_marker f |}.

Definition set_processing_error (e : exn) (f : stage_flags) : stage_flags :=
  {| webp_converted := webp_converted f; conversion_result := conversion_result f;
     iptc_added := iptc_added f; database_updated := database_updated f;
     database_error := database_error f; conversion_error := conversion_error f;
     processing_error := Some e; dry_run_marker := dry_run_marker f |}.

Definition set_dry_run (f : stage_flags) : stage_flags :=
  {| webp_converted := webp_converted f; conversion_result := conversion_result f;
     iptc_added := iptc_added f; database_updated := database_updated f;
     database_error := database_error f; conversion_error := conversion_error f;
     processing_error := processing_error f; dry_run_marker := Some true |}.

Definition flagged (g : stage_flags -> stage_flags) (u : update_info) : update_info :=
  {| info := info u; stages := g (stages u) |}.

Definition has_keyword_list (u : update_info) : bool :=
  match keywords (info u) with [] => false | _ => true end.

(** The stages after a successful conversion: metadata, then the store. *)
Definition embed_and_persist (env : environment) (task : task_data)
    (u : update_info) (w : world) : update_info * world :=
  let '(u, fs1, tally1) :=
    if iptc_available env && has_keyword_list u then
      match write_enhanced_iptc_threadsafe env (fs w) (optimized_file_path task) with
      | (true, fs1) => (flagged set_iptc_added u, fs1, incr_iptc_processed (tally w))
      | (false, fs1) => (u, fs1, tally w)
      end
    else (u, fs w, tally w) in
  match update_database_threadsafe (now_iso env) (conn w) (info u) with
  | (true, conn1) =>
      (flagged set_database_updated u,
       {| fs := fs1; conn := conn1; tally := incr_processed tally1 |})
  | (false, conn1) =>
      (flagged set_database_error u,
       {| fs := fs1; conn := conn1; tally := incr_errors tally1 |})
  end.

Definition process_single_attachment (env : environment) (cfg : config)
    (dry_run : bool) (task : task_data) (w : world) : update_info * world :=
  let u := task_update_info task in
  let v := validate_image_for_optimization (images env) cfg (fs w) (old_file_path task) in
  if negb (is_valid v) then (u, w)
  else if negb dry_run then
    match create_backup_copy_threadsafe env (fs w) (old_file_path task) with
    | (None, fs1) =>
        (u, {| fs := fs1; conn := conn w; tally := incr_errors (tally w) |})
    | (Some _, fs1) =>
        match convert_to_webp_threadsafe (images env) cfg fs1
                (old_file_path task) (optimized_file_path task) with
        | (c, fs2) =>
            if success c then
              embed_and_persist env task (flagged (set_converted (message c)) u)
                {| fs := fs2; conn := conn w;
                   tally := incr_webp_conversions (tally w) |}
            else
              (flagged (set_conversion_error (message c)) u,
               {| fs := fs2; conn := conn w; tally := incr_errors (tally w) |})
        end
    end
  else
    (flagged set_dry_run u,
     {| fs := fs w; conn := conn w; tally := incr_processed (tally w) |}).

(** *** Inventory *)

(** [get_media_attachments]: [select] is what the [SELECT] of the function
    returns on a store. *)
Definition get_media_attachments (select : Store.database -> list attachment)
    (conn : Store.connection) : list attachment * Store.connection :=
  match Store.query select conn with
  | (Ok attachments, conn') => (attachments, conn')
  | (Raise _, conn') => ([], conn')
  end.

(** The first statements of [process_media_optimization_multithreaded] and
    of [process_media_optimization]. *)
Inductive run_entry : Type :=
  | NothingToProcess     (* warning "No media attachments found", [return] *)
  | Proceed (attachments : list attachment).

Definition enter_run (select : Store.database -> list attachment)
    (conn : Store.connection) (scan_filesystem : bool)
    : run_entry * Store.connection :=
  let '(attachments, conn') := get_media_attachments select conn in
  match attachments with
  | [] => if negb scan_filesystem then (NothingToProcess, conn')
          else (Proceed attachments, conn')
  | _ => (Proceed attachments, conn')
  end.

(** *** The execution coordinator *)

(** What becomes of a submitted call of [process_single_attachment]: it
    returns or raises at some time (seconds on the coordinator's clock), or
    its worker never comes back. *)
Inductive future : Type :=
  | Returns (finish : nat) (r : update_info)
  | Raises (finish : nat) (e : exn)
  | NeverFinishes.

Definition finish_time (f : future) : option nat :=
  match f with
  | Returns finish _ => Some finish
  | Raises finish _ => Some finish
  | NeverFinishes => None
  end.

Definition never_finishes (f : future) : bool :=
  match f with NeverFinishes => true | _ => false end.

(** A finished future, with its task and the time it finished at. *)
Record completion : Type := {
  finished_at : nat;
  finished_task : task_data;
  finished_future : future
}.

Fixpoint insert_completion (x : completion) (l : list completion) : list completion :=
  match l with
  | [] => [x]
  | y :: l' =>
      if (finished_at x <=? finished_at y)%nat then x :: y :: l'
      else y :: insert_completion x l'
  end.

(** [as_completed(future_to_task)], called without a timeout: the finished
    futures in the order they finish.  The iterator then waits for the
    others, for ever if they never finish. *)
Fixpoint as_completed (submitted : list (task_data * future)) : list completion :=
  match submitted with
  | [] => []
  | (task, f) :: rest =>
      match finish_time f with
      | Some t =>
          insert_completion
            {| finished_at := t; finished_task := task; finished_future := f |}
            (as_completed rest)
      | None => as_completed rest
      end
  end.

Definition item_timeout : nat := 300.

(** [future.result(timeout)] called at time [now]: the outcome of a future
    that finishes within [timeout] seconds, [TimeoutError] otherwise. *)
Definition future_result (now timeout : nat) (f : future) : result update_info :=
  match f with
  | Returns finish r =>
      if (finish <=? now + timeout)%nat then Ok r else Raise TimeoutError
  | Raises finish e =>
      if (finish <=? now + timeout)%nat then Raise e else Raise TimeoutError
  | NeverFinishes => Raise TimeoutError
  end.

Record collector : Type := {
  optimization_updates : list update_info;
  completed_tasks : nat;
  collector_tally : counters;
  now : nat
}.

(** The body of [for future in as_completed(future_to_task)].  The error
    entry is a copy of the task's [update_info]; the stage keys a worker may
    have set on that shared dictionary before it raised are not tracked. *)
Definition collect (st : collector) (c : completion) : collector :=
  let now' := Nat.max (now st) (finished_at c) in
  match future_result now' item_timeout (finished_future c) with
  | Ok r =>
      {| optimization_updates := optimization_updates st ++ [r];
         completed_tasks := S (completed_tasks st);
         collector_tally := collector_tally st;
         now := now' |}
  | Raise e =>
      let error_update :=
        flagged (set_processing_error e) (task_update_info (finished_task c)) in
      {| optimization_updates := optimization_updates st ++ [error_update];
         completed_tasks := completed_tasks st;
         collector_tally := incr_errors (collector_tally st);
         now := now' |}
  end.

Inductive progress : Type :=
  | Finished
  | Blocked.      (* the loop waits for a future that never finishes *)

Definition run_chunk (worker : task_data -> future) (st : collector)
    (chunk : list task_data) : collector * progress :=
  let submitted := map (fun task => (task, worker task)) chunk in
  let st' := fold_left collect (as_completed submitted) st in
  (st', if existsb (fun tf => never_finishes (snd tf)) submitted
        then Blocked else Finished).

Fixpoint run_chunks (worker : task_data -> future) (st : collector)
    (chunks : list (list task_data)) : collector * progress :=
  match chunks with
  | [] => (st, Finished)
  | chunk :: rest =>
      match run_chunk worker st chunk with
      | (st', Finished) => run_chunks worker st' rest
      | (st', Blocked) => (st', Blocked)
      end
  end.

Fixpoint chunks_from (fuel n : nat) (tasks : list task_data) : list (list task_data) :=
  match fuel, tasks with
  | S fuel', _ :: _ => take n tasks :: chunks_from fuel' n (drop n tasks)
  | _, _ => []
  end.

(** [[tasks[i:i + chunk_size] for i in range(0, len(tasks), chunk_size)]]:
    [range] raises [ValueError] for the step 0 and is empty for a negative
    step. *)
Definition chunks_of (chunk_size : Z) (tasks : list task_data)
    : result (list (list task_data)) :=
  if (chunk_size =? 0)%Z then Raise ValueError
  else if (chunk_size <? 0)%Z then Ok []
  else Ok (chunks_from (length tasks) (Z.to_nat chunk_size) tasks).

(** [ThreadPoolExecutor(max_workers=max_workers)] raises [ValueError] for a
    number of workers that is not positive.  The default of the
    configuration, [min(32, (os.cpu_count() or 1) + 4)], is at least 5. *)
Definition executor_starts (cfg : config) : bool :=
  match max_threads (optimization cfg) with
  | None => true
  | Some max_workers => (0 <? max_workers)%Z
  end.

(** The parallel phase of [process_media_optimization_multithreaded]. *)
Definition process_tasks (cfg : config) (worker : task_data -> future)
    (tally : counters) (tasks : list task_data) : result (collector * progress) :=
  let start :=
    {| optimization_updates := []; completed_tasks := 0;
       collector_tally := tally; now := 0 |} in
  match tasks with
  | [] => Ok (start, Finished)
  | _ =>
      chunks ← chunks_of (default 10%Z (chunk_size (optimization cfg))) tasks;
      if executor_starts cfg then Ok (run_chunks worker start chunks)
      else Raise ValueError
  end.

(** *** The table prefix *)

(** [get_table_prefix]: [show_tables] is what the server answers to
    [SHOW TABLES LIKE '%posts'], one name per row. *)
Definition get_table_prefix (show_tables : Store.database -> list string)
    (conn : Store.connection) : string * Store.connection :=
  match Store.query show_tables conn with
  | (Ok tables, conn') =>
      match List.find (Text.ends_with "posts") tables with
      | Some table_name => (Text.string_slice_to (-5) table_name, conn')
      | None => ("wp_", conn')
      end
  | (Raise _, conn') => ("wp_", conn')
  end.

(** *** The filesystem scan of the sequential optimizer *)

(** The sequential [write_enhanced_iptc]. *)
Definition write_enhanced_iptc (env : environment) (fs : file_system)
    (image_path : string) : bool * file_system :=
  if negb (iptc_available env) then (false, fs)
  else match fs !! image_path with
       | None => (false, fs)
       | Some c =>
           match iptc_embed env c with
           | Ok c' => (true, <[image_path := c']> fs)
           | Raise _ => (false, fs)
           end
       end.

Definition image_extensions : list string :=
  [".jpg"; ".jpeg"; ".png"; ".gif"; ".tif"; ".tiff"; ".bmp"].

Definition scan_webp_extensions : list string := [".jpg"; ".jpeg"; ".png"].

(** [name.endswith(extensions)] for a tuple of suffixes. *)
Definition has_extension (extensions : list string) (name : string) : bool :=
  existsb (fun e => Text.ends_with e name) extensions.

(** An [update_info] of the scan ([attachment_id] is [None] and
    [filesystem_only] is [True] in all of them); the two last keys are set
    after the conversion, on the dictionary the list already holds. *)
Record scan_update : Type := {
  scan_old_filename : string;
  scan_new_filename : string;
  scan_file_path : string;
  scan_relative_path : string;
  scan_needs_cleaning : bool;
  scan_needs_webp : bool;
  scan_webp_converted : bool;
  scan_iptc_added : bool
}.

Record scan_state : Type := {
  scan_fs : file_system;
  scan_processed : nat;
  scan_errors : nat;
  scan_updates : list scan_update
}.

(** The body of [for file in files].  [env_for] is the environment in force
    while a file is processed (clock, faults, image library); [relpath] is
    [os.path.relpath]; [printable] says whether [print] can write a path to
    the output stream (on a UTF-8 stream it raises [UnicodeEncodeError] for a
    name with an undecodable byte).  The entry is added to the list before
    its path is printed, inside the same [try]: a path that cannot be printed
    leaves the entry in the list and counts an error. *)
Definition scan_file (env_for : string -> environment)
    (relpath : string -> string -> string) (printable : string -> bool)
    (cfg : config) (uploads_path : string)
    (processed_db_files : gset string) (dry_run : bool) (root file : string)
    (st : scan_state) : scan_state :=
  if negb (has_extension image_extensions (Text.lower file)) then st
  else
    let file_path := PathLib.os_path_join root file in
    if bool_decide (file_path ∈ processed_db_files) then st
    else if Text.ends_with ".webp" (Text.lower file) then st
    else
      let path_obj := PathLib.parse file_path in
      let old_filename := PathLib.stem path_obj in
      let extension := PathLib.suffix path_obj in
      match clean_filename old_filename cfg with
      | Raise _ =>
          {| scan_fs := scan_fs st; scan_processed := scan_processed st;
             scan_errors := S (scan_errors st); scan_updates := scan_updates st |}
      | Ok cleaned_filename =>
          let needs_cleaning := negb (String.eqb old_filename cleaned_filename) in
          let needs_webp := Text.mem (Text.lower extension) scan_webp_extensions in
          if needs_cleaning || needs_webp then
            let update_info (converted : bool) :=
              {| scan_old_filename := file;
                 scan_new_filename := cleaned_filename ++ ".webp";
                 scan_file_path := file_path;
                 scan_relative_path := relpath file_path uploads_path;
                 scan_needs_cleaning := needs_cleaning;
                 scan_needs_webp := needs_webp;
                 scan_webp_converted := converted;
                 scan_iptc_added := converted |} in
            if negb (printable (relpath file_path uploads_path)) then
              {| scan_fs := scan_fs st; scan_processed := scan_processed st;
                 scan_errors := S (scan_errors st);
                 scan_updates := scan_updates st ++ [update_info false] |}
            else if negb dry_run then
              let env := env_for file_path in
              let new_file_path := PathLib.os_path_join root (cleaned_filename ++ ".webp") in
              let '(_, fs1) :=
                create_backup_copy (faults env) (clock env) (scan_fs st) file_path in
              match convert_to_webp (images env) cfg fs1 file_path new_file_path with
              | ((true, _), fs2) =>
                  let '(_, fs3) := write_enhanced_iptc env fs2 new_file_path in
                  {| scan_fs := fs3; scan_processed := S (scan_processed st);
                     scan_errors := scan_errors st;
                     scan_updates := scan_updates st ++ [update_info true] |}
              | ((false, _), fs2) =>
                  {| scan_fs := fs2; scan_processed := scan_processed st;
                     scan_errors := scan_errors st;
                     scan_updates := scan_updates st ++ [update_info false] |}
              end
            else
              {| scan_fs := scan_fs st; scan_processed := scan_processed st;
                 scan_errors := scan_errors st;
                 scan_updates := scan_updates st ++ [update_info false] |}
          else st
      end.

(** [scan_filesystem_for_optimization]: [walk] is what [os.walk(uploads_path)]
    yields, the files of each directory. *)
Definition scan_filesystem_for_optimization (env_for : string -> environment)
    (relpath : string -> string -> string) (printable : string -> bool)
    (cfg : config) (uploads_path : string)
    (processed_db_files : gset string) (dry_run : bool)
    (walk : list (string * list string)) (fs : file_system) : scan_state :=
  fold_left
    (fun st entry =>
       fold_left
         (fun st file =>
            scan_file env_for relpath printable cfg uploads_path processed_db_files
              dry_run (fst entry) file st)
         (snd entry) st)
    walk
    {| scan_fs := fs; scan_processed := 0; scan_errors := 0; scan_updates := [] |}.

End Complete.


(** ** The class-based optimizer *)

Module Enhanced.

(** *** Configuration *)

Record optimization_settings : Type := {
  webp_quality : nat;
  webp_lossless : bool;
  backup_originals : bool
}.

Record metadata_settings : Type := {
  metadata_enabled : bool;
  generate_keywords_from_title_enabled : bool;
  max_keywords : nat;
  min_keyword_length : nat
}.

Record filename_settings : Type := {
  filename_enabled : bool;
  max_length : Z;
  remove_special_chars : bool;
  lowercase : bool;
  replace_spaces : string      (* the replacement; empty (falsy) for none *)
}.

Record permalink_settings : Type := {
  permalink_enabled : bool;
  max_slug_length : Z
}.

Record config : Type := {
  optimization : optimization_settings;
  metadata : metadata_settings;
  filename_optimization : filename_settings;
  permalink_optimization : permalink_settings
}.

(** *** Slugs and file names *)

Definition slug_char (c : ascii) : bool :=
  Text.is_word c || Text.is_space c || Text.is_hyphen c.

Definition is_space_or_underscore (c : ascii) : bool :=
  Text.is_space c || Text.is_underscore c.

(** [s[:max_length].rstrip(chars)] when [len(s) > max_length] *)
Definition truncate (max_length : Z) (trailing : ascii -> bool) (s : string) : string :=
  if (max_length <? Z.of_nat (String.length s))%Z
  then Text.rstrip trailing (Text.string_slice_to max_length s)
  else s.

Definition generate_seo_slug (title : string) (max_length : Z) : string :=
  if negb (Text.truthy title) then "media-attachment"
  else
    let slug := Text.lower title in
    let slug := Text.keep slug_char slug in
    let slug := Text.collapse_runs is_space_or_underscore "-" slug in
    let slug := Text.collapse_runs Text.is_hyphen "-" slug in
    let slug := Text.strip Text.is_hyphen slug in
    let slug := truncate max_length Text.is_hyphen slug in
    if negb (Text.truthy slug) then "media-attachment" else slug.

(** The replacement argument of [re.sub(pattern, repl, s)] for a pattern
    without groups.  A text without a backslash replaces every match as it
    is.  A text with a backslash is a template, which [re] compiles before it
    looks for a match: [compile_template] is what that gives, [re.error] for
    a bad escape or group reference, and otherwise the expansion of a match
    (escapes such as a line feed resolved, the whole match for a reference
    to group 0). *)
Definition replacement_of (compile_template : string -> result (string -> string))
    (repl : string) : result (string -> string) :=
  if Text.contains_char Text.backslash repl then compile_template repl
  else Ok (fun _ => repl).

Definition optimize_filename (compile_template : string -> result (string -> string))
    (cfg : config) (original_name title : string) : result string :=
  let fo := filename_optimization cfg in
  if negb (filename_enabled fo) then Ok (PathLib.stem (PathLib.parse original_name))
  else
    let base_name :=
      if Text.truthy title then title else PathLib.stem (PathLib.parse original_name) in
    let base_name :=
      if remove_special_chars fo then Text.keep slug_char base_name else base_name in
    base_name ←
      (if Text.truthy (replace_spaces fo)
       then
         expand ← replacement_of compile_template (replace_spaces fo);
         Ok (Text.sub_runs Text.is_space expand base_name)
       else Ok base_name);
    let base_name := if lowercase fo then Text.lower base_name else base_name in
    let base_name :=
      Text.strip Text.is_hyphen_or_underscore
        (Text.collapse_runs Text.is_hyphen_or_underscore "-" base_name) in
    let base_name := truncate (max_length fo) Text.is_hyphen_or_underscore base_name in
    Ok (Text.or_else base_name "media").

(** [re.findall(r'\b\w+\b', s)]: the maximal runs of word characters. *)
Fixpoint words_from (current : string) (s : string) : list string :=
  match s with
  | EmptyString => if Text.truthy current then [current] else []
  | String c s' =>
      if Text.is_word c then words_from (current ++ String c EmptyString) s'
      else if Text.truthy current then current :: words_from EmptyString s'
      else words_from EmptyString s'
  end.

Definition stop_words : list string :=
  ["the"; "and"; "or"; "but"; "in"; "on"; "at"; "to"; "for"; "of"; "with";
   "by"; "a"; "an"].

Fixpoint select_keywords (md : metadata_settings) (words keywords : list string)
    : list string :=
  match words with
  | [] => keywords
  | word :: rest =>
      if (min_keyword_length md <=? String.length word)%nat
         && negb (Text.mem word stop_words)
         && negb (Text.mem word keywords)
         && (length keywords <? max_keywords md)%nat
      then select_keywords md rest (keywords ++ [word])
      else select_keywords md rest keywords
  end.

Definition generate_keywords_from_title (cfg : config) (title : string) : list string :=
  if negb (Text.truthy title)
     || negb (generate_keywords_from_title_enabled (metadata cfg))
  then []
  else select_keywords (metadata cfg) (words_from EmptyString (Text.lower title)) [].

(** *** Rows, state and environment *)

(** One row of [get_media_attachments]. *)
Record attachment : Type := {
  ID : Z;
  post_title : string;
  post_content : string;
  post_excerpt : string;
  file_path : option string
}.

Record stats : Type := {
  processed : nat;
  webp_converted : nat;
  metadata_added : nat;
  metadata_failed : nat;
  permalinks_updated : nat;
  permalink_failures : nat;
  errors : nat;
  size_saved : Z
}.

Definition zero_stats : stats :=
  {| processed := 0; webp_converted := 0; metadata_added := 0; metadata_failed := 0;
     permalinks_updated := 0; permalink_failures := 0; errors := 0; size_saved := 0 |}.

(** The fields of the optimizer object that processing changes, with the
    file system and the store. *)
Record state : Type := {
  fs : file_system;
  db_connection : Store.connection;
  tally : stats;
  permalink_updates : list (Z * string)
}.

Record environment : Type := {
  timestamp : string;               (* [datetime.now().strftime("%Y%m%d_%H%M%S")] *)
  os : FileSystem.os_faults;
  pil_available : bool;
  encode : content -> nat -> bool -> result content;   (* open ... [image.save] *)
  exiftool : content -> option content;  (* the rewritten file on exit code 0 *)
  template : string -> result (string -> string)
                                    (* [re]'s reading of a replacement template *)
}.

Definition with_fs (fs' : file_system) (st : state) : state :=
  {| fs := fs'; db_connection := db_connection st; tally := tally st;
     permalink_updates := permalink_updates st |}.

Definition with_connection (c : Store.connection) (st : state) : state :=
  {| fs := fs st; db_connection := c; tally := tally st;
     permalink_updates := permalink_updates st |}.

Definition with_tally (t : stats) (st : state) : state :=
  {| fs := fs st; db_connection := db_connection st; tally := t;
     permalink_updates := permalink_updates st |}.

Definition count_converted (saved : Z) (t : stats) : stats :=
  {| processed := processed t; webp_converted := S (webp_converted t);
     metadata_added := metadata_added t; metadata_failed := metadata_failed t;
     permalinks_updated := permalinks_updated t;
     permalink_failures := permalink_failures t; errors := errors t;
     size_saved := (size_saved t + saved)%Z |}.

Definition count_metadata (ok : bool) (t : stats) : stats :=
  {| processed := processed t; webp_converted := webp_converted t;
     metadata_added := if ok then S (metadata_added t) else metadata_added t;
     metadata_failed := if ok then metadata_failed t else S (metadata_failed t);
     permalinks_updated := permalinks_updated t;
     permalink_failures := permalink_failures t; errors := errors t;
     size_saved := size_saved t |}.

Definition count_permalink (ok : bool) (t : stats) : stats :=
  {| processed := processed t; webp_converted := webp_converted t;
     metadata_added := metadata_added t; metadata_failed := metadata_failed t;
     permalinks_updated := if ok then S (permalinks_updated t) else permalinks_updated t;
     permalink_failures := if ok then permalink_failures t else S (permalink_failures t);
     errors := errors t; size_saved := size_saved t |}.

Definition count_processed (t : stats) : stats :=
  {| processed := S (processed t); webp_converted := webp_converted t;
     metadata_added := metadata_added t; metadata_failed := metadata_failed t;
     permalinks_updated := permalinks_updated t;
     permalink_failures := permalink_failures t; errors := errors t;
     size_saved := size_saved t |}.

Definition count_error (t : stats) : stats :=
  {| processed := processed t; webp_converted := webp_converted t;
     metadata_added := metadata_added t; metadata_failed := metadata_failed t;
     permalinks_updated := permalinks_updated t;
     permalink_failures := permalink_failures t; errors := S (errors t);
     size_saved := size_saved t |}.

(** *** Stages *)

(** [convert_to_webp]: success, original size, new size. *)
Definition convert_to_webp (env : environment) (cfg : config) (fs : file_system)
    (input_path output_path : string) : (bool * nat * nat) * file_system :=
  if negb (pil_available env) then ((false, 0, 0), fs)
  else match fs !! input_path with
       | None => ((false, 0, 0), fs)
       | Some image =>
           match encode env image (webp_quality (optimization cfg))
                   (webp_lossless (optimization cfg)) with
           | Raise _ => ((false, 0, 0), fs)
           | Ok webp =>
               ((true, length image, length webp), <[output_path := webp]> fs)
           end
       end.

(** [add_metadata_with_exiftool], as called outside a dry run. *)
Definition add_metadata_with_exiftool (env : environment) (cfg : config)
    (dry_run : bool) (st : state) (file : string) : bool * state :=
  if negb (metadata_enabled (metadata cfg)) then (true, st)
  else if negb dry_run then
    match fs st !! file with
    | Some c =>
        match exiftool env c with
        | Some c' =>
            (true, with_tally (count_metadata true (tally st))
                     (with_fs (<[file := c']> (fs st)) st))
        | None => (false, with_tally (count_metadata false (tally st)) st)
        end
    | None => (false, with_tally (count_metadata false (tally st)) st)
    end
  else (true, st).

(** The [while counter <= 100] loop of [ensure_unique_slug]: the first free
    [original-counter], or [original-id] when none is free. *)
Fixpoint first_free_slug (rounds : nat) (counter : nat) (original_slug : string)
    (attachment_id : Z) (conn : Store.connection) : result string * Store.connection :=
  match rounds with
  | O => (Ok (original_slug ++ "-" ++ Text.str_of_Z attachment_id), conn)
  | S rounds' =>
      let new_slug := original_slug ++ "-" ++ Text.str_of_nat counter in
      match Store.query (fun db => Store.slug_taken db new_slug attachment_id) conn with
      | (Raise e, conn') => (Raise e, conn')
      | (Ok false, conn') => (Ok new_slug, conn')
      | (Ok true, conn') =>
          first_free_slug rounds' (S counter) original_slug attachment_id conn'
      end
  end.

Definition ensure_unique_slug (slug : string) (attachment_id : Z)
    (conn : Store.connection) : string * Store.connection :=
  let fallback := slug ++ "-" ++ Text.str_of_Z attachment_id in
  match Store.query (fun db => Store.slug_taken db slug attachment_id) conn with
  | (Raise _, conn') => (fallback, conn')
  | (Ok false, conn') => (slug, conn')
  | (Ok true, conn') =>
      match first_free_slug 100 1 slug attachment_id conn' with
      | (Ok slug', conn'') => (slug', conn'')
      | (Raise _, conn'') => (fallback, conn'')
      end
  end.

Definition update_attachment_permalink (cfg : config) (dry_run : bool)
    (attachment_id : Z) (title : string) (st : state) : bool * state :=
  if negb (permalink_enabled (permalink_optimization cfg)) then (true, st)
  else
    let slug := generate_seo_slug title (max_slug_length (permalink_optimization cfg)) in
    let '(slug, conn1) := ensure_unique_slug slug attachment_id (db_connection st) in
    if negb dry_run then
      match Store.execute (Store.update_post_name attachment_id slug) conn1 with
      | (Ok _, conn2) =>
          match Store.commit conn2 with
          | (Ok _, conn3) =>
              (true,
               {| fs := fs st; db_connection := conn3;
                  tally := count_permalink true (tally st);
                  permalink_updates := permalink_updates st ++ [(attachment_id, slug)] |})
          | (Raise _, conn3) =>
              (false, with_tally (count_permalink false (tally st))
                        (with_connection conn3 st))
          end
      | (Raise _, conn2) =>
          (false, with_tally (count_permalink false (tally st))
                    (with_connection conn2 st))
      end
    else (true, with_connection conn1 st).

Definition update_database_record (conn : Store.connection) (attachment_id : Z)
    (new_filename new_path : string) : bool * Store.connection :=
  match Store.execute (Store.update_meta attachment_id "_wp_attached_file" new_path) conn with
  | (Raise _, conn1) => (false, conn1)
  | (Ok _, conn1) =>
      match Store.execute (Store.update_guid_filename attachment_id new_filename) conn1 with
      | (Raise _, conn2) => (false, conn2)
      | (Ok _, conn2) =>
          match Store.commit conn2 with
          | (Ok _, conn3) => (true, conn3)
          | (Raise _, conn3) => (false, conn3)
          end
      end
  end.

(** *** The pipeline of one attachment *)

(** The entries of [operations_performed]. *)
Inductive operation : Type :=
  | OriginalBackedUp
  | ConvertedToWebP
  | WouldConvertToWebP
  | MetadataAdded
  | MetadataFailed
  | WouldAddMetadata
  | PermalinkUpdated
  | PermalinkFailed
  | DatabaseUpdated
  | DatabaseFailed
  | WouldUpdateDatabase.

(** The paths [process_attachment] derives from a row. *)
Record targets : Type := {
  current_full_path : PathLib.path;
  new_filename : string;
  new_file_path : PathLib.path;
  new_relative_path : string
}.

Definition title_of (a : attachment) : string :=
  if Text.truthy (post_title a) then post_title a
  else "Media " ++ Text.str_of_Z (ID a).

(** The names of lines 1087-1089 and 1134; [optimize_filename] may raise. *)
Definition targets_of (compile_template : string -> result (string -> string))
    (cfg : config) (uploads_path : PathLib.path) (a : attachment)
    (current_file_path : string) : result targets :=
  let current_full_path := PathLib.div uploads_path current_file_path in
  optimized_name ←
    optimize_filename compile_template cfg (PathLib.name current_full_path) (title_of a);
  let new_filename := optimized_name ++ ".webp" in
  Ok {| current_full_path := current_full_path;
        new_filename := new_filename;
        new_file_path := PathLib.div (PathLib.parent current_full_path) new_filename;
        new_relative_path :=
          PathLib.to_string
            (PathLib.div (PathLib.parent (PathLib.parse current_file_path))
               new_filename) |}.

Definition backup_path_of (env : environment) (p : PathLib.path) : PathLib.path :=
  PathLib.div (PathLib.parent p)
    ("backup_" ++ PathLib.stem p ++ "_" ++ timestamp env ++ PathLib.suffix p).

(** The backup of the original, when configured. *)
Definition backup_original (env : environment) (cfg : config) (t : targets)
    (st : state) : result (list operation) * state :=
  if backup_originals (optimization cfg) then
    match FileSystem.copy2 (os env) (fs st)
            (PathLib.to_string (current_full_path t))
            (PathLib.to_string (backup_path_of env (current_full_path t))) with
    | (Ok _, fs1) => (Ok [OriginalBackedUp], with_fs fs1 st)
    | (Raise e, fs1) => (Raise e, with_fs fs1 st)
    end
  else (Ok [], st).

(** The store update and the removal of the original that follows it. *)
Definition persist_and_unlink (env : environment) (a : attachment) (t : targets)
    (ops : list operation) (st : state) : result (bool * list operation) * state :=
  let '(updated, conn') :=
    update_database_record (db_connection st) (ID a)
      (new_filename t) (new_relative_path t) in
  let st' := with_connection conn' st in
  let ops := (ops ++ [if updated then DatabaseUpdated else DatabaseFailed])%list in
  if FileSystem.path_exists (fs st') (PathLib.to_string (new_file_path t))
     && negb (PathLib.eqb (current_full_path t) (new_file_path t))
  then
    match FileSystem.remove (os env) (fs st')
            (PathLib.to_string (current_full_path t)) with
    | Ok fs'' => (Ok (true, ops), with_fs fs'' st')
    | Raise e => (Raise e, st')
    end
  else (Ok (true, ops), st').

(** Metadata, permalink, store update and removal of the original. *)
Definition after_conversion (env : environment) (cfg : config) (a : attachment)
    (t : targets) (ops : list operation) (st : state)
    : result (bool * list operation) * state :=
  let '(metadata_success, st1) :=
    add_metadata_with_exiftool env cfg false st
      (PathLib.to_string (new_file_path t)) in
  let ops := (ops ++ [if metadata_success then MetadataAdded else MetadataFailed])%list in
  let '(permalink_success, st2) :=
    update_attachment_permalink cfg false (ID a) (title_of a) st1 in
  let ops := (ops ++ [if permalink_success then PermalinkUpdated else PermalinkFailed])%list in
  persist_and_unlink env a t ops st2.

(** The live branch, from the backup to the removal of the original; an
    exception that reaches the [except Exception] of the function is
    [Raise], with the state it leaves. *)
Definition process_live (env : environment) (cfg : config) (a : attachment)
    (t : targets) (st : state) : result (bool * list operation) * state :=
  match backup_original env cfg t st with
  | (Raise e, st1) => (Raise e, st1)
  | (Ok ops, st1) =>
      match convert_to_webp env cfg (fs st1)
              (PathLib.to_string (current_full_path t))
              (PathLib.to_string (new_file_path t)) with
      | ((false, _, _), fs2) => (Ok (false, ops), with_fs fs2 st1)
      | ((true, O, _), fs2) => (Raise ZeroDivisionError, with_fs fs2 st1)
      | ((true, S n, new_size), fs2) =>
          let saved := (Z.of_nat (S n) - Z.of_nat new_size)%Z in
          after_conversion env cfg a t (ops ++ [ConvertedToWebP])%list
            (with_tally (count_converted saved (tally st1)) (with_fs fs2 st1))
      end
  end.

(** The dry-run branch: the same sequence with every write guarded out.  It
    is entered, like the live branch, after the file name has been derived;
    see [process_attachment]. *)
Definition process_dry (cfg : config) (a : attachment) (st : state)
    : result (bool * list operation) * state :=
  let ops := [WouldConvertToWebP; WouldAddMetadata] in
  let '(permalink_success, st1) :=
    update_attachment_permalink cfg true (ID a) (title_of a) st in
  let ops := (ops ++ [if permalink_success then PermalinkUpdated else PermalinkFailed])%list in
  (Ok (true, (ops ++ [WouldUpdateDatabase])%list), st1).

Record outcome : Type := {
  returned : bool;
  operations : list operation      (* what the function printed *)
}.

(** The steps inside the [try] of [process_attachment] for a file that
    exists: the new name is derived first, in a dry run as in a live one, and
    an exception of [optimize_filename] ends the call before either branch. *)
Definition process_existing (env : environment) (cfg : config) (dry_run : bool)
    (uploads_path : PathLib.path) (a : attachment) (current_file_path : string)
    (st : state) : result (bool * list operation) * state :=
  match targets_of (template env) cfg uploads_path a current_file_path with
  | Raise e => (Raise e, st)
  | Ok t => if dry_run then process_dry cfg a st else process_live env cfg a t st
  end.

Definition process_attachment (env : environment) (cfg : config) (dry_run : bool)
    (uploads_path : PathLib.path) (a : attachment) (st : state) : outcome * state :=
  match file_path a with
  | None => ({| returned := false; operations := [] |}, st)
  | Some current_file_path =>
      if negb (Text.truthy current_file_path)
      then ({| returned := false; operations := [] |}, st)
      else
        let current_full_path := PathLib.div uploads_path current_file_path in
        if negb (FileSystem.path_exists (fs st) (PathLib.to_string current_full_path))
        then ({| returned := false; operations := [] |}, st)
        else
          match process_existing env cfg dry_run uploads_path a current_file_path st with
          | (Ok (true, ops), st') =>
              ({| returned := true; operations := ops |},
               with_tally (count_processed (tally st')) st')
          | (Ok (false, _), st') => ({| returned := false; operations := [] |}, st')
          | (Raise _, st') =>
              ({| returned := false; operations := [] |},
               with_tally (count_error (tally st')) st')
          end
  end.

(** *** Inventory and the run *)

Definition get_media_attachments (select : Store.database -> list attachment)
    (conn : Store.connection) : list attachment * Store.connection :=
  match Store.query select conn with
  | (Ok attachments, conn') => (attachments, conn')
  | (Raise _, conn') => ([], conn')
  end.

(** [run_optimization], from the inventory on. *)
Definition run_optimization (env : environment) (cfg : config) (dry_run : bool)
    (uploads_path : PathLib.path) (select : Store.database -> list attachment)
    (st : state) : bool * state :=
  let '(attachments, conn') := get_media_attachments select (db_connection st) in
  let st := with_connection conn' st in
  match attachments with
  | [] => (false, st)
  | _ =>
      (true,
       fold_left (fun st a => snd (process_attachment env cfg dry_run uploads_path a st))
         attachments st)
  end.

(** *** The table prefix *)

(** The loop of [get_table_prefix] over the listed tables: the first name
    that ends with [posts] and whose prefix has an [options] table. *)
Fixpoint probe_prefix (show_tables_like : string -> Store.database -> list string)
    (tables : list string) (conn : Store.connection) : string * Store.connection :=
  match tables with
  | [] => ("wp_", conn)
  | table_name :: rest =>
      if Text.ends_with "posts" table_name then
        let prefix := Text.string_slice_to (-5) table_name in
        match Store.query (show_tables_like (prefix ++ "options")) conn with
        | (Raise _, conn') => ("wp_", conn')
        | (Ok [], conn') => probe_prefix show_tables_like rest conn'
        | (Ok (_ :: _), conn') => (prefix, conn')
        end
      else probe_prefix show_tables_like rest conn
  end.

(** [get_table_prefix]: [show_tables_like pattern] is what the server answers
    to [SHOW TABLES LIKE pattern]. *)
Definition get_table_prefix (show_tables_like : string -> Store.database -> list string)
    (conn : Store.connection) : string * Store.connection :=
  match Store.query (show_tables_like "%posts") conn with
  | (Ok tables, conn') => probe_prefix show_tables_like tables conn'
  | (Raise _, conn') => ("wp_", conn')
  end.

(** *** Merging configurations *)

(** A value of a configuration as [json.load] returns it: a dictionary, with
    its keys in insertion order, or a value that is not a dictionary, given
    by its JSON text. *)
#[warnings="-register-all"] Inductive json : Type :=
  | Atom (text : string)
  | Dict (entries : list (string * json)).

(** [d.get(key)] *)
Fixpoint dict_get (key : string) (d : list (string * json)) : option json :=
  match d with
  | [] => None
  | (k, v) :: d' => if String.eqb k key then Some v else dict_get key d'
  end.

(** [d[key] = value]: an existing key keeps its place, a new one is added
    at the end. *)
Fixpoint dict_set (key : string) (value : json) (d : list (string * json))
    : list (string * json) :=
  match d with
  | [] => [(key, value)]
  | (k, v) :: d' =>
      if String.eqb k key then (k, value) :: d' else (k, v) :: dict_set key value d'
  end.

(** What the loop of [_deep_merge] stores under a key whose present value
    is [current]: the merge of the two when both are dictionaries, the new
    value otherwise. *)
Fixpoint merge_entry (current : option json) (value : json) {struct value} : json :=
  match current, value with
  | Some (Dict base), Dict update =>
      Dict ((fix merge_into (result items : list (string * json)) {struct items}
               : list (string * json) :=
               match items with
               | [] => result
               | (key, v) :: rest =>
                   merge_into (dict_set key (merge_entry (dict_get key result) v) result)
                     rest
               end) base update)
  | _, _ => value
  end.

(** [for key, value in dict2.items(): ...] on [result]. *)
Fixpoint merge_into (result items : list (string * json)) : list (string * json) :=
  match items with
  | [] => result
  | (key, v) :: rest =>
      merge_into (dict_set key (merge_entry (dict_get key result) v) result) rest
  end.

Definition _deep_merge (dict1 dict2 : list (string * json)) : list (string * json) :=
  merge_into dict1 dict2.

End Enhanced.

(** ** Sample configurations and inputs *)

Module Samples.

(** The default configuration of [load_config], without patterns. *)
Definition complete_config (patterns : list pattern) : Complete.config :=
  {| Complete.unwanted_patterns := patterns;
     Complete.webp :=
       {| Complete.quality := Some 85; Complete.method := Some 6;
          Complete.lossless := Some false; Complete.transparency := Some true |};
     Complete.permalink :=
       {| Complete.base_path := "/media"; Complete.max_tags := 3;
          Complete.include_timestamp := true; Complete.include_asset_id := true |};
     Complete.optimization :=
       {| Complete.max_file_size_mb := Some 10; Complete.max_threads := None;
          Complete.chunk_size := None; Complete.backup_originals := true;
          Complete.process_thumbnails := true |} |}.

(** The default configuration of [create_default_config]; the flag says
    whether file name optimisation is enabled. *)
Definition enhanced_config (filenames : bool) : Enhanced.config :=
  {| Enhanced.optimization :=
       {| Enhanced.webp_quality := 85; Enhanced.webp_lossless := false;
          Enhanced.backup_originals := true |};
     Enhanced.metadata :=
       {| Enhanced.metadata_enabled := true;
          Enhanced.generate_keywords_from_title_enabled := true;
          Enhanced.max_keywords := 5; Enhanced.min_keyword_length := 3 |};
     Enhanced.filename_optimization :=
       {| Enhanced.filename_enabled := filenames; Enhanced.max_length := 200;
          Enhanced.remove_special_chars := true; Enhanced.lowercase := true;
          Enhanced.replace_spaces := "-" |};
     Enhanced.permalink_optimization :=
       {| Enhanced.permalink_enabled := true; Enhanced.max_slug_length := 100 |} |}.

(** The default configuration with a lone backslash as the replacement of
    spaces in file names. *)
Definition backslash_config : Enhanced.config :=
  {| Enhanced.optimization := Enhanced.optimization (enhanced_config true);
     Enhanced.metadata := Enhanced.metadata (enhanced_config true);
     Enhanced.filename_optimization :=
       {| Enhanced.filename_enabled := true; Enhanced.max_length := 200;
          Enhanced.remove_special_chars := true; Enhanced.lowercase := true;
          Enhanced.replace_spaces := String Text.backslash "" |};
     Enhanced.permalink_optimization :=
       Enhanced.permalink_optimization (enhanced_config true) |}.

(** A library whose [urlparse] keeps a fixed site and whose [strptime]
    refuses every text. *)
Definition site_library : library :=
  {| strptime_ymd := fun _ => Raise ValueError;
     url_base := fun _ => Ok "http://example.org" |}.

(** The same configuration with a ceiling of one megabyte. *)
Definition small_ceiling_config : Complete.config :=
  {| Complete.unwanted_patterns := [];
     Complete.webp := Complete.webp (complete_config []);
     Complete.permalink := Complete.permalink (complete_config []);
     Complete.optimization :=
       {| Complete.max_file_size_mb := Some 1; Complete.max_threads := None;
          Complete.chunk_size := None; Complete.backup_originals := true;
          Complete.process_thumbnails := true |} |}.

Definition empty_database : Store.database :=
  {| Store.posts := ∅; Store.postmeta := ∅; Store.options := ∅ |}.

(** A session on [db] with nothing pending, whose statements the server
    refuses as [fails] says. *)
Definition session (db : Store.database) (auto : bool) (fails : nat -> bool)
    : Store.connection :=
  {| Store.committed := db; Store.working := db; Store.autocommit := auto;
     Store.executed := 0; Store.fails := fails |}.

(** A store that cannot be reached: every statement raises. *)
Definition unreachable : Store.connection :=
  session empty_database false (fun _ => true).

Definition sunset_row : Complete.attachment :=
  {| Complete.ID := 7; Complete.guid := "http://example.org/uploads/2024/sunset.jpg";
     Complete.attached_file := Some "2024/sunset.jpg";
     Complete.post_title := "Sunset"; Complete.post_excerpt := "";
     Complete.post_date := DateTime {| year := 2024; month := 3; day := 9 |};
     Complete.categories := None; Complete.alt_text := None |}.

Definition sunset_row_enhanced : Enhanced.attachment :=
  {| Enhanced.ID := 7; Enhanced.post_title := "Sunset"; Enhanced.post_content := "";
     Enhanced.post_excerpt := ""; Enhanced.file_path := Some "2024/sunset.jpg" |}.

(** An image library that accepts every file and encodes every image, at
    any quality, to one byte more than a megabyte. *)
Definition oversize_codec : Complete.image_library :=
  {| Complete.verify := fun _ => true;
     Complete.has_optimizer_marker := fun _ => false;
     Complete.encode := fun _ _ _ _ => Ok (repeat Byte.x00 (S Complete.megabyte)) |}.

Definition one_byte_image : file_system := {[ "/up/a.jpg" := [Byte.x2a] ]}.

(** The store of one attachment, number 7. *)
Definition sunset_database : Store.database :=
  {| Store.posts :=
       {[ 7%Z := {| Store.post_guid := "http://example.org/uploads/2024/sunset.jpg";
                    Store.post_content := ""; Store.post_name := "sunset";
                    Store.post_mime_type := "image/jpeg" |} ]};
     Store.postmeta := {[ (7%Z, "_wp_attached_file") := "2024/sunset.jpg" ]};
     Store.options := ∅ |}.

(** What the planner writes for the row [sunset_row]. *)
Definition sunset_plan : Complete.planned_info :=
  {| Complete.attachment_id := 7;
     Complete.old_filename := "sunset.jpg";
     Complete.new_filename := "sunset.webp";
     Complete.old_guid := "http://example.org/uploads/2024/sunset.jpg";
     Complete.new_guid := "http://example.org/media/media-7-20240309/sunset.webp";
     Complete.permalink_path := "/media/media-7-20240309/";
     Complete.old_alt_text := None;
     Complete.new_alt_text := None;
     Complete.new_attached_file := "2024/sunset.webp";
     Complete.keywords := [];
     Complete.description := "";
     Complete.needs_rename := false;
     Complete.needs_webp := true |}.

Definition sunset_task : Complete.task_data :=
  {| Complete.task_attachment_id := 7;
     Complete.old_file_path := "/up/2024/sunset.jpg";
     Complete.optimized_file_path := "/up/2024/sunset.webp";
     Complete.task_update_info :=
       {| Complete.info := sunset_plan; Complete.stages := Complete.no_flags |} |}.

(** An environment of the class-based optimizer without faults: the codec
    and ExifTool return the bytes they are given.  Its reading of templates
    is that of [re] for a lone backslash, the only template with a backslash
    that the samples use: a bad escape. *)
Definition enhanced_env : Enhanced.environment :=
  {| Enhanced.timestamp := "20240309_120000"; Enhanced.os := FileSystem.no_faults;
     Enhanced.pil_available := true; Enhanced.encode := fun c _ _ => Ok c;
     Enhanced.exiftool := fun c => Some c;
     Enhanced.template := fun _ => Raise RegexError |}.

(** The uploads directory [/up]. *)
Definition uploads : PathLib.path :=
  {| PathLib.absolute := true; PathLib.parts := ["up"] |}.

(** The optimizer before its first attachment: the file of attachment 7 on
    disk and a session on its store. *)
Definition enhanced_state (conn : Store.connection) : Enhanced.state :=
  {| Enhanced.fs := {[ "/up/2024/sunset.jpg" := [Byte.x2a] ]};
     Enhanced.db_connection := conn;
     Enhanced.tally := Enhanced.zero_stats; Enhanced.permalink_updates := [] |}.

(** The row of [sunset_row] without a post date. *)
Definition undated_row : Complete.attachment :=
  {| Complete.ID := 7; Complete.guid := "http://example.org/uploads/2024/sunset.jpg";
     Complete.attached_file := Some "2024/sunset.jpg";
     Complete.post_title := "Sunset"; Complete.post_excerpt := "";
     Complete.post_date := NoDate;
     Complete.categories := None; Complete.alt_text := None |}.

(** A row for the file [file] of March 2024, without categories or
    alternate text. *)
Definition plain_row (id : Z) (file : string) : Complete.attachment :=
  {| Complete.ID := id; Complete.guid := "http://example.org/uploads/" ++ file;
     Complete.attached_file := Some file;
     Complete.post_title := ""; Complete.post_excerpt := "";
     Complete.post_date := DateTime {| year := 2024; month := 3; day := 9 |};
     Complete.categories := None; Complete.alt_text := None |}.

(** The same row with categories and an alternate text. *)
Definition described_row (id : Z) (file : string) (categories alt_text : option string)
    : Complete.attachment :=
  {| Complete.ID := id; Complete.guid := "http://example.org/uploads/" ++ file;
     Complete.attached_file := Some file;
     Complete.post_title := ""; Complete.post_excerpt := "";
     Complete.post_date := DateTime {| year := 2024; month := 3; day := 9 |};
     Complete.categories := categories; Complete.alt_text := alt_text |}.

(** Three assets of one directory: [a.webp], [a.jpg] and [a.png]. *)
Definition three_assets : list Complete.attachment :=
  [plain_row 1 "2024/a.webp"; plain_row 2 "2024/a.jpg"; plain_row 3 "2024/a.png"].

(** A WebP file with a clean name, one with a name to clean, and a JPEG. *)
Definition planner_files : file_system :=
  {[ "/up/2024/a.webp" := [Byte.x2a]; "/up/2024/My Sunset.webp" := [Byte.x2a];
     "/up/2024/a.jpg" := [Byte.x2a] ]}.

Definition three_files : file_system :=
  {[ "/up/2024/a.webp" := [Byte.x2a]; "/up/2024/a.jpg" := [Byte.x2a];
     "/up/2024/a.png" := [Byte.x2a] ]}.

(** An autocommit session on the store of attachment 7 that refuses
    everything from the fourth operation on: the query, the update and the
    commit of the permalink step pass, the statements of the store update are
    refused. *)
Definition persist_refused : Store.connection :=
  session sunset_database true (fun n => (3 <=? n)%nat).

(** A second task, for attachment 8. *)
Definition beach_task : Complete.task_data :=
  {| Complete.task_attachment_id := 8;
     Complete.old_file_path := "/up/2024/beach.jpg";
     Complete.optimized_file_path := "/up/2024/beach.webp";
     Complete.task_update_info := Complete.task_update_info sunset_task |}.

(** The result a worker returns for a converted and persisted item. *)
Definition done_update : Complete.update_info :=
  Complete.flagged Complete.set_database_updated (Complete.task_update_info sunset_task).

(** A worker that needs 400 seconds for every item. *)
Definition slow_worker (task : Complete.task_data) : Complete.future :=
  Complete.Returns 400 done_update.

(** A worker that never comes back from attachment 7 and needs two seconds
    for any other. *)
Definition hanging_worker (task : Complete.task_data) : Complete.future :=
  if (Complete.task_attachment_id task =? 7)%Z then Complete.NeverFinishes
  else Complete.Returns 2 done_update.

(** The configuration with chunks of one task. *)
Definition single_chunk_config : Complete.config :=
  {| Complete.unwanted_patterns := [];
     Complete.webp := Complete.webp (complete_config []);
     Complete.permalink := Complete.permalink (complete_config []);
     Complete.optimization :=
       {| Complete.max_file_size_mb := Some 10; Complete.max_threads := None;
          Complete.chunk_size := Some 1%Z; Complete.backup_originals := true;
          Complete.process_thumbnails := true |} |}.

(** A [phpserialize] that is installed and finds no dictionary in any
    stored value. *)
Definition php_without_dictionary : Complete.php_library :=
  {| Complete.phpserialize_available := true;
     Complete.rewrite_metadata := fun _ _ _ => Ok None |}.

(** A session without autocommit on the store of attachment 7 whose fourth
    operation the server refuses: the query, the update of the MIME type and
    the commit of the metadata update pass, the first write of the update of
    URLs is refused. *)
Definition fourth_operation_refused : Store.connection :=
  session sunset_database false (fun n => (n =? 3)%nat).


Definition two_byte_image : file_system := {[ "/up/a.jpg" := [Byte.x2a; Byte.x2a] ]}.

(** A copy that returns after writing a single byte. *)
Definition short_copy : FileSystem.os_faults :=
  {| FileSystem.copy_fault := FileSystem.CopyWrites [Byte.x2a];
     FileSystem.rename_raises := false; FileSystem.remove_raises := false |}.

(** An image library that accepts every file and encodes an image to its
    own bytes. *)
Definition plain_codec : Complete.image_library :=
  {| Complete.verify := fun _ => true;
     Complete.has_optimizer_marker := fun _ => false;
     Complete.encode := fun c _ _ _ => Ok c |}.

(** A worker thread without faults of the operating system and without the
    IPTC library. *)
Definition worker_env : Complete.environment :=
  {| Complete.clock := "20240309_120000"; Complete.now_iso := "2024-03-09T12:00:00";
     Complete.thread_id := 42; Complete.faults := FileSystem.no_faults;
     Complete.images := plain_codec; Complete.iptc_available := false;
     Complete.iptc_embed := fun c => Ok c |}.

(** The file of attachment 7 on disk and a session on its store. *)
Definition sunset_world : Complete.world :=
  {| Complete.fs := {[ "/up/2024/sunset.jpg" := [Byte.x2a] ]};
     Complete.conn := session sunset_database false (fun _ => false);
     Complete.tally := Complete.zero_counters |}.

End Samples.

(** ** Vocabulary of the statements *)


(** The statements of a list applied in order. *)
Definition apply_all (statements : list (Store.database -> Store.database))
    (db : Store.database) : Store.database :=
  fold_left (fun db statement => statement db) statements db.

(** What a future holds by itself, apart from any waiting. *)
Definition own_outcome (f : Complete.future) : result Complete.update_info :=
  match f with
  | Complete.Returns _ r => Ok r
  | Complete.Raises _ e => Raise e
  | Complete.NeverFinishes => Raise TimeoutError
  end.

(** Two sessions hold the same store: the same committed state and the same
    session state (the count of statements sent may differ). *)
Definition same_store (c c' : Store.connection) : Prop :=
  Store.committed c' = Store.committed c /\ Store.working c' = Store.working c.

(** The four conditions for a work item, on the row itself: the cleaned name
    differs from the name of the file without its extension; the extension of
    the file, in lower case, is one of [extensions]; the row has a non-empty
    alternate text that differs from its cleaned form; the keywords derived
    from its categories are not empty. *)
Definition work_conditions (extensions : list string) (cfg : Complete.config)
    (a : Complete.attachment) (file cleaned : string) : Prop :=
  PathLib.stem (PathLib.parse file) <> cleaned
  \/ In (Text.lower (PathLib.suffix (PathLib.parse file))) extensions
  \/ (exists old,
         Complete.alt_text a = Some old /\ old <> ""
         /\ Complete.clean_alt_text old cfg <> old)
  \/ Complete.process_categories_to_keywords (Complete.categories a) <> [].

(** The work item of a planning outcome, if it has one. *)
Definition emitted (o : Complete.plan_outcome) : option Complete.task_data :=
  match o with
  | Complete.Emit task => Some task
  | _ => None
  end.

(** A string without a slash. *)
Fixpoint slash_free (s : string) : bool :=
  match s with
  | EmptyString => true
  | String c s' => negb (Ascii.eqb c "/") && slash_free s'
  end.

(** A path as [pathlib] builds them: every part is a component, without a
    slash, not empty and not a dot. *)
Definition well_formed (p : PathLib.path) : Prop :=
  Forall (fun c => PathLib.is_component c = true /\ slash_free c = true) (PathLib.parts p).

(** What holds after the live pipeline of the class-based optimizer has
    returned [True] with the operations [ops] in the state [st]: the new file
    is on disk; the original is gone when its path differs from the new one;
    the last recorded operation is the outcome of the store update, and if
    that is a success the file reference of the store, if the row exists, is
    the new relative path. *)
Definition persisted (a : Enhanced.attachment) (t : Enhanced.targets)
    (ops : list Enhanced.operation) (st : Enhanced.state) : Prop :=
  is_Some (Enhanced.fs st !! PathLib.to_string (Enhanced.new_file_path t))
  /\ (PathLib.eqb (Enhanced.current_full_path t) (Enhanced.new_file_path t) = false ->
      Enhanced.fs st !! PathLib.to_string (Enhanced.current_full_path t) = None)
  /\ exists updated : bool,
      last ops = Some (if updated then Enhanced.DatabaseUpdated else Enhanced.DatabaseFailed)
      /\ (updated = true ->
          forall v,
            Store.postmeta (Store.committed (Enhanced.db_connection st))
              !! (Enhanced.ID a, "_wp_attached_file") = Some v ->
            v = Enhanced.new_relative_path t).

(** Every character of a string is in a class. *)
Fixpoint all_chars (p : ascii -> bool) (s : string) : bool :=
  match s with
  | EmptyString => true
  | String c s' => p c && all_chars p s'
  end.

(** The first, and the last, character of a string is in a class. *)
Definition first_char_in (p : ascii -> bool) (s : string) : bool :=
  match s with
  | EmptyString => false
  | String c _ => p c
  end.

Fixpoint last_char_in (p : ascii -> bool) (s : string) : bool :=
  match s with
  | EmptyString => false
  | String c EmptyString => p c
  | String _ s' => last_char_in p s'
  end.

(** The characters of a clean name: lower-case letters, digits, hyphen. *)
Definition name_char (c : ascii) : bool :=
  Text.is_lower c || Text.is_digit c || Text.is_hyphen c.

(** A keyword as [process_categories_to_keywords] accepts it: longer than
    two characters, lower-case word characters and hyphens, no hyphen at
    either end. *)
Definition keyword_ok (k : string) : Prop :=
  (2 < String.length k)%nat
  /\ all_chars (fun c => (Text.is_word c && negb (Text.is_upper c)) || Text.is_hyphen c) k
     = true
  /\ first_char_in Text.is_hyphen k = false
  /\ last_char_in Text.is_hyphen k = false.

(** How many elements of a list satisfy a test. *)
Fixpoint count_where {A} (p : A -> bool) (l : list A) : nat :=
  match l with
  | [] => 0
  | x :: l' => (if p x then 1 else 0) + count_where p l'
  end.

Definition returned (f : Complete.future) : bool :=
  match f with Complete.Returns _ _ => true | _ => false end.


Definition plan_failed (o : Complete.plan_outcome) : bool :=
  match o with Complete.PlanError _ => true | _ => false end.

(** The counters of processed attachments and of errors of the class-based
    optimizer. *)
Definition outcomes (st : Enhanced.state) : nat * nat :=
  (Enhanced.processed (Enhanced.tally st), Enhanced.errors (Enhanced.tally st)).

(** The image of an attachment is on disk under its old or its new path. *)
Definition image_kept (t : Enhanced.targets) (st : Enhanced.state) : Prop :=
  is_Some (Enhanced.fs st !! PathLib.to_string (Enhanced.current_full_path t))
  \/ is_Some (Enhanced.fs st !! PathLib.to_string (Enhanced.new_file_path t)).

(** What holds of an entry the filesystem scan reports: its file is an image
    by its extension, is not one of the files seen through the store, needs
    cleaning or conversion, and is marked converted in a live run only. *)
Definition scan_entry_ok (processed_db_files : gset string) (dry_run : bool)
    (u : Complete.scan_update) : Prop :=
(Complete.scan_file_path u ∉ processed_db_files)
  /\ Complete.has_extension Complete.image_extensions
       (Text.lower (Complete.scan_old_filename u)) = true
  /\ (Complete.scan_needs_cleaning u || Complete.scan_needs_webp u = true)
  /\ (Complete.scan_webp_converted u = true -> dry_run = false).

(** The number of files a walk lists. *)
Definition walked (walk : list (string * list string)) : nat :=
  length (concat (map snd walk)).

(** What the scan keeps from file to file, with a budget of files for its
    entries and for its errors; one file gives an entry and an error at once
    only when its path cannot be printed. *)
Definition scan_invariant (printable : string -> bool) (processed_db_files : gset string)
    (dry_run : bool) (fs0 : file_system) (budget : nat) (st : Complete.scan_state)
    : Prop :=
  Forall (scan_entry_ok processed_db_files dry_run) (Complete.scan_updates st)
  /\ Complete.scan_processed st
     = count_where Complete.scan_webp_converted (Complete.scan_updates st)
  /\ (length (Complete.scan_updates st) <= budget)%nat
  /\ (Complete.scan_errors st <= budget)%nat
  /\ ((forall path, printable path = true) ->
      (length (Complete.scan_updates st) + Complete.scan_errors st <= budget)%nat)
  /\ (dry_run = true -> Complete.scan_fs st = fs0).

(** Case analysis over the 256 characters. *)
Ltac by_character c :=
  destruct c as [[|] [|] [|] [|] [|] [|] [|] [|]]; vm_compute;
  solve [reflexivity | discriminate | intros; reflexivity | intros; discriminate].

(** No two neighbouring characters of the string are both in the class. *)
Fixpoint no_adjacent (p : ascii -> bool) (s : string) : bool :=
  match s with
  | String c (String c' _ as s') => negb (p c && p c') && no_adjacent p s'
  | _ => true
  end.

(** White space, if any, is the plain space. *)
Definition plain_space (c : ascii) : bool := negb (Text.is_space c) || Ascii.eqb c " ".

(** The keys of every dictionary of a value are distinct, as those of a
    Python dictionary are. *)
Fixpoint distinct_keys (v : Enhanced.json) : Prop :=
  match v with
  | Enhanced.Atom _ => True
  | Enhanced.Dict d =>
      NoDup (map fst d)
      /\ (fix all (l : list (string * Enhanced.json)) : Prop :=
            match l with
            | [] => True
            | (_, x) :: l' => distinct_keys x /\ all l'
            end) d
  end.

(** [v[k1][k2]...], if every step meets a dictionary that has the key. *)
Fixpoint get_path (path : list string) (v : Enhanced.json) : option Enhanced.json :=
  match path with
  | [] => Some v
  | key :: rest =>
      match v with
      | Enhanced.Dict d =>
          match Enhanced.dict_get key d with
          | Some x => get_path rest x
          | None => None
          end
      | Enhanced.Atom _ => None
      end
  end.


(** * Facts *)

(** ** Text *)

Module TextFacts.

Lemma or_else_not_empty (s fallback : string) :
  fallback <> "" -> Text.or_else s fallback <> "".
Proof.
  intros Hf. unfold Text.or_else. destruct s as [|c s]; simpl; [exact Hf | discriminate].
Qed.

Lemma or_else_of_empty (fallback : string) : Text.or_else "" fallback = fallback.
Proof. reflexivity. Qed.

Lemma truthy_true (s : string) : Text.truthy s = true <-> s <> "".
Proof. destruct s; simpl; split; congruence. Qed.

Lemma truthy_false (s : string) : Text.truthy s = false <-> s = "".
Proof. destruct s; simpl; split; congruence. Qed.

Lemma rstrip_of_empty (p : ascii -> bool) : Text.rstrip p "" = "".
Proof. reflexivity. Qed.


Lemma append_cons (c : ascii) (s t : string) : String c s ++ t = String c (s ++ t).
Proof. reflexivity. Qed.

Lemma length_append (s t : string) :
  String.length (s ++ t) = String.length s + String.length t.
Proof.
  induction s as [|c s IH]; [reflexivity |].
  rewrite append_cons. simpl. rewrite IH. reflexivity.
Qed.

Lemma append_not_self (s t : string) : t <> "" -> s ++ t <> s.
Proof.
  intros Ht E. apply (f_equal String.length) in E. rewrite length_append in E.
  destruct t; [congruence | simpl in E; lia].
Qed.

Lemma append_assoc (s t u : string) : (s ++ t) ++ u = s ++ (t ++ u).
Proof.
  induction s as [|c s IH]; [reflexivity |].
  rewrite !append_cons, IH. reflexivity.
Qed.

Lemma append_inv_head (s t u : string) : s ++ t = s ++ u -> t = u.
Proof.
  induction s as [|c s IH]; [auto |].
  rewrite !append_cons. intros [= E]. auto.
Qed.

End TextFacts.

(** ** File system *)

Module FileSystemFacts.

Lemma path_exists_true (fs : file_system) (path : string) :
  FileSystem.path_exists fs path = true <-> is_Some (fs !! path).
Proof. unfold FileSystem.path_exists. apply bool_decide_eq_true. Qed.

Lemma path_exists_false (fs : file_system) (path : string) :
  FileSystem.path_exists fs path = false <-> fs !! path = None.
Proof.
  unfold FileSystem.path_exists. rewrite bool_decide_eq_false.
  rewrite <- eq_None_not_Some. reflexivity.
Qed.

Lemma path_exists_insert (fs : file_system) (path : string) (c : content) :
  FileSystem.path_exists (<[path := c]> fs) path = true.
Proof. apply path_exists_true. rewrite lookup_insert_eq. eauto. Qed.

Lemma getsize_some (fs : file_system) (path : string) (c : content) :
  fs !! path = Some c -> FileSystem.getsize fs path = Ok (length c).
Proof. intros H. unfold FileSystem.getsize. rewrite H. reflexivity. Qed.

Lemma length_not_nil {A} (l : list A) : l <> [] -> exists n, length l = S n.
Proof. destruct l; [congruence | simpl; eauto]. Qed.

End FileSystemFacts.

(** ** Paths *)

Module PathFacts.

Lemma split_on_not_nil (sep : ascii) (s : string) : Text.split_on sep s <> [].
Proof.
  destruct s as [|c s]; simpl; [discriminate |].
  destruct (Ascii.eqb c sep); [discriminate |].
  destruct (Text.split_on sep s); discriminate.
Qed.

Lemma split_on_slash_free (s : string) :
  Forall (fun c => slash_free c = true) (Text.split_on "/" s).
Proof.
  induction s as [|c s IH]; simpl.
  - repeat constructor.
  - destruct (Ascii.eqb c "/") eqn:Hc.
    + constructor; [reflexivity | exact IH].
    + destruct (Text.split_on "/" s) as [|h t].
      * constructor; [simpl; rewrite Hc; reflexivity | constructor].
      * inversion IH as [|? ? Hh Ht]; subst.
        constructor; [simpl; rewrite Hc, Hh; reflexivity | exact Ht].
Qed.

Lemma split_of_slash_free (x : string) :
  slash_free x = true -> Text.split_on "/" x = [x].
Proof.
  induction x as [|c x IH]; simpl; [reflexivity |].
  intros H. apply andb_prop in H as [Hc Hx]. apply negb_true_iff in Hc.
  rewrite Hc, (IH Hx). reflexivity.
Qed.

Lemma split_of_joined (x s : string) :
  slash_free x = true ->
  Text.split_on "/" (x ++ "/" ++ s) = x :: Text.split_on "/" s.
Proof.
  induction x as [|c x IH]; intros H.
  - reflexivity.
  - simpl in H. apply andb_prop in H as [Hc Hx]. apply negb_true_iff in Hc.
    rewrite TextFacts.append_cons. simpl. rewrite Hc, (IH Hx). reflexivity.
Qed.

Lemma split_of_join (l : list string) :
  l <> [] ->
  Forall (fun c => slash_free c = true) l ->
  Text.split_on "/" (Text.join "/" l) = l.
Proof.
  induction l as [|x [|y rest] IH]; intros Hne Hl.
  - congruence.
  - simpl. apply split_of_slash_free. inversion Hl; assumption.
  - inversion Hl as [|? ? Hx Hrest]; subst.
    change (Text.join "/" (x :: y :: rest)) with (x ++ "/" ++ Text.join "/" (y :: rest)).
    rewrite (split_of_joined _ _ Hx), IH; [reflexivity | discriminate | exact Hrest].
Qed.

Lemma filter_components (l : list string) :
  Forall (fun c => PathLib.is_component c = true /\ slash_free c = true) l ->
  filter (fun c => PathLib.is_component c = true) l = l.
Proof.
  induction 1 as [|c l [Hc _] _ IH]; [reflexivity |].
  rewrite filter_cons_True by exact Hc. rewrite IH. reflexivity.
Qed.

Lemma components_slash_free (l : list string) :
  Forall (fun c => PathLib.is_component c = true /\ slash_free c = true) l ->
  Forall (fun c => slash_free c = true) l.
Proof. intros H. eapply Forall_impl; [exact H |]. intros c [_ Hc]. exact Hc. Qed.

(** The first character of a joined list of components is not a slash. *)
Lemma join_is_relative (l : list string) :
  Forall (fun c => PathLib.is_component c = true /\ slash_free c = true) l ->
  Text.starts_with_char "/" (Text.join "/" l) = false.
Proof.
  destruct 1 as [|c l [Hc Hs] Hl]; [reflexivity |].
  destruct c as [|a c]; [discriminate |].
  simpl in Hs. apply andb_prop in Hs as [Ha _]. apply negb_true_iff in Ha.
  destruct l as [|y l].
  - change (Ascii.eqb "/" a = false). rewrite Ascii.eqb_sym. exact Ha.
  - change (Text.join "/" (String a c :: y :: l))
      with (String a c ++ "/" ++ Text.join "/" (y :: l)).
    rewrite TextFacts.append_cons.
    change (Ascii.eqb "/" a = false). rewrite Ascii.eqb_sym. exact Ha.
Qed.

Lemma parse_well_formed (s : string) : well_formed (PathLib.parse s).
Proof.
  unfold well_formed, PathLib.parse. simpl.
  pose proof (split_on_slash_free s) as H.
  induction H as [|c l Hc Hl IH]; [constructor |].
  destruct (PathLib.is_component c) eqn:E.
  - rewrite filter_cons_True by exact E. constructor; [auto | exact IH].
  - rewrite filter_cons_False by (rewrite E; discriminate). exact IH.
Qed.

Lemma removelast_well_formed (l : list string) (P : string -> Prop) :
  Forall P l -> Forall P (removelast l).
Proof.
  induction 1 as [|c l Hc Hl IH]; [constructor |].
  simpl. destruct l; [constructor | constructor; assumption].
Qed.

Lemma parent_well_formed (p : PathLib.path) :
  well_formed p -> well_formed (PathLib.parent p).
Proof. apply removelast_well_formed. Qed.

Lemma div_well_formed (p : PathLib.path) (s : string) :
  well_formed p -> well_formed (PathLib.div p s).
Proof.
  intros Hp. unfold PathLib.div.
  destruct (PathLib.absolute (PathLib.parse s)); [apply parse_well_formed |].
  unfold well_formed. simpl. apply Forall_app. split; [exact Hp | apply parse_well_formed].
Qed.

(** [Path(str(p)) == p] *)
Lemma parse_to_string (p : PathLib.path) :
  well_formed p -> PathLib.parse (PathLib.to_string p) = p.
Proof.
  destruct p as [abs parts]. unfold well_formed, PathLib.to_string, PathLib.parse. simpl.
  intros Hwf. destruct abs.
  - simpl. f_equal.
    destruct parts as [|c parts].
    + reflexivity.
    + change ("" ++ Text.join "/" (c :: parts)) with (Text.join "/" (c :: parts)).
      rewrite split_of_join; [|discriminate | apply components_slash_free, Hwf].
      rewrite filter_cons_False by (simpl; discriminate).
      apply filter_components, Hwf.
  - destruct parts as [|c parts].
    + reflexivity.
    + rewrite (join_is_relative _ Hwf).
      rewrite split_of_join; [|discriminate | apply components_slash_free, Hwf].
      rewrite (filter_components _ Hwf). reflexivity.
Qed.

(** Two well-formed paths with the same text are the same path. *)
Lemma to_string_inj (p q : PathLib.path) :
  well_formed p -> well_formed q -> PathLib.to_string p = PathLib.to_string q -> p = q.
Proof.
  intros Hp Hq E. rewrite <- (parse_to_string p Hp), <- (parse_to_string q Hq), E.
  reflexivity.
Qed.

Lemma eqb_false (p q : PathLib.path) : PathLib.eqb p q = false -> p <> q.
Proof.
  unfold PathLib.eqb. intros H ->.
  rewrite !bool_decide_eq_true_2 in H by reflexivity. discriminate.
Qed.

Lemma removelast_app_parts (l1 l2 : list string) :
  l2 <> [] -> removelast (l1 ++ l2)%list = (l1 ++ removelast l2)%list.
Proof. intros H. apply removelast_app, H. Qed.

(** The stored reference, resolved against the uploads directory, is the
    path of the new file: for a stored path with a name,
    [uploads / str(Path(file).parent / name) == (uploads / file).parent / name]. *)
Lemma reference_resolves (uploads : PathLib.path) (file name : string) :
  PathLib.parts (PathLib.parse file) <> [] ->
  PathLib.div uploads
    (PathLib.to_string (PathLib.div (PathLib.parent (PathLib.parse file)) name))
  = PathLib.div (PathLib.parent (PathLib.div uploads file)) name.
Proof.
  intros Hparts.
  assert (Hwf : well_formed (PathLib.div (PathLib.parent (PathLib.parse file)) name))
    by (apply div_well_formed, parent_well_formed, parse_well_formed).
  unfold PathLib.div at 1. cbv zeta. rewrite (parse_to_string _ Hwf).
  clear Hwf. unfold PathLib.div, PathLib.parent. cbv zeta.
  destruct (PathLib.parse file) as [file_absolute file_parts].
  destruct (PathLib.parse name) as [name_absolute name_parts].
  simpl in *.
  destruct name_absolute; simpl; [reflexivity |].
  destruct file_absolute; simpl; [reflexivity |].
  f_equal. rewrite removelast_app_parts by exact Hparts. rewrite app_assoc. reflexivity.
Qed.

End PathFacts.

(** ** Cleaning functions always yield a name *)

Module CleaningFacts.

Import Complete Enhanced.









(** With file name optimisation switched on and a lone backslash configured
    as the replacement of spaces, [re.sub] raises and no name is returned,
    whatever the title. *)
Example optimize_filename_bad_template_raises :
  Enhanced.optimize_filename (Enhanced.template Samples.enhanced_env)
    Samples.backslash_config "IMG.jpg" "Sunset" = Raise RegexError.
Proof. reflexivity. Qed.



End CleaningFacts.

(** ** Inventory *)

Module InventoryFacts.

(** C9, counterexample.  On a store that cannot be reached the fetch
    returns the empty list, as for an inventory without assets, and the run
    ends with the warning about missing attachments instead of an error. *)
Lemma unreachable_store_reads_as_empty_inventory :
  fst (Complete.get_media_attachments (fun _ => [Samples.sunset_row]) Samples.unreachable) = []
  /\ fst (Complete.enter_run (fun _ => [Samples.sunset_row]) Samples.unreachable false)
     = Complete.NothingToProcess
  /\ fst (Enhanced.get_media_attachments (fun _ => [Samples.sunset_row_enhanced])
            Samples.unreachable) = [].
Proof. repeat split. Qed.

(** C9, as amended.  The inventory fetch never fails: it returns the rows of
    the query when the store accepts it and the empty sequence when the
    store raises an error, in both optimizers; after a store error the
    multi-threaded run returns with the warning of an empty inventory when
    the file system is not scanned, and the class-based run returns [False]
    without processing anything. *)
Theorem inventory_fetch_never_fails :
  forall (conn : Store.connection),
    (forall select,
        fst (Complete.get_media_attachments select conn)
        = if Store.fails conn (Store.executed conn) then []
          else select (Store.working conn))
    /\ (forall select,
           fst (Enhanced.get_media_attachments select conn)
           = if Store.fails conn (Store.executed conn) then []
             else select (Store.working conn))
    /\ (forall select,
           fst (Complete.enter_run select conn false)
           = if Store.fails conn (Store.executed conn) then Complete.NothingToProcess
             else match select (Store.working conn) with
                  | [] => Complete.NothingToProcess
                  | rows => Complete.Proceed rows
                  end)
    /\ (forall env cfg dry_run uploads select st,
           Enhanced.db_connection st = conn ->
           Store.fails conn (Store.executed conn) = true ->
           Enhanced.run_optimization env cfg dry_run uploads select st
           = (false, Enhanced.with_connection (Store.sent conn) st)).
Proof.
  intros conn. repeat split.
  - intros select. unfold Complete.get_media_attachments, Store.query.
    destruct (Store.fails conn _); reflexivity.
  - intros select. unfold Enhanced.get_media_attachments, Store.query.
    destruct (Store.fails conn _); reflexivity.
  - intros select.
    unfold Complete.enter_run, Complete.get_media_attachments, Store.query.
    destruct (Store.fails conn _); simpl; [reflexivity |].
    destruct (select _); reflexivity.
  - intros env cfg dry_run uploads select st Hc Hf.
    unfold Enhanced.run_optimization, Enhanced.get_media_attachments, Store.query.
    rewrite Hc, Hf. reflexivity.
Qed.

Lemma inventory_fetch_never_fails_witness :
  Enhanced.run_optimization
    {| Enhanced.timestamp := "20240309_120000"; Enhanced.os := FileSystem.no_faults;
       Enhanced.pil_available := true; Enhanced.encode := fun c _ _ => Ok c;
       Enhanced.exiftool := fun c => Some c;
       Enhanced.template := fun _ => Raise RegexError |}
    (Samples.enhanced_config true) false
    {| PathLib.absolute := true; PathLib.parts := ["up"] |}
    (fun _ => [Samples.sunset_row_enhanced])
    {| Enhanced.fs := ∅; Enhanced.db_connection := Samples.unreachable;
       Enhanced.tally := Enhanced.zero_stats; Enhanced.permalink_updates := [] |}
  = (false,
     Enhanced.with_connection (Store.sent Samples.unreachable)
       {| Enhanced.fs := ∅; Enhanced.db_connection := Samples.unreachable;
          Enhanced.tally := Enhanced.zero_stats; Enhanced.permalink_updates := [] |}).
Proof.
  apply (proj2 (proj2 (proj2 (inventory_fetch_never_fails Samples.unreachable))));
    reflexivity.
Defined.

End InventoryFacts.

(** ** Transcode *)

Module TranscodeFacts.

Import Complete.

(** C7, counterexample.  The codec yields more than the ceiling of one
    megabyte at every quality; the conversion saves twice, leaves the
    oversize second output on disk and reports success. *)
Lemma oversize_after_fallback_is_reported_converted :
  let r := convert_to_webp_threadsafe Samples.oversize_codec Samples.small_ceiling_config
             Samples.one_byte_image "/up/a.jpg" "/up/a.webp" in
  success (fst r) = true
  /\ message (fst r) = Converted
  /\ saves (fst r) = [85; 70]
  /\ (fun output => exceeds_mb (length output) 1) <$> snd r !! "/up/a.webp" = Some true.
Proof. vm_compute. repeat split. Qed.

(** C7, as amended.  When the output of the first encoding exceeds the
    ceiling, the conversion encodes exactly once more, at the fixed quality
    70: if that encoding returns, its output replaces the first one and the
    item is reported converted whatever the size of the second output (it is
    not measured against the ceiling); if it raises, the item is reported
    failed and the first output stays on disk. *)
Theorem oversize_output_is_reencoded_once :
  forall images cfg (fs : file_system) image_path output_path img first,
    validate_image_for_optimization images cfg fs image_path = ReadyForOptimization ->
    fs !! image_path = Some img ->
    img <> [] ->
    encode images img (default 85 (quality (webp cfg)))
      (default 6 (method (webp cfg))) (default false (lossless (webp cfg))) = Ok first ->
    exceeds_mb (length first) (default 10 (max_file_size_mb (optimization cfg))) = true ->
    match encode images img fallback_quality fallback_method false with
    | Ok second =>
        second <> [] ->
        convert_to_webp_threadsafe images cfg fs image_path output_path
        = ({| success := true; message := Converted;
              saves := [default 85 (quality (webp cfg)); fallback_quality] |},
           <[output_path := second]> (<[output_path := first]> fs))
    | Raise e =>
        convert_to_webp_threadsafe images cfg fs image_path output_path
        = ({| success := false; message := ConversionError e;
              saves := [default 85 (quality (webp cfg)); fallback_quality] |},
           <[output_path := first]> fs)
    end.
Proof.
  intros images cfg fs image_path output_path img first Hv Hfs Himg Hfirst Hbig.
  unfold convert_to_webp_threadsafe. rewrite Hv. simpl. rewrite Hfs. simpl.
  rewrite Hfirst. rewrite FileSystemFacts.path_exists_insert. rewrite Hbig.
  destruct (encode images img fallback_quality fallback_method false) as [second|e];
    [|reflexivity].
  intros Hsecond.
  destruct (decide (output_path = image_path)) as [->|Hne].
  - rewrite (FileSystemFacts.getsize_some _ _ second) by apply lookup_insert_eq.
    destruct (FileSystemFacts.length_not_nil second Hsecond) as [n ->]. reflexivity.
  - rewrite (FileSystemFacts.getsize_some _ _ img)
      by (rewrite !lookup_insert_ne by exact Hne; exact Hfs).
    destruct (FileSystemFacts.length_not_nil img Himg) as [n ->]. reflexivity.
Qed.

Lemma oversize_output_is_reencoded_once_witness :
  convert_to_webp_threadsafe Samples.oversize_codec Samples.small_ceiling_config
    Samples.one_byte_image "/up/a.jpg" "/up/a.webp"
  = ({| success := true; message := Converted; saves := [85; fallback_quality] |},
     <["/up/a.webp" := repeat Byte.x00 (S megabyte)]>
       (<["/up/a.webp" := repeat Byte.x00 (S megabyte)]> Samples.one_byte_image)).
Proof.
  refine (oversize_output_is_reencoded_once Samples.oversize_codec
            Samples.small_ceiling_config Samples.one_byte_image "/up/a.jpg" "/up/a.webp"
            [Byte.x2a] (repeat Byte.x00 (S megabyte)) _ _ _ _ _ _).
  - reflexivity.
  - reflexivity.
  - discriminate.
  - reflexivity.
  - vm_compute. reflexivity.
  - discriminate.
Defined.

(** The sequential [convert_to_webp] has the same single fallback and no
    second measurement either. *)
Lemma sequential_conversion_reencodes_once :
  forall images cfg (fs : file_system) image_path output_path img q m ceiling first second,
    fs !! image_path = Some img ->
    quality (webp cfg) = Some q ->
    method (webp cfg) = Some m ->
    max_file_size_mb (optimization cfg) = Some ceiling ->
    encode images img q m (default false (lossless (webp cfg))) = Ok first ->
    exceeds_mb (length first) ceiling = true ->
    encode images img fallback_quality fallback_method false = Ok second ->
    convert_to_webp images cfg fs image_path output_path
    = ((true, [q; fallback_quality]),
       <[output_path := second]> (<[output_path := first]> fs)).
Proof.
  intros images cfg fs image_path output_path img q m ceiling first second
    Hfs Hq Hm Hc Hfirst Hbig Hsecond.
  unfold convert_to_webp. rewrite Hfs, Hq, Hm, Hfirst, Hc, Hbig, Hsecond. reflexivity.
Qed.

End TranscodeFacts.

(** ** Backup *)

Module BackupFacts.

Import Complete.

Lemma temp_is_not_backup (env : environment) (file_path : string) :
  backup_path_of env file_path ++ ".tmp" <> backup_path_of env file_path.
Proof. apply TextFacts.append_not_self. discriminate. Qed.

Lemma backup_is_not_source (env : environment) (file_path : string) :
  backup_path_of env file_path <> file_path.
Proof. unfold backup_path_of. apply TextFacts.append_not_self. discriminate. Qed.

Lemma temp_is_not_source (env : environment) (file_path : string) :
  backup_path_of env file_path ++ ".tmp" <> file_path.
Proof.
  unfold backup_path_of. rewrite TextFacts.append_assoc.
  apply TextFacts.append_not_self. discriminate.
Qed.

(** The handler leaves no temporary file when removal works. *)
Lemma backup_cleanup_clean (env : environment) (fs : file_system) (temp : string) :
  FileSystem.remove_raises (faults env) = false ->
  fst (backup_cleanup env fs temp) = None
  /\ snd (backup_cleanup env fs temp) !! temp = None
  /\ forall other, other <> temp ->
       snd (backup_cleanup env fs temp) !! other = fs !! other.
Proof.
  intros Hr. unfold backup_cleanup, FileSystem.remove. rewrite Hr.
  destruct (FileSystem.path_exists fs temp) eqn:E.
  - apply FileSystemFacts.path_exists_true in E as [c Hc]. rewrite Hc. simpl.
    split; [reflexivity |]. split; [apply lookup_delete_eq |].
    intros other Hne. apply lookup_delete_ne. congruence.
  - apply FileSystemFacts.path_exists_false in E. simpl. auto.
Qed.

(** X22.  The thread-safe backup does what the backup stage promises: on success
    the backup has the size of the source and the temporary file is gone;
    on failure, when removal works, neither the temporary file nor a new
    backup file is left. *)
Lemma threadsafe_backup_is_verified_and_clean
    (env : environment) (fs : file_system) (file_path : string) :
  let backup_path := backup_path_of env file_path in
  match create_backup_copy_threadsafe env fs file_path with
  | (Some made, fs') =>
      made = backup_path
      /\ fs' !! (backup_path ++ ".tmp") = None
      /\ exists source backup,
          fs' !! file_path = Some source /\ fs' !! backup_path = Some backup
          /\ length backup = length source
  | (None, fs') =>
      FileSystem.remove_raises (faults env) = false ->
      fs' !! (backup_path ++ ".tmp") = None
      /\ fs' !! backup_path = fs !! backup_path
  end.
Proof.
  intros backup_path.
  pose proof (temp_is_not_backup env file_path) as Htb.
  pose proof (backup_is_not_source env file_path) as Hbs.
  pose proof (temp_is_not_source env file_path) as Hts.
  fold backup_path in Htb, Hbs, Hts.
  assert (Hclean : forall fs1 : file_system,
             fs1 !! backup_path = fs !! backup_path ->
             match backup_cleanup env fs1 (backup_path ++ ".tmp") with
             | (Some made, fs') => False
             | (None, fs') =>
                 FileSystem.remove_raises (faults env) = false ->
                 fs' !! (backup_path ++ ".tmp") = None
                 /\ fs' !! backup_path = fs !! backup_path
             end).
  { intros fs1 Hsame.
    destruct (backup_cleanup env fs1 (backup_path ++ ".tmp")) as [made fs'] eqn:E.
    destruct made as [made|].
    - unfold backup_cleanup in E.
      destruct (FileSystem.path_exists _ _); [destruct (FileSystem.remove _ _ _) |];
        discriminate.
    - intros Hr. destruct (backup_cleanup_clean env fs1 (backup_path ++ ".tmp") Hr)
        as (_ & Hnone & Hother).
      rewrite E in Hnone, Hother. simpl in *. split; [exact Hnone |].
      rewrite Hother by congruence. exact Hsame. }
  assert (Hwrap : forall fs1 : file_system,
             fs1 !! backup_path = fs !! backup_path ->
             match backup_cleanup env fs1 (backup_path ++ ".tmp") with
             | (Some made, fs') =>
                 made = backup_path
                 /\ fs' !! (backup_path ++ ".tmp") = None
                 /\ exists source backup,
                     fs' !! file_path = Some source /\ fs' !! backup_path = Some backup
                     /\ length backup = length source
             | (None, fs') =>
                 FileSystem.remove_raises (faults env) = false ->
                 fs' !! (backup_path ++ ".tmp") = None
                 /\ fs' !! backup_path = fs !! backup_path
             end).
  { intros fs1 Hsame. specialize (Hclean fs1 Hsame).
    destruct (backup_cleanup env fs1 (backup_path ++ ".tmp")) as [[made|] fs'];
      [contradiction | exact Hclean]. }
  unfold create_backup_copy_threadsafe. fold backup_path.
  unfold FileSystem.copy2.
  destruct (fs !! file_path) as [source|] eqn:Hsrc; [|apply Hwrap; reflexivity].
  assert (Hcopied : forall written : content,
    match
      match FileSystem.getsize (<[backup_path ++ ".tmp" := written]> fs) file_path,
            FileSystem.getsize (<[backup_path ++ ".tmp" := written]> fs)
              (backup_path ++ ".tmp") with
      | Ok original_size, Ok backup_size =>
          if (original_size =? backup_size)%nat then
            match FileSystem.rename (faults env) (<[backup_path ++ ".tmp" := written]> fs)
                    (backup_path ++ ".tmp") backup_path with
            | Ok fs2 => (Some backup_path, fs2)
            | Raise _ =>
                backup_cleanup env (<[backup_path ++ ".tmp" := written]> fs)
                  (backup_path ++ ".tmp")
            end
          else
            match FileSystem.remove (faults env) (<[backup_path ++ ".tmp" := written]> fs)
                    (backup_path ++ ".tmp") with
            | Ok fs2 => (None, fs2)
            | Raise _ =>
                backup_cleanup env (<[backup_path ++ ".tmp" := written]> fs)
                  (backup_path ++ ".tmp")
            end
      | _, _ =>
          backup_cleanup env (<[backup_path ++ ".tmp" := written]> fs)
            (backup_path ++ ".tmp")
      end
    with
    | (Some made, fs') =>
        made = backup_path
        /\ fs' !! (backup_path ++ ".tmp") = None
        /\ exists source backup,
            fs' !! file_path = Some source /\ fs' !! backup_path = Some backup
            /\ length backup = length source
    | (None, fs') =>
        FileSystem.remove_raises (faults env) = false ->
        fs' !! (backup_path ++ ".tmp") = None
        /\ fs' !! backup_path = fs !! backup_path
    end).
  { intros written.
    assert (Hkeep : (<[backup_path ++ ".tmp" := written]> fs) !! backup_path
                    = fs !! backup_path)
      by (apply lookup_insert_ne; congruence).
    rewrite (FileSystemFacts.getsize_some _ file_path source)
      by (rewrite lookup_insert_ne by congruence; exact Hsrc).
    rewrite (FileSystemFacts.getsize_some _ (backup_path ++ ".tmp") written)
      by apply lookup_insert_eq.
    destruct (length source =? length written)%nat eqn:Hsize.
    - unfold FileSystem.rename.
      destruct (FileSystem.rename_raises (faults env)); [apply Hwrap, Hkeep |].
      rewrite lookup_insert_eq.
      split; [reflexivity |]. split.
      + rewrite lookup_insert_ne by congruence. apply lookup_delete_eq.
      + exists source, written. split; [|split].
        * rewrite lookup_insert_ne by congruence.
          rewrite lookup_delete_ne by congruence.
          rewrite lookup_insert_ne by congruence. exact Hsrc.
        * apply lookup_insert_eq.
        * symmetry. apply Nat.eqb_eq, Hsize.
    - unfold FileSystem.remove.
      destruct (FileSystem.remove_raises (faults env)) eqn:Hr.
      + apply Hwrap, Hkeep.
      + rewrite lookup_insert_eq. intros _. split; [apply lookup_delete_eq |].
        rewrite lookup_delete_ne by congruence. exact Hkeep. }
  destruct (FileSystem.copy_fault (faults env)) as [|written|[partial|]].
  - apply Hcopied.
  - apply Hcopied.
  - apply Hwrap. apply lookup_insert_ne. congruence.
  - apply Hwrap. reflexivity.
Qed.

(** C6.  The sequential [create_backup_copy] copies straight to the final
    backup name; when the copy does not have the size of the source it
    reports failure and leaves the mismatched copy in place as a backup
    file. *)
Theorem create_backup_copy_leaves_mismatched_backup :
  forall os timestamp (fs : file_system) file_path source written,
    fs !! file_path = Some source ->
    FileSystem.copy_fault os = FileSystem.CopyWrites written ->
    length written <> length source ->
    create_backup_copy os timestamp fs file_path
    = (None, <[file_path ++ "_backup_" ++ timestamp := written]> fs).
Proof.
  intros os timestamp fs file_path source written Hsrc Hcopy Hsize.
  unfold create_backup_copy, FileSystem.copy2. rewrite Hsrc, Hcopy.
  assert (Hne : file_path ++ "_backup_" ++ timestamp <> file_path)
    by (apply TextFacts.append_not_self; discriminate).
  rewrite (FileSystemFacts.getsize_some _ file_path source)
    by (rewrite lookup_insert_ne by congruence; exact Hsrc).
  rewrite (FileSystemFacts.getsize_some _ _ written) by apply lookup_insert_eq.
  destruct (length source =? length written)%nat eqn:E; [|reflexivity].
  apply Nat.eqb_eq in E. congruence.
Qed.

Lemma create_backup_copy_leaves_mismatched_backup_witness :
  create_backup_copy Samples.short_copy "20240309_120000" Samples.two_byte_image "/up/a.jpg"
  = (None, <["/up/a.jpg_backup_20240309_120000" := [Byte.x2a]]> Samples.two_byte_image).
Proof.
  apply (create_backup_copy_leaves_mismatched_backup Samples.short_copy
           "20240309_120000" Samples.two_byte_image "/up/a.jpg"
           [Byte.x2a; Byte.x2a] [Byte.x2a]).
  - reflexivity.
  - reflexivity.
  - simpl. lia.
Defined.

End BackupFacts.

(** ** Persist *)

Module PersistFacts.

Import Complete.

Lemma apply_all_snoc statements statement db :
  apply_all (statements ++ [statement]) db = statement (apply_all statements db).
Proof. unfold apply_all. rewrite fold_left_app. reflexivity. Qed.



(** In the sequential path too a failed persist attempt changes the store:
    the metadata update has set and committed the MIME type when the first
    write of the update of URLs is refused; the asset is reported failed, its
    [guid] is the old one and its MIME type the new one. *)
Example sequential_persist_keeps_the_metadata_update :
  let r := persist_attachment Samples.php_without_dictionary
             Samples.fourth_operation_refused 7 "sunset" "sunset"
             "http://example.org/uploads/2024/sunset.jpg"
             "http://example.org/media/media-7-20240309/sunset.webp"
             "2024/sunset.webp" None "/media/media-7-20240309/" in
  fst r = {| metadata_updated := true; database_urls_updated := false |}
  /\ Store.post_mime_type <$> Store.posts (Store.committed Samples.fourth_operation_refused)
                               !! 7%Z = Some "image/jpeg"
  /\ Store.post_mime_type <$> Store.posts (Store.committed (snd r)) !! 7%Z
     = Some "image/webp"
  /\ Store.post_guid <$> Store.posts (Store.committed (snd r)) !! 7%Z
     = Some "http://example.org/uploads/2024/sunset.jpg".
Proof. vm_compute. repeat split. Qed.







End PersistFacts.


(** ** The execution coordinator *)

Module CoordinatorFacts.

Import Complete.

Lemma insert_completion_elem (x c : completion) (l : list completion) :
  c ∈ insert_completion x l -> c = x \/ c ∈ l.
Proof.
  induction l as [|y l IH]; simpl.
  - intros H. apply list_elem_of_singleton in H. auto.
  - destruct (finished_at x <=? finished_at y)%nat.
    + intros H. apply elem_of_cons in H. exact H.
    + intros H. apply elem_of_cons in H as [->|H].
      * right. apply elem_of_cons. auto.
      * destruct (IH H) as [->|H']; [auto |]. right. apply elem_of_cons. auto.
Qed.

(** [as_completed] yields finished futures only, each at its finishing time. *)
Lemma as_completed_finished (submitted : list (task_data * future)) (c : completion) :
  c ∈ as_completed submitted ->
  finish_time (finished_future c) = Some (finished_at c).
Proof.
  induction submitted as [|[task f] rest IH]; simpl.
  - intros H. apply elem_of_nil in H. contradiction.
  - destruct (finish_time f) as [t|] eqn:Ht; [|exact IH].
    intros H. apply insert_completion_elem in H as [->|H]; [exact Ht | exact (IH H)].
Qed.

(** C4.  The deadline of [future.result(timeout=300)] is never exercised:
    the loop asks for the result of futures that [as_completed] has yielded,
    which have finished, so for every collected item, however long it ran,
    the call returns what the worker returned or raised, and never
    [TimeoutError]. *)
Theorem deadline_is_never_enforced :
  forall (submitted : list (task_data * future)) (c : completion) (clock : nat),
    c ∈ as_completed submitted ->
    finished_future c <> NeverFinishes
    /\ future_result (Nat.max clock (finished_at c)) item_timeout (finished_future c)
       = own_outcome (finished_future c).
Proof.
  intros submitted c clock Hc. apply as_completed_finished in Hc.
  unfold future_result, own_outcome.
  destruct (finished_future c) as [finish r|finish e|]; simpl in Hc; [| |discriminate].
  - injection Hc as ->. split; [discriminate |].
    destruct (Nat.leb_spec (finished_at c) (Nat.max clock (finished_at c) + item_timeout));
      [reflexivity | lia].
  - injection Hc as ->. split; [discriminate |].
    destruct (Nat.leb_spec (finished_at c) (Nat.max clock (finished_at c) + item_timeout));
      [reflexivity | lia].
Qed.

Lemma deadline_is_never_enforced_witness :
  future_result (Nat.max 0 400) item_timeout (Returns 400 Samples.done_update)
  = Ok Samples.done_update.
Proof.
  apply (deadline_is_never_enforced
           [(Samples.sunset_task, Samples.slow_worker Samples.sunset_task)]
           {| finished_at := 400; finished_task := Samples.sunset_task;
              finished_future := Returns 400 Samples.done_update |} 0).
  simpl. apply list_elem_of_singleton. reflexivity.
Defined.

(** An item that runs for 400 seconds is collected as an ordinary result,
    with no error counted. *)
Example slow_item_is_recorded_as_success :
  process_tasks (Samples.complete_config []) Samples.slow_worker zero_counters
    [Samples.sunset_task]
  = Ok ({| optimization_updates := [Samples.done_update]; completed_tasks := 1;
           collector_tally := zero_counters; now := 400 |}, Finished).
Proof. reflexivity. Qed.

(** A worker that never comes back is not recorded at all: the loop over its
    chunk does not end, and the item of the next chunk is never submitted. *)
Example hung_item_blocks_its_siblings :
  process_tasks Samples.single_chunk_config Samples.hanging_worker zero_counters
    [Samples.sunset_task; Samples.beach_task]
  = Ok ({| optimization_updates := []; completed_tasks := 0;
           collector_tally := zero_counters; now := 0 |}, Blocked).
Proof. reflexivity. Qed.

(** In one chunk, the results of the finished siblings are collected and the
    loop then waits for the hung item for ever; no failed result is recorded
    for it. *)
Example hung_item_is_never_recorded :
  process_tasks (Samples.complete_config []) Samples.hanging_worker zero_counters
    [Samples.sunset_task; Samples.beach_task]
  = Ok ({| optimization_updates := [Samples.done_update]; completed_tasks := 1;
           collector_tally := zero_counters; now := 2 |}, Blocked).
Proof. reflexivity. Qed.

End CoordinatorFacts.


(** ** Dry run *)

Module DryRunFacts.

Lemma same_store_refl (c : Store.connection) : same_store c c.
Proof. split; reflexivity. Qed.

Lemma same_store_trans (c1 c2 c3 : Store.connection) :
  same_store c1 c2 -> same_store c2 c3 -> same_store c1 c3.
Proof. intros [H1 H2] [H3 H4]. split; congruence. Qed.

(** A [SELECT] leaves the store as it is. *)
Lemma query_reads_only {A} (read : Store.database -> A) (c : Store.connection) :
  same_store c (snd (Store.query read c)).
Proof. unfold Store.query. destruct (Store.fails c _); split; reflexivity. Qed.

Lemma first_free_slug_reads_only rounds :
  forall counter slug id c,
    same_store c (snd (Enhanced.first_free_slug rounds counter slug id c)).
Proof.
  induction rounds as [|rounds IH]; intros counter slug id c; simpl.
  - apply same_store_refl.
  - pose proof (query_reads_only
                  (fun db => Store.slug_taken db
                               (slug ++ "-" ++ Text.str_of_nat counter) id) c) as Hq.
    destruct (Store.query _ c) as [[[|]|e] c'] eqn:E; simpl in *.
    + eapply same_store_trans; [exact Hq | apply IH].
    + exact Hq.
    + exact Hq.
Qed.

Lemma ensure_unique_slug_reads_only (slug : string) (id : Z) (c : Store.connection) :
  same_store c (snd (Enhanced.ensure_unique_slug slug id c)).
Proof.
  unfold Enhanced.ensure_unique_slug.
  pose proof (query_reads_only (fun db => Store.slug_taken db slug id) c) as Hq.
  destruct (Store.query _ c) as [[[|]|e] c'] eqn:E; simpl in Hq.
  - pose proof (first_free_slug_reads_only 100 1 slug id c') as Hf.
    destruct (Enhanced.first_free_slug 100 1 slug id c') as [[slug'|e] c''];
      simpl in Hf |- *; eapply same_store_trans; eauto.
  - exact Hq.
  - exact Hq.
Qed.

(** In a dry run the permalink step only reads. *)
Lemma dry_permalink_reads_only (cfg : Enhanced.config) (id : Z) (title : string)
    (st : Enhanced.state) :
  let r := Enhanced.update_attachment_permalink cfg true id title st in
  fst r = true
  /\ Enhanced.fs (snd r) = Enhanced.fs st
  /\ Enhanced.tally (snd r) = Enhanced.tally st
  /\ Enhanced.permalink_updates (snd r) = Enhanced.permalink_updates st
  /\ same_store (Enhanced.db_connection st) (Enhanced.db_connection (snd r)).
Proof.
  unfold Enhanced.update_attachment_permalink.
  destruct (Enhanced.permalink_enabled _); simpl.
  - pose proof (ensure_unique_slug_reads_only
                  (Enhanced.generate_seo_slug title
                     (Enhanced.max_slug_length (Enhanced.permalink_optimization cfg)))
                  id (Enhanced.db_connection st)) as Hs.
    destruct (Enhanced.ensure_unique_slug _ id _) as [slug c']. simpl in *.
    repeat split; apply Hs.
  - repeat split.
Qed.

Lemma embed_and_persist_keeps_info env task u w :
  Complete.info (fst (Complete.embed_and_persist env task u w)) = Complete.info u.
Proof.
  unfold Complete.embed_and_persist.
  destruct (Complete.iptc_available env && Complete.has_keyword_list u).
  - destruct (Complete.write_enhanced_iptc_threadsafe _ _ _) as [[|] fs1];
      destruct (Complete.update_database_threadsafe _ _ _) as [[|] c]; reflexivity.
  - destruct (Complete.update_database_threadsafe _ _ _) as [[|] c]; reflexivity.
Qed.

(** The planned fields of the result are those of the work item, in a live
    run as in a dry run. *)
Lemma result_keeps_planned_info env cfg dry_run task w :
  Complete.info (fst (Complete.process_single_attachment env cfg dry_run task w))
  = Complete.info (Complete.task_update_info task).
Proof.
  unfold Complete.process_single_attachment.
  destruct (Complete.is_valid _); simpl; [|reflexivity].
  destruct dry_run; simpl; [reflexivity |].
  destruct (Complete.create_backup_copy_threadsafe _ _ _) as [[made|] fs1]; [|reflexivity].
  destruct (Complete.convert_to_webp_threadsafe _ _ _ _ _) as [c fs2].
  destruct (Complete.success c); [|reflexivity].
  rewrite embed_and_persist_keeps_info. reflexivity.
Qed.

(** C8.  A dry run of the pipeline of one item creates, changes and deletes
    no file and changes no row of the store, in the multi-threaded optimizer
    and in the class-based one, and still returns a result for the item.  In
    the multi-threaded optimizer the result carries the planned fields a
    live run returns, marked as a dry run.  In the class-based optimizer the
    new file name is derived before the two modes part: when it can be
    derived the dry run returns [True] with the four operations it would
    perform; when [optimize_filename] raises, the dry run, like a live run,
    returns [False] and counts one error. *)
Theorem dry_run_has_no_side_effects :
  (forall env cfg task w,
      let r := Complete.process_single_attachment env cfg true task w in
      Complete.fs (snd r) = Complete.fs w
      /\ Complete.conn (snd r) = Complete.conn w
      /\ (forall live_env live_world,
            Complete.info (fst r)
            = Complete.info
                (fst (Complete.process_single_attachment live_env cfg false task live_world)))
      /\ Complete.stages (fst r)
         = if Complete.is_valid
                (Complete.validate_image_for_optimization (Complete.images env) cfg
                   (Complete.fs w) (Complete.old_file_path task))
           then Complete.set_dry_run (Complete.stages (Complete.task_update_info task))
           else Complete.stages (Complete.task_update_info task))
  /\ (forall env cfg uploads_path a st,
         let r := Enhanced.process_attachment env cfg true uploads_path a st in
         Enhanced.fs (snd r) = Enhanced.fs st
         /\ same_store (Enhanced.db_connection st) (Enhanced.db_connection (snd r))
         /\ Enhanced.permalink_updates (snd r) = Enhanced.permalink_updates st
         /\ (forall file,
               Enhanced.file_path a = Some file ->
               file <> "" ->
               is_Some (Enhanced.fs st
                          !! PathLib.to_string (PathLib.div uploads_path file)) ->
               match Enhanced.targets_of (Enhanced.template env) cfg uploads_path a file with
               | Ok _ =>
                   fst r = {| Enhanced.returned := true;
                              Enhanced.operations :=
                                [Enhanced.WouldConvertToWebP; Enhanced.WouldAddMetadata;
                                 Enhanced.PermalinkUpdated;
                                 Enhanced.WouldUpdateDatabase] |}
                   /\ Enhanced.errors (Enhanced.tally (snd r))
                      = Enhanced.errors (Enhanced.tally st)
               | Raise _ =>
                   fst r = {| Enhanced.returned := false; Enhanced.operations := [] |}
                   /\ Enhanced.errors (Enhanced.tally (snd r))
                      = S (Enhanced.errors (Enhanced.tally st))
                   /\ fst (Enhanced.process_attachment env cfg false uploads_path a st)
                      = fst r
               end)).
Proof.
  split.
  - intros env cfg task w r. subst r.
    split; [|split; [|split]].
    + unfold Complete.process_single_attachment.
      destruct (Complete.is_valid _); reflexivity.
    + unfold Complete.process_single_attachment.
      destruct (Complete.is_valid _); reflexivity.
    + intros live_env live_world. rewrite !result_keeps_planned_info. reflexivity.
    + unfold Complete.process_single_attachment.
      destruct (Complete.is_valid _); reflexivity.
  - intros env cfg uploads_path a st r. subst r.
    unfold Enhanced.process_attachment.
    destruct (Enhanced.file_path a) as [file|] eqn:Hfile.
    2:{ simpl. repeat split; try apply same_store_refl. intros file [=]. }
    destruct (Text.truthy file) eqn:Htruthy; simpl.
    2:{ repeat split; try apply same_store_refl.
        intros file' [= <-] Hne. apply TextFacts.truthy_false in Htruthy. contradiction. }
    destruct (FileSystem.path_exists _ _) eqn:Hexists; simpl.
    2:{ repeat split; try apply same_store_refl.
        intros file' [= <-] _ Hsome.
        apply FileSystemFacts.path_exists_true in Hsome. congruence. }
    unfold Enhanced.process_existing.
    destruct (Enhanced.targets_of (Enhanced.template env) cfg uploads_path a file)
      as [t|e] eqn:Ht.
    + unfold Enhanced.process_dry.
      pose proof (dry_permalink_reads_only cfg (Enhanced.ID a) (Enhanced.title_of a) st)
        as (Hok & Hfs & Htally & Hupd & Hstore).
      destruct (Enhanced.update_attachment_permalink cfg true _ _ st) as [ok st1].
      simpl in *. subst ok. simpl.
      repeat split; try assumption; try apply Hstore.
      intros file' [= <-] _ _. rewrite Ht, Htally. split; reflexivity.
    + simpl. repeat split; try apply same_store_refl.
      intros file' [= <-] _ _. rewrite Ht. repeat split.
Qed.

Lemma dry_run_has_no_side_effects_witness :
  fst (Enhanced.process_attachment Samples.enhanced_env (Samples.enhanced_config true) true
         Samples.uploads Samples.sunset_row_enhanced
         (Samples.enhanced_state
            (Samples.session Samples.sunset_database true (fun _ => false))))
  = {| Enhanced.returned := true;
       Enhanced.operations :=
         [Enhanced.WouldConvertToWebP; Enhanced.WouldAddMetadata;
          Enhanced.PermalinkUpdated; Enhanced.WouldUpdateDatabase] |}.
Proof.
  apply (proj2 (proj2 (proj2 (proj2 dry_run_has_no_side_effects
           Samples.enhanced_env (Samples.enhanced_config true) Samples.uploads
           Samples.sunset_row_enhanced
           (Samples.enhanced_state
              (Samples.session Samples.sunset_database true (fun _ => false))))))
         "2024/sunset.jpg" eq_refl ltac:(discriminate) ltac:(vm_compute; eauto)).
Defined.

(** A dry run with a replacement of spaces that [re] rejects: no name is
    derived, the call returns [False] and one error is counted, as in a live
    run; no file and no row has changed. *)
Example dry_run_with_a_bad_template_counts_an_error :
  let st := Samples.enhanced_state
              (Samples.session Samples.sunset_database true (fun _ => false)) in
  let r := Enhanced.process_attachment Samples.enhanced_env Samples.backslash_config true
             Samples.uploads Samples.sunset_row_enhanced st in
  Enhanced.returned (fst r) = false
  /\ Enhanced.errors (Enhanced.tally (snd r)) = 1
  /\ Enhanced.fs (snd r) = Enhanced.fs st
  /\ Enhanced.db_connection (snd r) = Enhanced.db_connection st.
Proof. vm_compute. repeat split. Qed.

End DryRunFacts.


(** ** The planner *)

Module PlannerFacts.

Import Complete.

Lemma mem_true_iff (x : string) (l : list string) : Text.mem x l = true <-> In x l.
Proof.
  unfold Text.mem. rewrite existsb_exists. split.
  - intros (y & Hin & Heq). apply String.eqb_eq in Heq. subst y. exact Hin.
  - intros Hin. exists x. split; [exact Hin | apply String.eqb_refl].
Qed.

Lemma alt_needs_update_iff (cfg : config) (alt : option string) :
  alt_needs_update alt
    match alt with
    | Some old => if Text.truthy old then Some (clean_alt_text old cfg) else None
    | None => None
    end = true
  <-> exists old, alt = Some old /\ old <> "" /\ clean_alt_text old cfg <> old.
Proof.
  unfold alt_needs_update. destruct alt as [old|]; simpl.
  - destruct (Text.truthy old) eqn:Ht; simpl.
    + apply TextFacts.truthy_true in Ht. rewrite negb_true_iff, bool_decide_eq_false.
      split.
      * intros Hne. exists old. split; [reflexivity |]. split; [exact Ht |].
        intros E. apply Hne. rewrite E. reflexivity.
      * intros (old' & [= <-] & _ & Hne) [= E]. apply Hne. symmetry. exact E.
    + apply TextFacts.truthy_false in Ht. split; [discriminate |].
      intros (old' & [= <-] & Hne & _). contradiction.
  - split; [discriminate |]. intros (old & Hold & _). discriminate.
Qed.

(** The derivation of a row whose name can be cleaned and whose permalink
    can be generated. *)
Lemma derive_ok lib cfg a file cleaned permalink_path :
  clean_filename (PathLib.stem (PathLib.parse file)) cfg = Ok cleaned ->
  generate_semantic_permalink lib (process_categories_to_keywords (categories a))
    (ID a) (post_date a) cfg = Ok permalink_path ->
  derive lib cfg a file
  = Ok {| d_old_filename := PathLib.stem (PathLib.parse file);
          d_extension := Text.lower (PathLib.suffix (PathLib.parse file));
          d_directory := PathLib.to_string (PathLib.parent (PathLib.parse file));
          d_new_filename := cleaned;
          d_new_alt_text :=
            match alt_text a with
            | Some old => if Text.truthy old then Some (clean_alt_text old cfg) else None
            | None => None
            end;
          d_keywords := process_categories_to_keywords (categories a);
          d_permalink_path := permalink_path |}.
Proof. intros Hc Hp. unfold derive. rewrite Hc. simpl. rewrite Hp. reflexivity. Qed.

(** The gate computed by the loop body is the disjunction of the four
    conditions on the row. *)
Lemma any_need_iff extensions lib cfg a file cleaned d :
  clean_filename (PathLib.stem (PathLib.parse file)) cfg = Ok cleaned ->
  derive lib cfg a file = Ok d ->
  any_need (needs_of extensions a d) = true
  <-> work_conditions extensions cfg a file cleaned.
Proof.
  intros Hc. unfold derive. rewrite Hc. simpl.
  destruct (generate_semantic_permalink _ _ _ _ _) as [permalink_path|e];
    [|discriminate].
  intros [= <-]. unfold any_need, needs_of, work_conditions. simpl.
  rewrite !orb_true_iff, negb_true_iff, String.eqb_neq, mem_true_iff,
    alt_needs_update_iff.
  assert (Hk : match process_categories_to_keywords (categories a) with
               | [] => false
               | _ :: _ => true
               end = true
               <-> process_categories_to_keywords (categories a) <> []).
  { destruct (process_categories_to_keywords (categories a)); split;
      congruence. }
  rewrite Hk. tauto.
Qed.

(** The outcome of planning a row whose file exists, by cases on the
    derivation. *)
Lemma plan_attachment_of_existing lib cfg uploads_path (fs : file_system) a file :
  attached_file a = Some file ->
  file <> "" ->
  is_Some (fs !! PathLib.os_path_join uploads_path file) ->
  plan_attachment lib cfg uploads_path fs a
  = match derive lib cfg a file with
    | Raise e => PlanError e
    | Ok d =>
        let n := needs_of webp_extensions_threaded a d in
        if negb (any_need n) then Skip NothingToDo
        else match build_task lib uploads_path a file d n with
             | Raise e => PlanError e
             | Ok task => Emit task
             end
    end.
Proof.
  intros Hfile Hne Hsome. unfold plan_attachment. rewrite Hfile.
  apply TextFacts.truthy_true in Hne. rewrite Hne. simpl.
  apply FileSystemFacts.path_exists_true in Hsome. rewrite Hsome. reflexivity.
Qed.

Lemma build_task_ok lib uploads_path a file d n :
  is_ok (url_base lib (guid a)) = true ->
  exists task, build_task lib uploads_path a file d n = Ok task.
Proof.
  unfold build_task. destruct (url_base lib (guid a)) as [base|e]; [|discriminate].
  simpl. eauto.
Qed.

(** C5, counterexample.  The file of the row exists and is a JPEG, which the
    planner converts; the row has no post date, the permalink cannot be
    generated, and the row is dropped as a planning error: no work item. *)
Lemma undated_row_needs_work_but_is_dropped :
  FileSystem.path_exists {[ "/up/2024/sunset.jpg" := [Byte.x2a] ]} "/up/2024/sunset.jpg" = true
  /\ Text.mem (Text.lower (PathLib.suffix (PathLib.parse "2024/sunset.jpg")))
       webp_extensions_threaded = true
  /\ plan_attachment Samples.site_library (Samples.complete_config []) "/up"
       {[ "/up/2024/sunset.jpg" := [Byte.x2a] ]} Samples.undated_row
     = PlanError AttributeError
  /\ attachment_tasks
       (plan_all Samples.site_library (Samples.complete_config []) "/up"
          {[ "/up/2024/sunset.jpg" := [Byte.x2a] ]} [Samples.undated_row]) = [].
Proof. vm_compute. repeat split. Qed.

(** C5, as amended.  For every inventory record whose source file exists
    and whose name can be cleaned, the four conditions are: the cleaned name
    differs from the name of the file, the extension is one of the six the
    planner converts, a non-empty alternate text differs from its cleaned
    form, the keyword list is not empty.  A work item is emitted only if one
    of them holds; when the permalink of the record can be generated, none of
    them yields a skip, and one of them yields a work item provided the URL
    of the record parses.  A record for which cleaning the name, generating
    the permalink (a missing or malformed post date) or parsing the URL
    raises is dropped as a planning error, whatever it needs.  The gate of
    the sequential optimizer is the same disjunction with four extensions. *)
Theorem work_item_iff_needed_and_planning_succeeds :
  forall lib cfg uploads_path (fs : file_system) a file,
    attached_file a = Some file ->
    file <> "" ->
    is_Some (fs !! PathLib.os_path_join uploads_path file) ->
    let old_filename := PathLib.stem (PathLib.parse file) in
    let keywords := process_categories_to_keywords (categories a) in
    let needed :=
      work_conditions [".jpg"; ".jpeg"; ".png"; ".gif"; ".bmp"; ".tiff"] cfg a file in
    (forall task,
        plan_attachment lib cfg uploads_path fs a = Emit task ->
        exists cleaned, clean_filename old_filename cfg = Ok cleaned /\ needed cleaned)
    /\ (forall cleaned permalink_path,
           clean_filename old_filename cfg = Ok cleaned ->
           generate_semantic_permalink lib keywords (ID a) (post_date a) cfg
           = Ok permalink_path ->
           (~ needed cleaned ->
            plan_attachment lib cfg uploads_path fs a = Skip NothingToDo)
           /\ (needed cleaned ->
               match url_base lib (guid a) with
               | Ok _ => exists task, plan_attachment lib cfg uploads_path fs a = Emit task
               | Raise e => plan_attachment lib cfg uploads_path fs a = PlanError e
               end)
           /\ exists d,
               derive lib cfg a file = Ok d
               /\ (sequential_gate a d = true
                   <-> work_conditions [".jpg"; ".jpeg"; ".png"; ".gif"] cfg a file
                         cleaned))
    /\ (forall e,
           clean_filename old_filename cfg = Raise e ->
           plan_attachment lib cfg uploads_path fs a = PlanError e)
    /\ (forall cleaned e,
           clean_filename old_filename cfg = Ok cleaned ->
           generate_semantic_permalink lib keywords (ID a) (post_date a) cfg = Raise e ->
           plan_attachment lib cfg uploads_path fs a = PlanError e).
Proof.
  intros lib cfg uploads_path fs a file Hfile Hne Hsome old_filename keywords needed.
  rewrite (plan_attachment_of_existing lib cfg uploads_path fs a file Hfile Hne Hsome).
  subst old_filename keywords needed. split; [|split; [|split]].
  - intros task. destruct (derive lib cfg a file) as [d|e] eqn:Hd; [|discriminate].
    cbv zeta. destruct (any_need _) eqn:Hn; cbn [negb]; [|discriminate].
    intros _.
    destruct (clean_filename (PathLib.stem (PathLib.parse file)) cfg)
      as [cleaned|e] eqn:Hc.
    + exists cleaned. split; [reflexivity |].
      apply (any_need_iff _ lib cfg a file cleaned d Hc Hd), Hn.
    + unfold derive in Hd. rewrite Hc in Hd. discriminate.
  - intros cleaned permalink_path Hc Hp.
    pose proof (derive_ok lib cfg a file cleaned permalink_path Hc Hp) as Hd.
    rewrite Hd. cbv zeta.
    pose proof (any_need_iff webp_extensions_threaded lib cfg a file cleaned _ Hc Hd)
      as Hgate.
    split; [|split].
    + intros Hno. destruct (any_need _) eqn:Hn; [|reflexivity].
      exfalso. apply Hno, Hgate. reflexivity.
    + intros Hyes. apply Hgate in Hyes. rewrite Hyes. cbn [negb].
      unfold build_task. destruct (url_base lib (guid a)) as [base|e]; simpl; eauto.
    + eexists. split; [reflexivity |]. unfold sequential_gate.
      exact (any_need_iff webp_extensions_sequential lib cfg a file cleaned _ Hc Hd).
  - intros e Hc. unfold derive. rewrite Hc. reflexivity.
  - intros cleaned e Hc Hp. unfold derive. rewrite Hc. simpl. rewrite Hp. reflexivity.
Qed.

(** Each of the four conditions alone yields a work item, and a row that
    meets none of them is skipped. *)
Lemma work_item_iff_needed_and_planning_succeeds_witness :
  (exists task,
      plan_attachment Samples.site_library (Samples.complete_config []) "/up"
        Samples.planner_files (Samples.plain_row 1 "2024/My Sunset.webp") = Emit task)
  /\ (exists task,
         plan_attachment Samples.site_library (Samples.complete_config []) "/up"
           Samples.planner_files (Samples.plain_row 2 "2024/a.jpg") = Emit task)
  /\ (exists task,
         plan_attachment Samples.site_library (Samples.complete_config []) "/up"
           Samples.planner_files
           (Samples.described_row 3 "2024/a.webp" None (Some " a sunset ")) = Emit task)
  /\ (exists task,
         plan_attachment Samples.site_library (Samples.complete_config []) "/up"
           Samples.planner_files
           (Samples.described_row 4 "2024/a.webp" (Some "Nature") None) = Emit task)
  /\ plan_attachment Samples.site_library (Samples.complete_config []) "/up"
       Samples.planner_files
       (Samples.described_row 5 "2024/a.webp" (Some "") (Some "a sunset"))
     = Skip NothingToDo.
Proof.
  assert (Hthere : forall file,
             file = "2024/My Sunset.webp" \/ file = "2024/a.jpg" \/ file = "2024/a.webp" ->
             is_Some (Samples.planner_files !! PathLib.os_path_join "/up" file)).
  { intros file [-> | [-> | ->]]; vm_compute; eauto. }
  split; [|split; [|split; [|split]]].
  - destruct (work_item_iff_needed_and_planning_succeeds Samples.site_library
                (Samples.complete_config []) "/up" Samples.planner_files
                (Samples.plain_row 1 "2024/My Sunset.webp") "2024/My Sunset.webp"
                eq_refl ltac:(discriminate) (Hthere _ (or_introl eq_refl)))
      as (_ & H & _).
    destruct (H "my-sunset" "/media/media-1-20240309/" eq_refl eq_refl)
      as (_ & Hemit & _).
    apply Hemit. left. discriminate.
  - destruct (work_item_iff_needed_and_planning_succeeds Samples.site_library
                (Samples.complete_config []) "/up" Samples.planner_files
                (Samples.plain_row 2 "2024/a.jpg") "2024/a.jpg"
                eq_refl ltac:(discriminate) (Hthere _ (or_intror (or_introl eq_refl))))
      as (_ & H & _).
    destruct (H "a" "/media/media-2-20240309/" eq_refl eq_refl) as (_ & Hemit & _).
    apply Hemit. right. left. simpl. auto.
  - destruct (work_item_iff_needed_and_planning_succeeds Samples.site_library
                (Samples.complete_config []) "/up" Samples.planner_files
                (Samples.described_row 3 "2024/a.webp" None (Some " a sunset "))
                "2024/a.webp"
                eq_refl ltac:(discriminate) (Hthere _ (or_intror (or_intror eq_refl))))
      as (_ & H & _).
    destruct (H "a" "/media/media-3-20240309/" eq_refl eq_refl) as (_ & Hemit & _).
    apply Hemit. right. right. left. exists " a sunset ".
    split; [reflexivity |]. split; discriminate.
  - destruct (work_item_iff_needed_and_planning_succeeds Samples.site_library
                (Samples.complete_config []) "/up" Samples.planner_files
                (Samples.described_row 4 "2024/a.webp" (Some "Nature") None)
                "2024/a.webp"
                eq_refl ltac:(discriminate) (Hthere _ (or_intror (or_intror eq_refl))))
      as (_ & H & _).
    destruct (H "a" "/media/nature-4-20240309/" eq_refl eq_refl) as (_ & Hemit & _).
    apply Hemit. right. right. right. discriminate.
  - destruct (work_item_iff_needed_and_planning_succeeds Samples.site_library
                (Samples.complete_config []) "/up" Samples.planner_files
                (Samples.described_row 5 "2024/a.webp" (Some "") (Some "a sunset"))
                "2024/a.webp"
                eq_refl ltac:(discriminate) (Hthere _ (or_intror (or_intror eq_refl))))
      as (_ & H & _).
    destruct (H "a" "/media/media-5-20240309/" eq_refl eq_refl) as (Hskip & _).
    apply Hskip. intros [Hrename | [Hconvert | [(old & [= <-] & _ & Halt) | Hkeys]]].
    + apply Hrename. reflexivity.
    + simpl in Hconvert. repeat destruct Hconvert as [Hconvert | Hconvert];
        try discriminate Hconvert; exact Hconvert.
    + apply Halt. reflexivity.
    + apply Hkeys. reflexivity.
Defined.

End PlannerFacts.


(** ** Destination paths *)

Module DestinationFacts.

Import Complete.

Lemma plan_from_tasks lib cfg uploads_path (fs : file_system) attachments :
  forall st,
    attachment_tasks (fold_left (plan_step lib cfg uploads_path fs) attachments st)
    = (attachment_tasks st
       ++ omap (fun a => emitted (plan_attachment lib cfg uploads_path fs a)) attachments)%list.
Proof.
  induction attachments as [|a rest IH]; intros st; simpl.
  - rewrite app_nil_r. reflexivity.
  - rewrite IH. unfold plan_step.
    destruct (plan_attachment lib cfg uploads_path fs a) as [why|e|task]; simpl;
      [reflexivity | reflexivity |].
    rewrite <- app_assoc. reflexivity.
Qed.

(** The planner decides every row on its own: the tasks of a pass are the
    work items of the rows, in order. *)
Lemma plan_all_tasks lib cfg uploads_path (fs : file_system) attachments :
  attachment_tasks (plan_all lib cfg uploads_path fs attachments)
  = omap (fun a => emitted (plan_attachment lib cfg uploads_path fs a)) attachments.
Proof. unfold plan_all. rewrite plan_from_tasks. reflexivity. Qed.

(** Where the destination of a work item comes from. *)
Lemma emitted_destination lib cfg uploads_path (fs : file_system) a task :
  plan_attachment lib cfg uploads_path fs a = Emit task ->
  exists file d,
    attached_file a = Some file
    /\ derive lib cfg a file = Ok d
    /\ new_attached_file (info (task_update_info task)) = optimized_relative_path_of d
    /\ optimized_file_path task
       = PathLib.os_path_join uploads_path (optimized_relative_path_of d).
Proof.
  unfold plan_attachment.
  destruct (attached_file a) as [file|]; [|discriminate].
  destruct (negb (Text.truthy file)); [discriminate |].
  destruct (negb (FileSystem.path_exists _ _)); [discriminate |].
  destruct (derive lib cfg a file) as [d|e] eqn:Hd; [|discriminate].
  destruct (negb (any_need _)); [discriminate |].
  unfold build_task. destruct (url_base lib (guid a)) as [base|e]; simpl; [|discriminate].
  intros [= <-]. exists file, d. simpl. auto.
Qed.

(** [os.path.join] onto one directory keeps relative paths apart. *)
Lemma os_path_join_relative_inj (uploads_path r1 r2 : string) :
  Text.starts_with_char "/" r1 = false ->
  Text.starts_with_char "/" r2 = false ->
  PathLib.os_path_join uploads_path r1 = PathLib.os_path_join uploads_path r2 ->
  r1 = r2.
Proof.
  intros H1 H2. unfold PathLib.os_path_join. rewrite H1, H2.
  destruct (negb (Text.truthy uploads_path) || Text.ends_with_char "/" uploads_path).
  - apply TextFacts.append_inv_head.
  - intros E. apply TextFacts.append_inv_head in E.
    apply (TextFacts.append_inv_head "/") in E. exact E.
Qed.

(** C2, counterexample.  One directory holds [a.webp], [a.jpg] and [a.png],
    each an asset of the inventory.  The pass emits a work item for the JPEG
    and one for the PNG, both with the destination [/up/2024/a.webp], which
    is also the current path of the first asset. *)
Lemma two_work_items_share_a_destination :
  map (fun task => (task_attachment_id task, optimized_file_path task))
    (attachment_tasks
       (plan_all Samples.site_library (Samples.complete_config []) "/up"
          Samples.three_files Samples.three_assets))
  = [(2%Z, "/up/2024/a.webp"); (3%Z, "/up/2024/a.webp")]
  /\ db_file_of "/up" (Samples.plain_row 1 "2024/a.webp") = Some "/up/2024/a.webp"
  /\ FileSystem.path_exists Samples.three_files "/up/2024/a.webp" = true.
Proof. vm_compute. repeat split. Qed.

(** C2, as amended.  The planner derives the destination of every work item
    from its own record alone, as the uploads directory joined with the
    record's directory and cleaned file name with the extension [.webp]; it
    compares it neither with the destinations of other work items nor with
    the current paths of other assets.  Two work items of a pass therefore
    have the same destination whenever their records have the same directory
    and the same cleaned file name; when their stored relative paths are
    relative, they have the same destination exactly when these relative
    paths are equal. *)
Theorem destination_is_derived_per_record :
  forall lib cfg uploads_path (fs : file_system),
    (forall attachments,
        attachment_tasks (plan_all lib cfg uploads_path fs attachments)
        = omap (fun a => emitted (plan_attachment lib cfg uploads_path fs a)) attachments)
    /\ (forall a task,
           plan_attachment lib cfg uploads_path fs a = Emit task ->
           exists file d,
             attached_file a = Some file
             /\ derive lib cfg a file = Ok d
             /\ optimized_file_path task
                = PathLib.os_path_join uploads_path
                    (PathLib.to_string
                       (PathLib.div (PathLib.parse (d_directory d))
                          (d_new_filename d ++ ".webp"))))
    /\ (forall a b ta tb file_a file_b da db,
           plan_attachment lib cfg uploads_path fs a = Emit ta ->
           plan_attachment lib cfg uploads_path fs b = Emit tb ->
           attached_file a = Some file_a ->
           attached_file b = Some file_b ->
           derive lib cfg a file_a = Ok da ->
           derive lib cfg b file_b = Ok db ->
           d_directory da = d_directory db ->
           d_new_filename da = d_new_filename db ->
           optimized_file_path ta = optimized_file_path tb)
    /\ (forall a b ta tb,
           plan_attachment lib cfg uploads_path fs a = Emit ta ->
           plan_attachment lib cfg uploads_path fs b = Emit tb ->
           Text.starts_with_char "/" (new_attached_file (info (task_update_info ta))) = false ->
           Text.starts_with_char "/" (new_attached_file (info (task_update_info tb))) = false ->
           (optimized_file_path ta = optimized_file_path tb
            <-> new_attached_file (info (task_update_info ta))
                = new_attached_file (info (task_update_info tb)))).
Proof.
  intros lib cfg uploads_path fs. split; [|split; [|split]].
  - apply plan_all_tasks.
  - intros a task Ha.
    destruct (emitted_destination _ _ _ _ _ _ Ha) as (file & d & Hf & Hd & _ & Hp).
    exists file, d. auto.
  - intros a b ta tb file_a file_b da db Ha Hb Hfa Hfb Hda Hdb Hdir Hname.
    destruct (emitted_destination _ _ _ _ _ _ Ha) as (fa & da' & Hfa' & Hda' & _ & Hpa).
    destruct (emitted_destination _ _ _ _ _ _ Hb) as (fb & db' & Hfb' & Hdb' & _ & Hpb).
    rewrite Hfa in Hfa'. injection Hfa' as <-.
    rewrite Hfb in Hfb'. injection Hfb' as <-.
    rewrite Hda in Hda'. injection Hda' as <-.
    rewrite Hdb in Hdb'. injection Hdb' as <-.
    rewrite Hpa, Hpb. unfold optimized_relative_path_of, optimized_filename_of.
    rewrite Hdir, Hname. reflexivity.
  - intros a b ta tb Ha Hb Hra Hrb.
    destruct (emitted_destination _ _ _ _ _ _ Ha) as (fa & da & _ & _ & Hna & Hpa).
    destruct (emitted_destination _ _ _ _ _ _ Hb) as (fb & db & _ & _ & Hnb & Hpb).
    rewrite Hpa, Hpb, Hna, Hnb in *. split.
    + apply os_path_join_relative_inj; assumption.
    + intros ->. reflexivity.
Qed.

Lemma destination_is_derived_per_record_witness :
  exists ta tb,
    plan_attachment Samples.site_library (Samples.complete_config []) "/up"
      Samples.three_files (Samples.plain_row 2 "2024/a.jpg") = Emit ta
    /\ plan_attachment Samples.site_library (Samples.complete_config []) "/up"
         Samples.three_files (Samples.plain_row 3 "2024/a.png") = Emit tb
    /\ optimized_file_path ta = optimized_file_path tb.
Proof.
  eexists. eexists.
  split; [vm_compute; reflexivity |].
  split; [vm_compute; reflexivity |].
  eapply (proj1 (proj2 (proj2 (destination_is_derived_per_record Samples.site_library
            (Samples.complete_config []) "/up" Samples.three_files)))
            (Samples.plain_row 2 "2024/a.jpg") (Samples.plain_row 3 "2024/a.png")
            _ _ "2024/a.jpg" "2024/a.png");
    reflexivity.
Defined.

End DestinationFacts.


(** ** Consistency of disk and store *)

Module ConsistencyFacts.

Import Enhanced.

Lemma update_database_record_true conn id new_name new_path conn' :
  update_database_record conn id new_name new_path = (true, conn') ->
  Store.committed conn'
  = Store.update_guid_filename id new_name
      (Store.update_meta id "_wp_attached_file" new_path (Store.working conn)).
Proof.
  unfold update_database_record, Store.execute, Store.commit.
  destruct (Store.fails conn (Store.executed conn)); [discriminate |]. simpl.
  destruct (Store.fails conn (S (Store.executed conn))); [discriminate |]. simpl.
  destruct (Store.fails conn (S (S (Store.executed conn)))); [discriminate |].
  intros [= <-]. reflexivity.
Qed.

(** The paths of a row whose new name could be derived. *)
Lemma targets_of_ok compile_template cfg uploads_path a file t :
  targets_of compile_template cfg uploads_path a file = Ok t ->
  current_full_path t = PathLib.div uploads_path file
  /\ new_file_path t
     = PathLib.div (PathLib.parent (PathLib.div uploads_path file)) (new_filename t)
  /\ new_relative_path t
     = PathLib.to_string
         (PathLib.div (PathLib.parent (PathLib.parse file)) (new_filename t)).
Proof.
  unfold targets_of.
  destruct (optimize_filename _ _ _ _) as [optimized_name|e]; simpl; [|discriminate].
  intros [= <-]. simpl. auto.
Qed.

Lemma convert_to_webp_true env cfg (fs fs' : file_system) source target o n :
  convert_to_webp env cfg fs source target = ((true, o, n), fs') ->
  is_Some (fs' !! target).
Proof.
  unfold convert_to_webp.
  destruct (pil_available env); simpl; [|discriminate].
  destruct (fs !! source) as [image|]; [|discriminate].
  destruct (encode env image _ _) as [webp|e]; [|discriminate].
  intros [= _ _ <-]. rewrite lookup_insert_eq. eauto.
Qed.

Lemma add_metadata_keeps_files env cfg dry_run st file path :
  is_Some (fs st !! path) ->
  is_Some (fs (snd (add_metadata_with_exiftool env cfg dry_run st file)) !! path).
Proof.
  intros H. unfold add_metadata_with_exiftool.
  destruct (metadata_enabled _); simpl; [|exact H].
  destruct dry_run; simpl; [exact H |].
  destruct (fs st !! file) as [c|] eqn:Hc; [|exact H].
  destruct (exiftool env c) as [c'|]; simpl; [|exact H].
  destruct (decide (file = path)) as [->|Hne].
  - rewrite lookup_insert_eq. eauto.
  - rewrite lookup_insert_ne by exact Hne. exact H.
Qed.

Lemma permalink_keeps_files cfg dry_run id title st :
  fs (snd (update_attachment_permalink cfg dry_run id title st)) = fs st.
Proof.
  unfold update_attachment_permalink.
  destruct (permalink_enabled _); simpl; [|reflexivity].
  destruct (ensure_unique_slug _ id _) as [slug c1].
  destruct dry_run; simpl; [reflexivity |].
  destruct (Store.execute _ c1) as [[u|e] c2]; [|reflexivity].
  destruct (Store.commit c2) as [[u'|e] c3]; reflexivity.
Qed.

Lemma persist_and_unlink_persisted env a t ops st ops' st' :
  well_formed (current_full_path t) ->
  well_formed (new_file_path t) ->
  is_Some (fs st !! PathLib.to_string (new_file_path t)) ->
  persist_and_unlink env a t ops st = (Ok (true, ops'), st') ->
  persisted a t ops' st'.
Proof.
  intros Hwc Hwn Hnew. unfold persist_and_unlink.
  destruct (update_database_record _ _ _ _) as [updated conn'] eqn:Hup.
  assert (Hmeta : updated = true ->
            forall v, Store.postmeta (Store.committed conn')
                        !! (ID a, "_wp_attached_file") = Some v ->
                      v = new_relative_path t).
  { intros ->. apply update_database_record_true in Hup. rewrite Hup. simpl.
    intros v. rewrite lookup_alter_eq.
    destruct (Store.postmeta (Store.working (db_connection st))
                !! (ID a, "_wp_attached_file")) as [old|]; simpl; [|discriminate].
    intros [= <-]. reflexivity. }
  simpl. apply FileSystemFacts.path_exists_true in Hnew as Hex. rewrite Hex. simpl.
  destruct (PathLib.eqb (current_full_path t) (new_file_path t)) eqn:Heq; simpl.
  - intros [= <- <-]. split; [exact Hnew |].
    split; [intros E; rewrite Heq in E; discriminate |].
    exists updated. split; [apply last_snoc | exact Hmeta].
  - unfold FileSystem.remove.
    destruct (FileSystem.remove_raises (os env)); [discriminate |].
    destruct (fs st !! PathLib.to_string (current_full_path t)) as [c|] eqn:Hsrc;
      [|discriminate].
    intros [= <- <-]. unfold persisted. simpl.
    assert (Hne : PathLib.to_string (current_full_path t)
                  <> PathLib.to_string (new_file_path t)).
    { intros E. apply PathFacts.to_string_inj in E; [|assumption..].
      apply PathFacts.eqb_false in Heq. contradiction. }
    split; [rewrite lookup_delete_ne by exact Hne; exact Hnew |].
    split; [intros _; apply lookup_delete_eq |].
    exists updated. split; [apply last_snoc | exact Hmeta].
Qed.

Lemma after_conversion_persisted env cfg a t ops st ops' st' :
  well_formed (current_full_path t) ->
  well_formed (new_file_path t) ->
  is_Some (fs st !! PathLib.to_string (new_file_path t)) ->
  after_conversion env cfg a t ops st = (Ok (true, ops'), st') ->
  persisted a t ops' st'.
Proof.
  intros Hwc Hwn Hnew. unfold after_conversion.
  pose proof (add_metadata_keeps_files env cfg false st
                (PathLib.to_string (new_file_path t)) _ Hnew) as H1.
  destruct (add_metadata_with_exiftool env cfg false st _) as [metadata_success st1].
  pose proof (permalink_keeps_files cfg false (ID a) (title_of a) st1) as H2.
  destruct (update_attachment_permalink cfg false (ID a) (title_of a) st1)
    as [permalink_success st2].
  simpl in H1, H2. apply persist_and_unlink_persisted; [assumption.. |].
  rewrite H2. exact H1.
Qed.

Lemma process_live_persisted env cfg a t st ops st' :
  well_formed (current_full_path t) ->
  well_formed (new_file_path t) ->
  process_live env cfg a t st = (Ok (true, ops), st') ->
  persisted a t ops st'.
Proof.
  intros Hwc Hwn. unfold process_live.
  destruct (backup_original env cfg t st) as [[ops0|e] st1]; [|discriminate].
  destruct (convert_to_webp env cfg (fs st1) _ _) as [[[ok o] n] fs2] eqn:Hconv.
  destruct ok; [|discriminate].
  apply convert_to_webp_true in Hconv.
  destruct o as [|o]; [discriminate |].
  apply after_conversion_persisted; assumption.
Qed.

(** The operations of a dry run never record a store update. *)
Lemma process_dry_records_no_update cfg a st ok ops st' :
  process_dry cfg a st = (Ok (ok, ops), st') -> last ops = Some WouldUpdateDatabase.
Proof.
  unfold process_dry.
  destruct (update_attachment_permalink cfg true (ID a) (title_of a) st) as [p st1].
  intros [= _ <- _]. destruct p; reflexivity.
Qed.

(** C1, counterexample.  The store refuses the update of the file reference.
    The attachment is reported processed with the store update failed; its
    original file has been removed all the same, the image is on disk only
    under the new name, and the store still refers to the old path. *)
Lemma failed_persist_leaves_file_only_under_new_path :
  let r := process_attachment Samples.enhanced_env (Samples.enhanced_config true) false
             Samples.uploads Samples.sunset_row_enhanced
             (Samples.enhanced_state Samples.persist_refused) in
  returned (fst r) = true
  /\ last (operations (fst r)) = Some DatabaseFailed
  /\ fs (snd r) !! "/up/2024/sunset.jpg" = None
  /\ FileSystem.path_exists (fs (snd r)) "/up/2024/sunset.webp" = true
  /\ Store.postmeta (Store.committed (db_connection (snd r))) !! (7%Z, "_wp_attached_file")
     = Some "2024/sunset.jpg".
Proof. vm_compute. repeat split. Qed.

(** C1, as amended.  For an attachment whose stored path has a name: whenever
    the store update is recorded successful, the file reference the store
    then holds for the attachment is the new relative path, and the file it
    points to under the uploads directory exists on disk; when the store
    update is recorded failed, the new file exists on disk and the original
    file has been removed all the same if its path differs from the new one,
    so that the asset is visible under the new path only. *)
Theorem reference_exists_after_persist_and_original_is_removed_anyway :
  forall env cfg dry_run uploads_path a st file,
    well_formed uploads_path ->
    file_path a = Some file ->
    PathLib.parts (PathLib.parse file) <> [] ->
    let r := process_attachment env cfg dry_run uploads_path a st in
    (last (operations (fst r)) = Some DatabaseUpdated ->
     exists t,
       targets_of (template env) cfg uploads_path a file = Ok t
       /\ is_Some (fs (snd r)
                     !! PathLib.to_string
                          (PathLib.div uploads_path (new_relative_path t)))
       /\ forall v,
           Store.postmeta (Store.committed (db_connection (snd r)))
             !! (ID a, "_wp_attached_file") = Some v ->
           v = new_relative_path t)
    /\ (last (operations (fst r)) = Some DatabaseFailed ->
        exists t,
          targets_of (template env) cfg uploads_path a file = Ok t
          /\ is_Some (fs (snd r) !! PathLib.to_string (new_file_path t))
          /\ (PathLib.eqb (current_full_path t) (new_file_path t) = false ->
              fs (snd r) !! PathLib.to_string (current_full_path t) = None)).
Proof.
  intros env cfg dry_run uploads_path a st file Hwf Hfile Hparts r.
  assert (Hcases :
            (exists t ops st',
                targets_of (template env) cfg uploads_path a file = Ok t
                /\ fst r = {| returned := true; operations := ops |}
                /\ snd r = with_tally (count_processed (tally st')) st'
                /\ (persisted a t ops st' \/ last ops = Some WouldUpdateDatabase))
            \/ operations (fst r) = []).
  { subst r. unfold process_attachment. rewrite Hfile.
    destruct (negb (Text.truthy file)); [right; reflexivity |].
    cbv zeta. destruct (negb (FileSystem.path_exists _ _)); [right; reflexivity |].
    unfold process_existing.
    destruct (targets_of (template env) cfg uploads_path a file) as [t|e] eqn:Ht;
      [|right; reflexivity].
    destruct (targets_of_ok _ _ _ _ _ _ Ht) as (Hc & Hn & _).
    assert (Hwc : well_formed (current_full_path t))
      by (rewrite Hc; apply PathFacts.div_well_formed, Hwf).
    assert (Hwn : well_formed (new_file_path t)).
    { rewrite Hn. apply PathFacts.div_well_formed, PathFacts.parent_well_formed.
      rewrite <- Hc. exact Hwc. }
    destruct dry_run.
    - destruct (process_dry cfg a st) as [[[[|] ops]|e] st'] eqn:E;
        [|right; reflexivity..].
      left. exists t, ops, st'. split; [reflexivity |].
      split; [reflexivity |]. split; [reflexivity |].
      right. eapply process_dry_records_no_update, E.
    - destruct (process_live env cfg a t st) as [[[[|] ops]|e] st'] eqn:E;
        [|right; reflexivity..].
      left. exists t, ops, st'. split; [reflexivity |].
      split; [reflexivity |]. split; [reflexivity |].
      left. eapply process_live_persisted; eassumption. }
  destruct Hcases as [(t & ops & st' & Ht & Hfst & Hsnd & Hp)|Hnil].
  - destruct (targets_of_ok _ _ _ _ _ _ Ht) as (Hc & Hn & Hr).
    assert (Hres : PathLib.div uploads_path (new_relative_path t) = new_file_path t).
    { rewrite Hr, Hn. apply PathFacts.reference_resolves, Hparts. }
    rewrite Hfst, Hsnd. simpl.
    destruct Hp as [(Hnew & Hold & updated & Hlast & Hmeta)|Hdry].
    + split.
      * intros Hup. rewrite Hup in Hlast. destruct updated; [|discriminate].
        exists t. rewrite Hres. auto.
      * intros Hfail. exists t. auto.
    + split; intros H; rewrite H in Hdry; discriminate.
  - rewrite Hnil. split; discriminate.
Qed.

Lemma reference_exists_after_persist_and_original_is_removed_anyway_witness :
  let r := process_attachment Samples.enhanced_env (Samples.enhanced_config true) false
             Samples.uploads Samples.sunset_row_enhanced
             (Samples.enhanced_state
                (Samples.session Samples.sunset_database true (fun _ => false))) in
  is_Some (fs (snd r) !! "/up/2024/sunset.webp")
  /\ forall v,
      Store.postmeta (Store.committed (db_connection (snd r))) !! (7%Z, "_wp_attached_file")
      = Some v ->
      v = "2024/sunset.webp".
Proof.
  assert (Hwf : well_formed Samples.uploads) by repeat constructor.
  assert (Hparts : PathLib.parts (PathLib.parse "2024/sunset.jpg") <> []) by discriminate.
  destruct (proj1 (reference_exists_after_persist_and_original_is_removed_anyway
              Samples.enhanced_env (Samples.enhanced_config true) false Samples.uploads
              Samples.sunset_row_enhanced
              (Samples.enhanced_state
                 (Samples.session Samples.sunset_database true (fun _ => false)))
              "2024/sunset.jpg" Hwf eq_refl Hparts) eq_refl)
    as (t & Ht & Hfile & Hmeta).
  vm_compute in Ht. injection Ht as <-. split; [exact Hfile | exact Hmeta].
Defined.

End ConsistencyFacts.


(** ** Characters of cleaned text *)

Module CharsetFacts.

Lemma all_chars_impl (p q : ascii -> bool) (s : string) :
  (forall c, p c = true -> q c = true) -> all_chars p s = true -> all_chars q s = true.
Proof.
  intros Hpq. induction s as [|c s IH]; simpl; [reflexivity |].
  intros H. apply andb_prop in H as [Hc Hs]. rewrite (Hpq c Hc), (IH Hs). reflexivity.
Qed.

Lemma all_chars_append (p : ascii -> bool) (s t : string) :
  all_chars p (s ++ t) = all_chars p s && all_chars p t.
Proof.
  induction s as [|c s IH]; [reflexivity |].
  rewrite TextFacts.append_cons. simpl. rewrite IH, andb_assoc. reflexivity.
Qed.

(** [keep p] leaves characters of [p], and of any class the other
    characters of the input are in. *)
Lemma all_chars_keep (p q : ascii -> bool) (s : string) :
  all_chars (fun c => negb (p c) || q c) s = true -> all_chars q (Text.keep p s) = true.
Proof.
  induction s as [|c s IH]; simpl; [reflexivity |].
  intros H. apply andb_prop in H as [Hc Hs].
  destruct (p c); simpl in *; [rewrite Hc; simpl |]; apply IH, Hs.
Qed.

(** [collapse_runs p rep] leaves the replacement and the characters outside
    [p]. *)
Lemma all_chars_collapse (p q : ascii -> bool) (rep s : string) :
  all_chars q rep = true ->
  all_chars (fun c => p c || q c) s = true ->
  all_chars q (Text.collapse_runs p rep s) = true.
Proof.
  intros Hrep. induction s as [|c s IH]; [reflexivity |].
  intros H. simpl in H. apply andb_prop in H as [Hc Hs]. specialize (IH Hs).
  simpl. destruct (p c) eqn:Hp.
  - destruct s as [|c' s']; [exact Hrep |].
    destruct (p c'); [exact IH |].
    rewrite all_chars_append, Hrep. exact IH.
  - simpl in Hc. simpl. rewrite Hc. exact IH.
Qed.

Lemma all_chars_lstrip (p q : ascii -> bool) (s : string) :
  all_chars q s = true -> all_chars q (Text.lstrip p s) = true.
Proof.
  induction s as [|c s IH]; simpl; [reflexivity |].
  intros H. destruct (p c); [|exact H].
  apply andb_prop in H as [_ Hs]. apply IH, Hs.
Qed.

Lemma all_chars_rstrip (p q : ascii -> bool) (s : string) :
  all_chars q s = true -> all_chars q (Text.rstrip p s) = true.
Proof.
  induction s as [|c s IH]; simpl; [reflexivity |].
  intros H. apply andb_prop in H as [Hc Hs]. specialize (IH Hs).
  destruct (Text.rstrip p s) as [|c' r].
  - destruct (p c); simpl; [reflexivity | rewrite Hc; reflexivity].
  - simpl. rewrite Hc. exact IH.
Qed.

Lemma all_chars_strip (p q : ascii -> bool) (s : string) :
  all_chars q s = true -> all_chars q (Text.strip p s) = true.
Proof. intros H. apply all_chars_rstrip, all_chars_lstrip, H. Qed.

Lemma all_chars_lower (p q : ascii -> bool) (s : string) :
  (forall c, p c = true -> q (Text.lower_char c) = true) ->
  all_chars p s = true -> all_chars q (Text.lower s) = true.
Proof.
  intros Hpq. induction s as [|c s IH]; simpl; [reflexivity |].
  intros H. apply andb_prop in H as [Hc Hs]. rewrite (Hpq c Hc), (IH Hs). reflexivity.
Qed.

Lemma all_chars_take (q : ascii -> bool) (n : nat) (s : string) :
  all_chars q s = true -> all_chars q (Text.string_take n s) = true.
Proof.
  revert s. induction n as [|n IH]; intros [|c s]; simpl; try reflexivity.
  intros H. apply andb_prop in H as [Hc Hs]. rewrite Hc. apply IH, Hs.
Qed.

Lemma all_chars_true (s : string) : all_chars (fun _ => true) s = true.
Proof. induction s; simpl; auto. Qed.

(** The first character after [lstrip p], and the last after [rstrip p], is
    not in [p]. *)
Lemma first_after_lstrip (p : ascii -> bool) (s : string) :
  first_char_in p (Text.lstrip p s) = false.
Proof.
  induction s as [|c s IH]; simpl; [reflexivity |].
  destruct (p c) eqn:Hp; [exact IH | simpl; exact Hp].
Qed.

Lemma last_after_rstrip (p : ascii -> bool) (s : string) :
  last_char_in p (Text.rstrip p s) = false.
Proof.
  induction s as [|c s IH]; simpl; [reflexivity |].
  destruct (Text.rstrip p s) as [|c' r] eqn:E.
  - destruct (p c) eqn:Hp; simpl; [reflexivity | exact Hp].
  - exact IH.
Qed.

Lemma first_after_rstrip (p : ascii -> bool) (s : string) :
  first_char_in p s = false -> first_char_in p (Text.rstrip p s) = false.
Proof.
  destruct s as [|c s]; simpl; [reflexivity |].
  intros Hc. destruct (Text.rstrip p s); [rewrite Hc |]; simpl; exact Hc.
Qed.

Lemma strip_edges (p : ascii -> bool) (s : string) :
  first_char_in p (Text.strip p s) = false /\ last_char_in p (Text.strip p s) = false.
Proof.
  unfold Text.strip. split.
  - apply first_after_rstrip, first_after_lstrip.
  - apply last_after_rstrip.
Qed.

Lemma first_of_lower (p q : ascii -> bool) (s : string) :
  (forall c, q (Text.lower_char c) = true -> p c = true) ->
  first_char_in p s = false -> first_char_in q (Text.lower s) = false.
Proof.
  intros Hqp. destruct s as [|c s]; simpl; [reflexivity |].
  intros Hc. destruct (q (Text.lower_char c)) eqn:E; [|reflexivity].
  rewrite (Hqp c E) in Hc. discriminate.
Qed.

Lemma last_of_lower (p q : ascii -> bool) (s : string) :
  (forall c, q (Text.lower_char c) = true -> p c = true) ->
  last_char_in p s = false -> last_char_in q (Text.lower s) = false.
Proof.
  intros Hqp. induction s as [|c s IH]; simpl; [reflexivity |].
  destruct s as [|c' s'].
  - simpl. intros Hc. destruct (q (Text.lower_char c)) eqn:E; [|reflexivity].
    rewrite (Hqp c E) in Hc. discriminate.
  - intros H. apply IH, H.
Qed.

End CharsetFacts.


(** ** Cleaned names are safe in URLs *)

Module SafeNameFacts.

Lemma filename_char_split (c : ascii) :
  Complete.filename_char c = true ->
  Text.is_space c || (Text.is_word c || Text.is_hyphen c) = true.
Proof. by_character c. Qed.

Lemma word_or_hyphen_split (c : ascii) :
  Text.is_word c || Text.is_hyphen c = true ->
  Text.is_hyphen_or_underscore c
  || (Text.is_upper c || Text.is_lower c || Text.is_digit c || Text.is_hyphen c) = true.
Proof. by_character c. Qed.

Lemma lower_of_alnum_or_hyphen (c : ascii) :
  Text.is_upper c || Text.is_lower c || Text.is_digit c || Text.is_hyphen c = true ->
  name_char (Text.lower_char c) = true.
Proof. by_character c. Qed.

Lemma hyphen_before_lower (c : ascii) :
  Text.is_hyphen (Text.lower_char c) = true -> Text.is_hyphen_or_underscore c = true.
Proof. by_character c. Qed.

Lemma lower_is_not_upper (c : ascii) : negb (Text.is_upper (Text.lower_char c)) = true.
Proof. by_character c. Qed.

Lemma slug_char_split (c : ascii) :
  negb (Text.is_upper c) = true ->
  negb (Enhanced.slug_char c)
  || (Enhanced.is_space_or_underscore c || name_char c) = true.
Proof. by_character c. Qed.

Lemma name_char_or_hyphen (c : ascii) :
  name_char c = true -> Text.is_hyphen c || name_char c = true.
Proof. by_character c. Qed.

(** X1.  The name [clean_filename] returns is made of lower-case letters,
    digits and hyphens only (in the ASCII reading of the character classes),
    is not empty, and neither starts nor ends with a hyphen, for every input
    and every configuration, whatever the configured patterns delete. *)
Theorem clean_filename_is_url_safe :
  forall cfg filename name,
    Complete.clean_filename filename cfg = Ok name ->
    name <> ""
    /\ all_chars name_char name = true
    /\ first_char_in Text.is_hyphen name = false
    /\ last_char_in Text.is_hyphen name = false.
Proof.
  intros cfg filename name. unfold Complete.clean_filename.
  destruct (Text.truthy filename); simpl.
  2:{ intros [= <-]. repeat split. discriminate. }
  destruct (Complete.remove_unwanted _ filename) as [cleaned|e]; simpl; [|discriminate].
  intros [= <-].
  set (kept := Text.keep Complete.filename_char cleaned).
  set (spaced := Text.collapse_runs Text.is_space "-" kept).
  set (joined := Text.collapse_runs Text.is_hyphen_or_underscore "-" spaced).
  set (stripped := Text.strip Text.is_hyphen_or_underscore joined).
  assert (Hkept : all_chars Complete.filename_char kept = true).
  { apply CharsetFacts.all_chars_keep.
    apply (CharsetFacts.all_chars_impl (fun _ => true));
      [|apply CharsetFacts.all_chars_true].
    intros c _. destruct (Complete.filename_char c); reflexivity. }
  assert (Hspaced : all_chars (fun c => Text.is_word c || Text.is_hyphen c) spaced = true).
  { apply CharsetFacts.all_chars_collapse; [reflexivity |].
    eapply CharsetFacts.all_chars_impl; [|exact Hkept]. apply filename_char_split. }
  assert (Hstripped :
            all_chars (fun c => Text.is_upper c || Text.is_lower c || Text.is_digit c
                                || Text.is_hyphen c) stripped = true).
  { apply CharsetFacts.all_chars_strip, CharsetFacts.all_chars_collapse; [reflexivity |].
    eapply CharsetFacts.all_chars_impl; [|exact Hspaced]. apply word_or_hyphen_split. }
  assert (Hlower : all_chars name_char (Text.lower stripped) = true).
  { eapply CharsetFacts.all_chars_lower; [|exact Hstripped].
    apply lower_of_alnum_or_hyphen. }
  destruct (CharsetFacts.strip_edges Text.is_hyphen_or_underscore joined) as [Hfirst Hlast].
  fold stripped in Hfirst, Hlast.
  split; [apply TextFacts.or_else_not_empty; discriminate |].
  unfold Text.or_else. destruct (Text.truthy (Text.lower stripped)).
  - split; [exact Hlower |]. split.
    + eapply CharsetFacts.first_of_lower; [apply hyphen_before_lower | exact Hfirst].
    + eapply CharsetFacts.last_of_lower; [apply hyphen_before_lower | exact Hlast].
  - repeat split.
Qed.

Lemma clean_filename_is_url_safe_witness :
  Complete.clean_filename " Sunset!! (x)__y " (Samples.complete_config []) = Ok "sunset-x-y"
  /\ "sunset-x-y" <> ""
  /\ all_chars name_char "sunset-x-y" = true
  /\ first_char_in Text.is_hyphen "sunset-x-y" = false
  /\ last_char_in Text.is_hyphen "sunset-x-y" = false.
Proof.
  split; [reflexivity |].
  apply (clean_filename_is_url_safe (Samples.complete_config []) " Sunset!! (x)__y "
           "sunset-x-y" eq_refl).
Defined.

Lemma length_take (n : nat) (s : string) : String.length (Text.string_take n s) <= n.
Proof.
  revert s. induction n as [|n IH]; intros [|c s]; simpl; try lia.
  specialize (IH s). lia.
Qed.

Lemma length_rstrip (p : ascii -> bool) (s : string) :
  String.length (Text.rstrip p s) <= String.length s.
Proof.
  induction s as [|c s IH]; simpl; [lia |].
  destruct (Text.rstrip p s) as [|c' r].
  - destruct (p c); simpl; lia.
  - simpl in *. lia.
Qed.

(** [truncate] keeps within a non-negative length. *)
Lemma length_truncate (max_length : Z) (trailing : ascii -> bool) (s : string) :
  (0 <= max_length)%Z ->
  (Z.of_nat (String.length (Enhanced.truncate max_length trailing s)) <= max_length)%Z.
Proof.
  intros Hmax. unfold Enhanced.truncate.
  destruct (Z.ltb_spec max_length (Z.of_nat (String.length s))) as [Hlt|Hge]; [|lia].
  pose proof (length_rstrip trailing (Text.string_slice_to max_length s)) as H1.
  unfold Text.string_slice_to, Text.stop_index in *.
  destruct (Z.leb_spec 0 max_length) as [_|]; [|lia].
  pose proof (length_take (Nat.min (Z.to_nat max_length) (String.length s)) s) as H2.
  lia.
Qed.

Lemma all_chars_truncate (q : ascii -> bool) (max_length : Z) (trailing : ascii -> bool)
    (s : string) :
  all_chars q s = true -> all_chars q (Enhanced.truncate max_length trailing s) = true.
Proof.
  intros H. unfold Enhanced.truncate. destruct (_ <? _)%Z; [|exact H].
  apply CharsetFacts.all_chars_rstrip, CharsetFacts.all_chars_take, H.
Qed.

(** The characters of a slug, and its last character. *)
Lemma generate_seo_slug_chars (title : string) (max_length : Z) :
  all_chars name_char (Enhanced.generate_seo_slug title max_length) = true
  /\ last_char_in Text.is_hyphen (Enhanced.generate_seo_slug title max_length) = false.
Proof.
  unfold Enhanced.generate_seo_slug.
  destruct (Text.truthy title); simpl; [|split; reflexivity].
  set (kept := Text.keep Enhanced.slug_char (Text.lower title)).
  set (joined := Text.collapse_runs Enhanced.is_space_or_underscore "-" kept).
  set (single := Text.collapse_runs Text.is_hyphen "-" joined).
  set (stripped := Text.strip Text.is_hyphen single).
  assert (Hkept : all_chars (fun c => Enhanced.is_space_or_underscore c || name_char c)
                    kept = true).
  { apply CharsetFacts.all_chars_keep.
    eapply CharsetFacts.all_chars_impl; [apply slug_char_split |].
    eapply CharsetFacts.all_chars_lower; [|apply CharsetFacts.all_chars_true].
    intros c _. apply lower_is_not_upper. }
  assert (Hstripped : all_chars name_char stripped = true).
  { apply CharsetFacts.all_chars_strip, CharsetFacts.all_chars_collapse; [reflexivity |].
    eapply CharsetFacts.all_chars_impl; [apply name_char_or_hyphen |].
    apply CharsetFacts.all_chars_collapse; [reflexivity | exact Hkept]. }
  pose proof (all_chars_truncate name_char max_length Text.is_hyphen stripped Hstripped)
    as Htrunc.
  assert (Hlast : last_char_in Text.is_hyphen
                    (Enhanced.truncate max_length Text.is_hyphen stripped) = false).
  { unfold Enhanced.truncate. destruct (_ <? _)%Z.
    - apply CharsetFacts.last_after_rstrip.
    - apply (CharsetFacts.strip_edges Text.is_hyphen single). }
  destruct (Text.truthy (Enhanced.truncate max_length Text.is_hyphen stripped)); simpl.
  - split; [exact Htrunc | exact Hlast].
  - split; reflexivity.
Qed.

(** X2.  The slug [generate_seo_slug] returns is made of lower-case letters,
    digits and hyphens only (in the ASCII reading of the character classes)
    and does not end with a hyphen; for a non-negative maximal length it is
    the fallback ["media-attachment"] or at most that long.  The fallback
    itself is 16 characters long, whatever the maximal length. *)
Theorem generate_seo_slug_is_url_safe :
  forall title max_length,
    all_chars name_char (Enhanced.generate_seo_slug title max_length) = true
    /\ last_char_in Text.is_hyphen (Enhanced.generate_seo_slug title max_length) = false
    /\ ((0 <= max_length)%Z ->
        Enhanced.generate_seo_slug title max_length = "media-attachment"
        \/ (Z.of_nat (String.length (Enhanced.generate_seo_slug title max_length))
            <= max_length)%Z).
Proof.
  intros title max_length. unfold Enhanced.generate_seo_slug.
  destruct (Text.truthy title); simpl; [|repeat split; auto].
  set (kept := Text.keep Enhanced.slug_char (Text.lower title)).
  set (joined := Text.collapse_runs Enhanced.is_space_or_underscore "-" kept).
  set (single := Text.collapse_runs Text.is_hyphen "-" joined).
  set (stripped := Text.strip Text.is_hyphen single).
  assert (Hkept : all_chars (fun c => Enhanced.is_space_or_underscore c || name_char c)
                    kept = true).
  { apply CharsetFacts.all_chars_keep.
    eapply CharsetFacts.all_chars_impl; [apply slug_char_split |].
    eapply CharsetFacts.all_chars_lower; [|apply CharsetFacts.all_chars_true].
    intros c _. apply lower_is_not_upper. }
  assert (Hstripped : all_chars name_char stripped = true).
  { apply CharsetFacts.all_chars_strip, CharsetFacts.all_chars_collapse; [reflexivity |].
    eapply CharsetFacts.all_chars_impl; [apply name_char_or_hyphen |].
    apply CharsetFacts.all_chars_collapse; [reflexivity | exact Hkept]. }
  pose proof (all_chars_truncate name_char max_length Text.is_hyphen stripped Hstripped)
    as Htrunc.
  assert (Hlast : last_char_in Text.is_hyphen
                    (Enhanced.truncate max_length Text.is_hyphen stripped) = false).
  { unfold Enhanced.truncate. destruct (_ <? _)%Z.
    - apply CharsetFacts.last_after_rstrip.
    - apply (CharsetFacts.strip_edges Text.is_hyphen single). }
  destruct (Text.truthy (Enhanced.truncate max_length Text.is_hyphen stripped)); simpl.
  - split; [exact Htrunc |]. split; [exact Hlast |].
    intros Hmax. right. apply length_truncate, Hmax.
  - repeat split; auto.
Qed.

(** The name [optimize_filename] makes of a base name once the white space
    has been replaced: the fallback ["media"], or a name within the maximal
    length that does not end with a hyphen or an underscore. *)
Lemma truncated_name_respects_max_length (max_length : Z) (base_name : string) :
  (0 <= max_length)%Z ->
  let name :=
    Text.or_else
      (Enhanced.truncate max_length Text.is_hyphen_or_underscore
         (Text.strip Text.is_hyphen_or_underscore
            (Text.collapse_runs Text.is_hyphen_or_underscore "-" base_name)))
      "media" in
  name = "media"
  \/ ((Z.of_nat (String.length name) <= max_length)%Z
      /\ last_char_in Text.is_hyphen_or_underscore name = false).
Proof.
  intros Hmax. cbv zeta.
  match goal with
  | |- context [Enhanced.truncate ?m ?p ?s] => set (name := Enhanced.truncate m p s);
                                               set (stripped := s) in *
  end.
  unfold Text.or_else. destruct (Text.truthy name) eqn:Hn; [|left; reflexivity].
  right. split; [apply length_truncate, Hmax |].
  subst name. unfold Enhanced.truncate. destruct (_ <? _)%Z.
  - apply CharsetFacts.last_after_rstrip.
  - subst stripped. apply CharsetFacts.strip_edges.
Qed.

(** X3.  With file name optimisation enabled and a non-negative maximal
    length, a name [optimize_filename] returns is the fallback ["media"] or a
    name of at most that length, which does not end with a hyphen or an
    underscore.  The function raises instead of returning only when the
    configured replacement for white space holds a backslash and [re] rejects
    it as a template, and the exception is then that of [re]. *)
Theorem optimize_filename_respects_max_length :
  forall compile_template cfg original title,
    Enhanced.filename_enabled (Enhanced.filename_optimization cfg) = true ->
    (0 <= Enhanced.max_length (Enhanced.filename_optimization cfg))%Z ->
    match Enhanced.optimize_filename compile_template cfg original title with
    | Ok name =>
        name = "media"
        \/ ((Z.of_nat (String.length name)
             <= Enhanced.max_length (Enhanced.filename_optimization cfg))%Z
            /\ last_char_in Text.is_hyphen_or_underscore name = false)
    | Raise e =>
        Text.contains_char Text.backslash
          (Enhanced.replace_spaces (Enhanced.filename_optimization cfg)) = true
        /\ compile_template (Enhanced.replace_spaces (Enhanced.filename_optimization cfg))
           = Raise e
    end.
Proof.
  intros compile_template cfg original title He Hmax.
  unfold Enhanced.optimize_filename. rewrite He. cbn [negb].
  destruct (Text.truthy (Enhanced.replace_spaces _)).
  - unfold Enhanced.replacement_of.
    destruct (Text.contains_char Text.backslash _) eqn:Hb.
    + destruct (compile_template _) as [expand|e] eqn:Hc; simpl.
      * apply truncated_name_respects_max_length, Hmax.
      * split; reflexivity.
    + simpl. apply truncated_name_respects_max_length, Hmax.
  - simpl. apply truncated_name_respects_max_length, Hmax.
Qed.

Lemma optimize_filename_respects_max_length_witness :
  (exists name,
      Enhanced.optimize_filename (Enhanced.template Samples.enhanced_env)
        (Samples.enhanced_config true) "IMG.jpg" "My Sunset" = Ok name
      /\ (name = "media"
          \/ ((Z.of_nat (String.length name) <= 200)%Z
              /\ last_char_in Text.is_hyphen_or_underscore name = false)))
  /\ Enhanced.optimize_filename (Enhanced.template Samples.enhanced_env)
       Samples.backslash_config "IMG.jpg" "My Sunset" = Raise RegexError.
Proof.
  split.
  - eexists. split; [reflexivity |].
    apply (optimize_filename_respects_max_length (Enhanced.template Samples.enhanced_env)
             (Samples.enhanced_config true) "IMG.jpg" "My Sunset");
      [reflexivity | simpl; lia].
  - reflexivity.
Defined.

End SafeNameFacts.


(** ** Keyword lists *)

Module KeywordFacts.

Lemma mem_false (x : string) (l : list string) : Text.mem x l = false -> x ∉ l.
Proof.
  unfold Text.mem. intros H Hin.
  assert (existsb (String.eqb x) l = true) as Ht; [|congruence].
  apply existsb_exists. exists x. split.
  - apply list_elem_of_In, Hin.
  - apply String.eqb_refl.
Qed.

Lemma lower_keeps_class (c : ascii) :
  Complete.keyword_char (Text.lower_char c) = true ->
  Text.is_space (Text.lower_char c)
  || ((Text.is_word (Text.lower_char c) && negb (Text.is_upper (Text.lower_char c)))
      || Text.is_hyphen (Text.lower_char c)) = true.
Proof. by_character c. Qed.

(** What [normalize_keyword] produces: lower-case word characters and
    hyphens, with no hyphen at either end. *)
Lemma normalize_keyword_shape (category : string) :
  all_chars (fun c => (Text.is_word c && negb (Text.is_upper c)) || Text.is_hyphen c)
    (Complete.normalize_keyword category) = true
  /\ first_char_in Text.is_hyphen (Complete.normalize_keyword category) = false
  /\ last_char_in Text.is_hyphen (Complete.normalize_keyword category) = false.
Proof.
  unfold Complete.normalize_keyword. split; [|apply CharsetFacts.strip_edges].
  apply CharsetFacts.all_chars_strip, CharsetFacts.all_chars_collapse; [reflexivity |].
  induction category as [|c s IH]; [reflexivity |].
  change (Text.lower (String c s)) with (String (Text.lower_char c) (Text.lower s)).
  simpl. destruct (Complete.keyword_char (Text.lower_char c)) eqn:Hc; [|exact IH].
  simpl. rewrite IH, (lower_keeps_class c Hc). reflexivity.
Qed.

Lemma collect_keywords_invariant (categories keywords : list string) :
  NoDup keywords -> Forall keyword_ok keywords ->
  NoDup (Complete.collect_keywords categories keywords)
  /\ Forall keyword_ok (Complete.collect_keywords categories keywords)
  /\ (length (Complete.collect_keywords categories keywords)
      <= length keywords + length categories)%nat.
Proof.
  revert keywords. induction categories as [|category rest IH]; intros keywords Hnd Hok.
  - simpl. repeat split; auto. lia.
  - simpl.
    destruct (Text.truthy (Complete.normalize_keyword category)
              && (2 <? String.length (Complete.normalize_keyword category))%nat
              && negb (Text.mem (Complete.normalize_keyword category) keywords)) eqn:Hc.
    + apply andb_prop in Hc as [Hc Hmem]. apply andb_prop in Hc as [_ Hlen].
      apply negb_true_iff in Hmem. apply Nat.ltb_lt in Hlen.
      destruct (IH (keywords ++ [Complete.normalize_keyword category])%list)
        as (H1 & H2 & H3).
      * apply NoDup_app. repeat split; [exact Hnd | | apply NoDup_singleton].
        intros x Hx Hx'. apply list_elem_of_singleton in Hx'. subst x.
        exact (mem_false _ _ Hmem Hx).
      * apply Forall_app. split; [exact Hok |].
        apply Forall_singleton. split; [exact Hlen |]. apply normalize_keyword_shape.
      * repeat split; auto. rewrite length_app in H3. simpl in H3. lia.
    + destruct (IH keywords Hnd Hok) as (H1 & H2 & H3). repeat split; auto. lia.
Qed.

Lemma length_slice_to {A} (n : Z) (l : list A) :
  (0 <= n)%Z -> (Z.of_nat (length (Text.slice_to n l)) <= n)%Z.
Proof.
  intros Hn. unfold Text.slice_to, Text.stop_index.
  destruct (Z.leb_spec 0 n); [|lia]. rewrite length_take. lia.
Qed.

(** X4. The keywords [process_categories_to_keywords] derives from a
    category string are pairwise distinct and at most ten; each is longer
    than two characters, made of lower-case word characters and hyphens (in
    the ASCII reading of the character classes), and has no hyphen at either
    end.  A missing or empty category string gives
    no keyword. *)
Theorem category_keywords_are_distinct_and_bounded :
  forall categories_string,
    NoDup (Complete.process_categories_to_keywords categories_string)
    /\ (length (Complete.process_categories_to_keywords categories_string) <= 10)%nat
    /\ Forall keyword_ok (Complete.process_categories_to_keywords categories_string)
    /\ (categories_string = None \/ categories_string = Some "" ->
        Complete.process_categories_to_keywords categories_string = []).
Proof.
  intros [s|]; simpl.
  2:{ repeat split; auto using NoDup_nil_2. lia. }
  destruct (Text.truthy s) eqn:Hs; simpl.
  - destruct (collect_keywords_invariant
                (Text.slice_to 10 (Complete.split_categories s)) [])
      as (H1 & H2 & H3); [apply NoDup_nil_2 | constructor |].
    repeat split; auto.
    + pose proof (length_slice_to 10 (Complete.split_categories s)). simpl in H3. lia.
    + intros [Hn | [= ->]]; discriminate.
  - repeat split; auto using NoDup_nil_2. lia.
Qed.

Lemma select_keywords_invariant (md : Enhanced.metadata_settings) (all : list string)
    (words keywords : list string) :
  let ok w := (Enhanced.min_keyword_length md <= String.length w)%nat
              /\ (w ∉ Enhanced.stop_words) /\ w ∈ all in
  Forall (fun w => w ∈ all) words ->
  NoDup keywords -> Forall ok keywords ->
  (length keywords <= Enhanced.max_keywords md)%nat ->
  NoDup (Enhanced.select_keywords md words keywords)
  /\ Forall ok (Enhanced.select_keywords md words keywords)
  /\ (length (Enhanced.select_keywords md words keywords) <= Enhanced.max_keywords md)%nat.
Proof.
  intros ok. revert keywords.
  induction words as [|word rest IH]; intros keywords Hall Hnd Hok Hlen.
  - simpl. repeat split; auto.
  - cbn [Enhanced.select_keywords]. apply Forall_cons in Hall as [Hword Hall].
    destruct ((Enhanced.min_keyword_length md <=? String.length word)%nat
              && negb (Text.mem word Enhanced.stop_words)
              && negb (Text.mem word keywords)
              && (length keywords <? Enhanced.max_keywords md)%nat) eqn:Hc.
    + apply andb_prop in Hc as [Hc Hroom]. apply andb_prop in Hc as [Hc Hnew].
      apply andb_prop in Hc as [Hmin Hstop].
      apply Nat.leb_le in Hmin. apply Nat.ltb_lt in Hroom.
      apply negb_true_iff in Hstop, Hnew.
      apply IH; [exact Hall | | |].
      * apply NoDup_app. repeat split; [exact Hnd | | apply NoDup_singleton].
        intros x Hx Hx'. apply list_elem_of_singleton in Hx'. subst x.
        exact (mem_false _ _ Hnew Hx).
      * apply Forall_app. split; [exact Hok |].
        apply Forall_singleton. repeat split; auto using mem_false.
      * rewrite length_app. simpl. lia.
    + apply IH; auto.
Qed.

(** X5. The keywords [generate_keywords_from_title] returns are pairwise
    distinct and at most [max_keywords]; each is a word of the lower-cased
    title, at least [min_keyword_length] long, and no stop word.  With the
    feature disabled or an empty title the list is empty. *)
Theorem title_keywords_are_distinct_and_bounded :
  forall cfg title,
    NoDup (Enhanced.generate_keywords_from_title cfg title)
    /\ (length (Enhanced.generate_keywords_from_title cfg title)
        <= Enhanced.max_keywords (Enhanced.metadata cfg))%nat
    /\ Forall (fun w =>
                 (Enhanced.min_keyword_length (Enhanced.metadata cfg) <= String.length w)%nat
                 /\ (w ∉ Enhanced.stop_words)
                 /\ w ∈ Enhanced.words_from "" (Text.lower title))
         (Enhanced.generate_keywords_from_title cfg title)
    /\ (title = ""
        \/ Enhanced.generate_keywords_from_title_enabled (Enhanced.metadata cfg) = false ->
        Enhanced.generate_keywords_from_title cfg title = []).
Proof.
  intros cfg title. unfold Enhanced.generate_keywords_from_title.
  destruct (negb (Text.truthy title)
            || negb (Enhanced.generate_keywords_from_title_enabled (Enhanced.metadata cfg)))
    eqn:Hc.
  - repeat split; auto using NoDup_nil_2. simpl. lia.
  - destruct (select_keywords_invariant (Enhanced.metadata cfg)
                (Enhanced.words_from "" (Text.lower title))
                (Enhanced.words_from "" (Text.lower title)) [])
      as (H1 & H2 & H3);
      [apply Forall_forall; auto | apply NoDup_nil_2 | constructor | simpl; lia |].
    repeat split; auto.
    apply orb_false_elim in Hc as [Ht He].
    intros [-> | Hoff]; [discriminate |].
    rewrite Hoff in He. discriminate.
Qed.

End KeywordFacts.


(** ** Chunks and the collection of results *)

Module BatchFacts.

Import Complete.

Lemma chunks_from_partition (n fuel : nat) (tasks : list task_data) :
  (0 < n)%nat -> (length tasks <= fuel)%nat ->
  concat (chunks_from fuel n tasks) = tasks
  /\ Forall (fun chunk => (0 < length chunk <= n)%nat) (chunks_from fuel n tasks).
Proof.
  intros Hn. revert tasks. induction fuel as [|fuel IH]; intros tasks Hfuel.
  - destruct tasks; [|simpl in Hfuel; lia]. split; [reflexivity | constructor].
  - destruct tasks as [|t tasks]; [split; [reflexivity | constructor] |].
    cbn [chunks_from concat].
    destruct (IH (drop n (t :: tasks))) as [Hc Hf].
    { rewrite length_drop. simpl in *. lia. }
    split.
    + rewrite Hc. apply take_drop.
    + constructor; [|exact Hf]. rewrite length_take. simpl. lia.
Qed.


(** X6.  For a positive chunk size, [chunks_of] cuts the work list into
    consecutive chunks: concatenated in order they give the list back, and
    each chunk holds at least one and at most [chunk_size] items. *)
Theorem chunks_partition_the_work_list :
  forall chunk_size tasks,
    (0 < chunk_size)%Z ->
    exists chunks,
      chunks_of chunk_size tasks = Ok chunks
      /\ concat chunks = tasks
      /\ Forall (fun chunk => (0 < length chunk)%nat
                              /\ (Z.of_nat (length chunk) <= chunk_size)%Z) chunks.
Proof.
  intros chunk_size tasks Hn. unfold chunks_of.
  destruct (Z.eqb_spec chunk_size 0); [lia |].
  destruct (Z.ltb_spec chunk_size 0); [lia |].
  eexists. split; [reflexivity |].
  destruct (chunks_from_partition (Z.to_nat chunk_size) (length tasks) tasks)
    as [Hc Hf]; [lia | lia |].
  split; [exact Hc |].
  eapply Forall_impl; [exact Hf |]. cbv beta. intros chunk Hchunk. lia.
Qed.

Lemma chunks_partition_the_work_list_witness :
  exists chunks,
    chunks_of 2 [Samples.sunset_task; Samples.beach_task; Samples.sunset_task] = Ok chunks
    /\ concat chunks = [Samples.sunset_task; Samples.beach_task; Samples.sunset_task]
    /\ Forall (fun chunk => (0 < length chunk)%nat
                            /\ (Z.of_nat (length chunk) <= 2)%Z) chunks.
Proof.
  apply (chunks_partition_the_work_list 2
           [Samples.sunset_task; Samples.beach_task; Samples.sunset_task]).
  lia.
Defined.

Lemma count_where_app {A} (p : A -> bool) (l k : list A) :
  count_where p (l ++ k)%list = count_where p l + count_where p k.
Proof. induction l as [|x l IH]; simpl; [reflexivity | rewrite IH; lia]. Qed.












End BatchFacts.


(** ** What the planner records *)

Module PlanRecordFacts.

Import Complete.

(** A work item is planned from a row with a path, whose file exists. *)
Lemma emitted_source lib cfg uploads_path (fs : file_system) a task :
  plan_attachment lib cfg uploads_path fs a = Emit task ->
  db_file_of uploads_path a = Some (old_file_path task)
  /\ FileSystem.path_exists fs (old_file_path task) = true
  /\ task_attachment_id task = ID a.
Proof.
  unfold plan_attachment, db_file_of.
  destruct (attached_file a) as [file|]; [|discriminate].
  destruct (Text.truthy file); simpl; [|discriminate].
  destruct (FileSystem.path_exists fs (PathLib.os_path_join uploads_path file)) eqn:He;
    simpl; [|discriminate].
  destruct (derive lib cfg a file) as [d|e]; [|discriminate].
  destruct (negb (any_need _)); [discriminate |].
  destruct (build_task lib uploads_path a file d _) as [t|e] eqn:Hb; [|discriminate].
  intros [= <-]. unfold build_task in Hb.
  destruct (url_base lib (guid a)); [|discriminate].
  simpl in Hb. injection Hb as <-. simpl. auto.
Qed.

Lemma plan_seen lib cfg uploads_path (fs : file_system) attachments :
  forall st p,
    p ∈ processed_db_files (fold_left (plan_step lib cfg uploads_path fs) attachments st)
    <-> p ∈ processed_db_files st
        \/ exists a, a ∈ attachments /\ db_file_of uploads_path a = Some p.
Proof.
  induction attachments as [|a rest IH]; intros st p.
  - simpl. split; [auto |]. intros [H | (a & Ha & _)]; [exact H |].
    apply elem_of_nil in Ha. contradiction.
  - cbn [fold_left]. rewrite IH.
    assert (Hstep : p ∈ processed_db_files (plan_step lib cfg uploads_path fs st a)
                    <-> p ∈ processed_db_files st \/ db_file_of uploads_path a = Some p).
    { unfold plan_step.
      destruct (plan_attachment lib cfg uploads_path fs a); simpl;
        destruct (db_file_of uploads_path a) as [q|];
        rewrite ?elem_of_union, ?elem_of_singleton;
        split; intros H; try tauto;
        try (destruct H as [H | H]; [auto | discriminate]);
        try (destruct H as [-> | H]; auto);
        try (destruct H as [H | [= ->]]; auto). }
    rewrite Hstep. split.
    + intros [[H | H] | (b & Hb & Hq)]; [auto | right | right].
      * exists a. split; [apply elem_of_cons; auto | exact H].
      * exists b. split; [apply elem_of_cons; auto | exact Hq].
    + intros [H | (b & Hb & Hq)]; [auto |].
      apply elem_of_cons in Hb as [-> | Hb]; [auto |]. right. eauto.
Qed.

Lemma plan_errors lib cfg uploads_path (fs : file_system) attachments :
  forall st,
    errors (planner_counters (fold_left (plan_step lib cfg uploads_path fs) attachments st))
    = errors (planner_counters st)
      + count_where (fun a => plan_failed (plan_attachment lib cfg uploads_path fs a))
          attachments.
Proof.
  induction attachments as [|a rest IH]; intros st; simpl; [lia |].
  rewrite IH. unfold plan_step.
  destruct (plan_attachment lib cfg uploads_path fs a); simpl; lia.
Qed.

Lemma length_omap_emitted {A} (f : A -> plan_outcome) (l : list A) :
  length (omap (fun a => emitted (f a)) l)
  + count_where (fun a => plan_failed (f a)) l <= length l.
Proof.
  induction l as [|a l IH]; [simpl; lia |].
  change (omap (fun a => emitted (f a)) (a :: l))
    with (match emitted (f a) with
          | Some task => task :: omap (fun a => emitted (f a)) l
          | None => omap (fun a => emitted (f a)) l
          end).
  cbn [count_where length]. destruct (f a); simpl; lia.
Qed.

(** X8.  After the planner loop, the set of seen paths holds the path of
    every row that names a file, and nothing else: also of the rows that were
    skipped because the file is missing or nothing is to do, and of the rows
    whose planning failed.  Every planned work item has an existing source
    file, which is in that set.  The error counter is the number of rows
    whose planning raised, and work items and errors together never exceed
    the number of rows. *)
Theorem planner_records_every_row :
  forall lib cfg uploads_path (fs : file_system) attachments,
    (forall p,
        p ∈ processed_db_files (plan_all lib cfg uploads_path fs attachments)
        <-> exists a, a ∈ attachments /\ db_file_of uploads_path a = Some p)
    /\ Forall (fun task =>
                 FileSystem.path_exists fs (old_file_path task) = true
                 /\ old_file_path task
                    ∈ processed_db_files (plan_all lib cfg uploads_path fs attachments))
         (attachment_tasks (plan_all lib cfg uploads_path fs attachments))
    /\ errors (planner_counters (plan_all lib cfg uploads_path fs attachments))
       = count_where (fun a => plan_failed (plan_attachment lib cfg uploads_path fs a))
           attachments
    /\ length (attachment_tasks (plan_all lib cfg uploads_path fs attachments))
       + errors (planner_counters (plan_all lib cfg uploads_path fs attachments))
       <= length attachments.
Proof.
  intros lib cfg uploads_path fs attachments.
  assert (Hseen : forall p,
             p ∈ processed_db_files (plan_all lib cfg uploads_path fs attachments)
             <-> exists a, a ∈ attachments /\ db_file_of uploads_path a = Some p).
  { intros p. unfold plan_all. rewrite plan_seen. simpl. split.
    - intros [H | H]; [set_solver | exact H].
    - auto. }
  assert (Herr : errors (planner_counters (plan_all lib cfg uploads_path fs attachments))
                 = count_where
                     (fun a => plan_failed (plan_attachment lib cfg uploads_path fs a))
                     attachments).
  { unfold plan_all. rewrite plan_errors. reflexivity. }
  split; [exact Hseen |]. split; [|split; [exact Herr |]].
  - apply Forall_forall. intros task Htask.
    rewrite DestinationFacts.plan_all_tasks in Htask.
    apply list_elem_of_omap in Htask as (a & Ha & Hemit).
    destruct (plan_attachment lib cfg uploads_path fs a) as [| |t] eqn:Hplan;
      simpl in Hemit; try discriminate.
    injection Hemit as ->.
    destruct (emitted_source _ _ _ _ _ _ Hplan) as (Hdb & Hex & _).
    split; [exact Hex |]. apply Hseen. eauto.
  - rewrite Herr, DestinationFacts.plan_all_tasks. apply length_omap_emitted.
Qed.

End PlanRecordFacts.


(** ** The worker of one work item *)

Module WorkerFacts.

Import Complete.

Lemma backup_cleanup_frame (env : environment) (fs : file_system) (temp other : string) :
  other <> temp -> snd (backup_cleanup env fs temp) !! other = fs !! other.
Proof.
  intros Hne. unfold backup_cleanup, FileSystem.remove.
  destruct (FileSystem.path_exists fs temp); [|reflexivity].
  destruct (FileSystem.remove_raises (faults env)); [reflexivity |].
  destruct (fs !! temp); [|reflexivity].
  simpl. apply lookup_delete_ne. congruence.
Qed.

(** The backup stage writes to the backup path and its temporary file only. *)
Lemma backup_frame (env : environment) (fs : file_system) (file_path other : string) :
  other <> backup_path_of env file_path ->
  other <> backup_path_of env file_path ++ ".tmp" ->
  snd (create_backup_copy_threadsafe env fs file_path) !! other = fs !! other.
Proof.
  intros Hb Ht. unfold create_backup_copy_threadsafe.
  set (backup_path := backup_path_of env file_path) in *.
  assert (Hchecked : forall fs1 : file_system,
             fs1 !! other = fs !! other ->
             snd (match FileSystem.getsize fs1 file_path,
                        FileSystem.getsize fs1 (backup_path ++ ".tmp") with
                  | Ok original_size, Ok backup_size =>
                      if (original_size =? backup_size)%nat then
                        match FileSystem.rename (faults env) fs1 (backup_path ++ ".tmp")
                                backup_path with
                        | Ok fs2 => (Some backup_path, fs2)
                        | Raise _ => backup_cleanup env fs1 (backup_path ++ ".tmp")
                        end
                      else
                        match FileSystem.remove (faults env) fs1 (backup_path ++ ".tmp") with
                        | Ok fs2 => (None, fs2)
                        | Raise _ => backup_cleanup env fs1 (backup_path ++ ".tmp")
                        end
                  | _, _ => backup_cleanup env fs1 (backup_path ++ ".tmp")
                  end) !! other = fs !! other).
  { intros fs1 Hsame.
    assert (Hclean : snd (backup_cleanup env fs1 (backup_path ++ ".tmp")) !! other
                     = fs !! other)
      by (rewrite backup_cleanup_frame by exact Ht; exact Hsame).
    destruct (FileSystem.getsize fs1 file_path); [|exact Hclean].
    destruct (FileSystem.getsize fs1 (backup_path ++ ".tmp")); [|exact Hclean].
    destruct (_ =? _)%nat.
    - unfold FileSystem.rename.
      destruct (FileSystem.rename_raises (faults env)); [exact Hclean |].
      destruct (fs1 !! (backup_path ++ ".tmp")); [|exact Hclean].
      simpl. rewrite lookup_insert_ne by congruence.
      rewrite lookup_delete_ne by congruence. exact Hsame.
    - unfold FileSystem.remove.
      destruct (FileSystem.remove_raises (faults env)); [exact Hclean |].
      destruct (fs1 !! (backup_path ++ ".tmp")); [|exact Hclean].
      simpl. rewrite lookup_delete_ne by congruence. exact Hsame. }
  unfold FileSystem.copy2.
  destruct (fs !! file_path).
  - destruct (FileSystem.copy_fault (faults env)) as [|written|[partial|]].
    + apply Hchecked. apply lookup_insert_ne. congruence.
    + apply Hchecked. apply lookup_insert_ne. congruence.
    + rewrite backup_cleanup_frame by exact Ht. apply lookup_insert_ne. congruence.
    + apply backup_cleanup_frame, Ht.
  - apply backup_cleanup_frame, Ht.
Qed.

(** The conversion writes to the output path only, and a successful one
    leaves a file there. *)
Lemma convert_frame (images : image_library) (cfg : config) (fs : file_system)
    (image_path output_path : string) :
  (forall other, other <> output_path ->
     snd (convert_to_webp_threadsafe images cfg fs image_path output_path) !! other
     = fs !! other)
  /\ (success (fst (convert_to_webp_threadsafe images cfg fs image_path output_path)) = true ->
      is_Some (snd (convert_to_webp_threadsafe images cfg fs image_path output_path)
                 !! output_path)).
Proof.
  unfold convert_to_webp_threadsafe.
  destruct (negb (is_valid _)); [split; [reflexivity | discriminate] |].
  destruct (encode images _ _ _ _) as [first|e]; [|split; [reflexivity | discriminate]].
  cbv zeta.
  destruct (FileSystem.path_exists _ output_path).
  2:{ split; [|discriminate]. intros other Hne. simpl. apply lookup_insert_ne. congruence. }
  destruct (exceeds_mb (length first) _).
  - destruct (encode images _ fallback_quality fallback_method false) as [second|e].
    + destruct (FileSystem.getsize _ image_path) as [[|n]|e]; simpl;
        (split; [intros other Hne; rewrite !lookup_insert_ne by congruence; reflexivity |]);
        intros _; rewrite lookup_insert_eq; eauto.
    + simpl. split; [|discriminate].
      intros other Hne. apply lookup_insert_ne. congruence.
  - destruct (FileSystem.getsize _ image_path) as [[|n]|e]; simpl;
      (split; [intros other Hne; rewrite !lookup_insert_ne by congruence; reflexivity |]);
      intros _; rewrite lookup_insert_eq; eauto.
Qed.

(** Embedding metadata rewrites the image in place. *)
Lemma iptc_frame (env : environment) (fs : file_system) (image_path : string) :
  (forall other, other <> image_path ->
     snd (write_enhanced_iptc_threadsafe env fs image_path) !! other = fs !! other)
  /\ (is_Some (fs !! image_path) ->
      is_Some (snd (write_enhanced_iptc_threadsafe env fs image_path) !! image_path)).
Proof.
  unfold write_enhanced_iptc_threadsafe.
  destruct (negb (iptc_available env)); [auto |].
  destruct (fs !! image_path) as [c|] eqn:Hc; [|simpl; rewrite Hc; auto].
  destruct (iptc_embed env c); simpl.
  - split; [intros other Hne; apply lookup_insert_ne; congruence |].
    intros _. rewrite lookup_insert_eq. eauto.
  - rewrite Hc. auto.
Qed.

(** The stages after the conversion: files, counters and flags. *)
Lemma embed_and_persist_effects (env : environment) (task : task_data)
    (u : update_info) (w : world) :
  (forall other, other <> optimized_file_path task ->
     fs (snd (embed_and_persist env task u w)) !! other = fs w !! other)
  /\ (is_Some (fs w !! optimized_file_path task) ->
      is_Some (fs (snd (embed_and_persist env task u w)) !! optimized_file_path task))
  /\ processed (tally (snd (embed_and_persist env task u w)))
     + errors (tally (snd (embed_and_persist env task u w)))
     = S (processed (tally w) + errors (tally w))
  /\ (processed (tally (snd (embed_and_persist env task u w))) <> processed (tally w) ->
      database_updated (stages (fst (embed_and_persist env task u w))) = Some true)
  /\ webp_converted (stages (fst (embed_and_persist env task u w)))
     = webp_converted (stages u).
Proof.
  unfold embed_and_persist.
  destruct (iptc_frame env (fs w) (optimized_file_path task)) as [Hframe Hkeep].
  destruct (iptc_available env && has_keyword_list u).
  - destruct (write_enhanced_iptc_threadsafe env (fs w) (optimized_file_path task))
      as [[|] fs1]; simpl in Hframe, Hkeep;
      destruct (update_database_threadsafe (now_iso env) (conn w) _) as [[|] conn1];
      simpl; repeat split; auto; try lia; intros H; lia.
  - destruct (update_database_threadsafe (now_iso env) (conn w) _) as [[|] conn1];
      simpl; repeat split; auto; try lia; intros H; lia.
Qed.

Lemma process_single_attachment_frame (env : environment) (cfg : config)
    (dry_run : bool) (task : task_data) (w : world) (other : string) :
  other <> optimized_file_path task ->
  other <> backup_path_of env (old_file_path task) ->
  other <> backup_path_of env (old_file_path task) ++ ".tmp" ->
  fs (snd (process_single_attachment env cfg dry_run task w)) !! other = fs w !! other.
Proof.
  intros Ho Hb Ht. unfold process_single_attachment.
  destruct (negb (is_valid _)); [reflexivity |].
  destruct dry_run; [reflexivity |]. cbn [negb].
  pose proof (backup_frame env (fs w) (old_file_path task) other Hb Ht) as Hbackup.
  destruct (create_backup_copy_threadsafe env (fs w) (old_file_path task))
    as [[made|] fs1]; simpl in Hbackup; [|exact Hbackup].
  destruct (convert_frame (images env) cfg fs1 (old_file_path task)
              (optimized_file_path task)) as [Hconvert _].
  specialize (Hconvert other Ho).
  destruct (convert_to_webp_threadsafe (images env) cfg fs1 (old_file_path task)
              (optimized_file_path task)) as [c fs2]; simpl in Hconvert.
  destruct (success c).
  - match goal with
    | |- fs (snd (embed_and_persist env task ?u ?w')) !! other = _ =>
        destruct (embed_and_persist_effects env task u w') as [Hembed _];
        rewrite (Hembed other Ho)
    end.
    simpl. congruence.
  - simpl. congruence.
Qed.

(** X9.  Processing a work item writes to three paths only: the destination
    of the item, the backup of its source and the temporary file of that
    backup.  Every other file is left as it was, whether the item succeeds
    or fails at any stage; in particular the source file itself is never
    removed or rewritten unless it is its own destination. *)
Theorem worker_writes_only_its_own_files :
  forall env cfg dry_run task w,
    (forall other,
        other <> optimized_file_path task ->
        other <> backup_path_of env (old_file_path task) ->
        other <> backup_path_of env (old_file_path task) ++ ".tmp" ->
        fs (snd (process_single_attachment env cfg dry_run task w)) !! other
        = fs w !! other)
    /\ (optimized_file_path task <> old_file_path task ->
        fs (snd (process_single_attachment env cfg dry_run task w)) !! old_file_path task
        = fs w !! old_file_path task).
Proof.
  intros env cfg dry_run task w. split.
  - intros other. apply process_single_attachment_frame.
  - intros Hne. apply process_single_attachment_frame.
    + congruence.
    + intros H. symmetry in H. exact (BackupFacts.backup_is_not_source _ _ H).
    + intros H. symmetry in H. exact (BackupFacts.temp_is_not_source _ _ H).
Qed.

Lemma worker_writes_only_its_own_files_witness :
  fs (snd (process_single_attachment Samples.worker_env (Samples.complete_config []) false
             Samples.sunset_task Samples.sunset_world)) !! "/up/2024/sunset.jpg"
  = Some [Byte.x2a]
  /\ is_Some (fs (snd (process_single_attachment Samples.worker_env
                         (Samples.complete_config []) false
                         Samples.sunset_task Samples.sunset_world))
               !! "/up/2024/sunset.webp").
Proof.
  split.
  - exact (proj2 (worker_writes_only_its_own_files Samples.worker_env
                    (Samples.complete_config []) false Samples.sunset_task
                    Samples.sunset_world) ltac:(discriminate)).
  - vm_compute. eauto.
Defined.

(** X10.  An item that fails validation is returned as it came, and no
    counter moves.  An item that passes validation is counted exactly once,
    as processed or as an error.  In a live run an item is counted as
    processed only when its destination file exists afterwards and its result
    carries the flags of a conversion and of a store update. *)
Theorem worker_counts_each_valid_item_once :
  forall env cfg dry_run task w,
    (is_valid (validate_image_for_optimization (images env) cfg (fs w) (old_file_path task))
     = false ->
     process_single_attachment env cfg dry_run task w = (task_update_info task, w))
    /\ (is_valid (validate_image_for_optimization (images env) cfg (fs w)
                    (old_file_path task)) = true ->
        processed (tally (snd (process_single_attachment env cfg dry_run task w)))
        + errors (tally (snd (process_single_attachment env cfg dry_run task w)))
        = S (processed (tally w) + errors (tally w)))
    /\ (dry_run = false ->
        processed (tally (snd (process_single_attachment env cfg dry_run task w)))
        <> processed (tally w) ->
        FileSystem.path_exists
          (fs (snd (process_single_attachment env cfg dry_run task w)))
          (optimized_file_path task) = true
        /\ webp_converted (stages (fst (process_single_attachment env cfg dry_run task w)))
           = Some true
        /\ database_updated (stages (fst (process_single_attachment env cfg dry_run task w)))
           = Some true).
Proof.
  intros env cfg dry_run task w. unfold process_single_attachment.
  destruct (is_valid _); cbn [negb].
  2:{ split; [reflexivity |]. split; [discriminate |]. intros _ H. contradiction. }
  split; [discriminate |].
  destruct dry_run; cbn [negb].
  { split; [intros _; simpl; lia |]. discriminate. }
  destruct (create_backup_copy_threadsafe env (fs w) (old_file_path task))
    as [[made|] fs1].
  2:{ split; [intros _; simpl; lia |]. intros _ H. contradiction. }
  destruct (convert_frame (images env) cfg fs1 (old_file_path task)
              (optimized_file_path task)) as [_ Hout].
  destruct (convert_to_webp_threadsafe (images env) cfg fs1 (old_file_path task)
              (optimized_file_path task)) as [c fs2]; simpl in Hout.
  destruct (success c).
  2:{ split; [intros _; simpl; lia |]. intros _ H. contradiction. }
  match goal with
  | |- context [embed_and_persist env task ?u ?w'] =>
      destruct (embed_and_persist_effects env task u w') as (_ & Hkeep & Hcount & Hdb & Hweb)
  end.
  simpl in Hkeep, Hcount, Hdb, Hweb.
  split; [intros _; rewrite Hcount; reflexivity |].
  intros _ Hmoved. split; [|split].
  - apply FileSystemFacts.path_exists_true, Hkeep, Hout. reflexivity.
  - exact Hweb.
  - apply Hdb, Hmoved.
Qed.

Lemma worker_counts_each_valid_item_once_witness :
  FileSystem.path_exists
    (fs (snd (process_single_attachment Samples.worker_env (Samples.complete_config [])
                false Samples.sunset_task Samples.sunset_world)))
    "/up/2024/sunset.webp" = true
  /\ webp_converted
       (stages (fst (process_single_attachment Samples.worker_env
                       (Samples.complete_config []) false
                       Samples.sunset_task Samples.sunset_world))) = Some true
  /\ database_updated
       (stages (fst (process_single_attachment Samples.worker_env
                       (Samples.complete_config []) false
                       Samples.sunset_task Samples.sunset_world))) = Some true.
Proof.
  apply (proj2 (proj2 (worker_counts_each_valid_item_once Samples.worker_env
                         (Samples.complete_config []) false Samples.sunset_task
                         Samples.sunset_world))).
  - reflexivity.
  - vm_compute. discriminate.
Defined.

End WorkerFacts.


(** ** The class-based optimizer: slugs, counters and files *)

Module AttachmentFacts.

Import Enhanced.

Lemma query_result {A} (read : Store.database -> A) (c : Store.connection) (x : A)
    (c' : Store.connection) :
  Store.query read c = (Ok x, c') ->
  x = read (Store.working c) /\ Store.working c' = Store.working c.
Proof.
  unfold Store.query. destruct (Store.fails c _); [discriminate |].
  intros [= <- <-]. split; reflexivity.
Qed.

Lemma first_free_slug_result rounds :
  forall counter slug id c s c',
    first_free_slug rounds counter slug id c = (Ok s, c') ->
    s = slug ++ "-" ++ Text.str_of_Z id
    \/ (Store.slug_taken (Store.working c) s id = false
        /\ exists k, (counter <= k < counter + rounds)%nat
                     /\ s = slug ++ "-" ++ Text.str_of_nat k).
Proof.
  induction rounds as [|rounds IH]; intros counter slug id c s c'.
  - simpl. intros [= <- _]. left. reflexivity.
  - cbn [first_free_slug].
    destruct (Store.query _ c) as [[[|]|e] c1] eqn:Hq; [| |discriminate].
    + apply query_result in Hq as [_ Hw]. intros H.
      apply IH in H as [H | (Hfree & k & Hk & Hs)]; [left; exact H |].
      right. rewrite <- Hw. split; [exact Hfree |]. exists k. split; [lia | exact Hs].
    + apply query_result in Hq as [Hfree _]. intros [= <- _].
      right. split; [symmetry; exact Hfree |]. exists counter. split; [lia | reflexivity].
Qed.

(** X11.  The slug [ensure_unique_slug] returns is the requested slug, or
    the slug with a counter from 1 to 100, and then no other post of the
    store has it; or it is the fallback [slug-id], which is returned
    unchecked when all hundred candidates are taken or a query fails.  A slug
    that no other post has is returned as it is when the query succeeds. *)
Theorem unique_slug_is_free_or_fallback :
  forall slug id conn,
    (fst (ensure_unique_slug slug id conn) = slug ++ "-" ++ Text.str_of_Z id
     \/ (Store.slug_taken (Store.working conn) (fst (ensure_unique_slug slug id conn)) id
         = false
         /\ (fst (ensure_unique_slug slug id conn) = slug
             \/ exists k, (1 <= k <= 100)%nat
                          /\ fst (ensure_unique_slug slug id conn)
                             = slug ++ "-" ++ Text.str_of_nat k)))
    /\ (Store.fails conn (Store.executed conn) = false ->
        Store.slug_taken (Store.working conn) slug id = false ->
        fst (ensure_unique_slug slug id conn) = slug).
Proof.
  intros slug id conn. unfold ensure_unique_slug. split.
  - destruct (Store.query _ conn) as [[[|]|e] c1] eqn:Hq.
    + apply query_result in Hq as [_ Hw].
      destruct (first_free_slug 100 1 slug id c1) as [[s|e] c2] eqn:Hf;
        [|left; reflexivity].
      apply first_free_slug_result in Hf as [H | (Hfree & k & Hk & Hs)];
        [left; exact H |].
      right. simpl. rewrite <- Hw. split; [exact Hfree |].
      right. exists k. split; [lia | exact Hs].
    + apply query_result in Hq as [Hfree _]. right. simpl. auto.
    + left. reflexivity.
  - intros Hok Hfree. unfold Store.query. rewrite Hok, Hfree. reflexivity.
Qed.

Lemma unique_slug_is_free_or_fallback_witness :
  fst (ensure_unique_slug "sunset" 7
         (Samples.session Samples.sunset_database true (fun _ => false))) = "sunset".
Proof.
  apply (proj2 (unique_slug_is_free_or_fallback "sunset" 7
                  (Samples.session Samples.sunset_database true (fun _ => false))));
    reflexivity.
Defined.

Lemma add_metadata_outcomes env cfg dry_run st file :
  outcomes (snd (add_metadata_with_exiftool env cfg dry_run st file)) = outcomes st.
Proof.
  unfold add_metadata_with_exiftool.
  destruct (negb (metadata_enabled _)); [reflexivity |].
  destruct (negb dry_run); [|reflexivity].
  destruct (fs st !! file) as [c|]; [|reflexivity].
  destruct (exiftool env c); reflexivity.
Qed.

Lemma permalink_outcomes cfg dry_run id title st :
  outcomes (snd (update_attachment_permalink cfg dry_run id title st)) = outcomes st.
Proof.
  unfold update_attachment_permalink.
  destruct (negb (permalink_enabled _)); [reflexivity |].
  destruct (ensure_unique_slug _ id _) as [slug c1].
  destruct (negb dry_run); [|reflexivity].
  destruct (Store.execute _ c1) as [[u|e] c2]; [|reflexivity].
  destruct (Store.commit c2) as [[u'|e] c3]; reflexivity.
Qed.

Lemma persist_and_unlink_outcomes env a t ops st :
  outcomes (snd (persist_and_unlink env a t ops st)) = outcomes st.
Proof.
  unfold persist_and_unlink.
  destruct (update_database_record _ _ _ _) as [updated conn'].
  destruct (_ && _); [|reflexivity].
  destruct (FileSystem.remove _ _ _); reflexivity.
Qed.

Lemma process_live_outcomes env cfg a t st :
  outcomes (snd (process_live env cfg a t st)) = outcomes st.
Proof.
  unfold process_live, backup_original.
  assert (Hrest : forall ops st1,
             outcomes st1 = outcomes st ->
             outcomes
               (snd match convert_to_webp env cfg (fs st1)
                            (PathLib.to_string (current_full_path t))
                            (PathLib.to_string (new_file_path t)) with
                    | ((false, _, _), fs2) => (Ok (false, ops), with_fs fs2 st1)
                    | ((true, O, _), fs2) => (Raise ZeroDivisionError, with_fs fs2 st1)
                    | ((true, S n, new_size), fs2) =>
                        after_conversion env cfg a t (ops ++ [ConvertedToWebP])%list
                          (with_tally
                             (count_converted (Z.of_nat (S n) - Z.of_nat new_size)
                                (tally st1)) (with_fs fs2 st1))
                    end) = outcomes st).
  { intros ops st1 H1.
    destruct (convert_to_webp env cfg (fs st1) _ _) as [[[[|] [|n]] new_size] fs2];
      try exact H1.
    unfold after_conversion.
    match goal with
    | |- context [add_metadata_with_exiftool env cfg false ?s ?f] =>
        pose proof (add_metadata_outcomes env cfg false s f) as Hm;
        destruct (add_metadata_with_exiftool env cfg false s f) as [ms sm]
    end.
    pose proof (permalink_outcomes cfg false (ID a) (title_of a) sm) as Hp.
    destruct (update_attachment_permalink cfg false (ID a) (title_of a) sm) as [ps sp].
    rewrite persist_and_unlink_outcomes. simpl in Hm, Hp. rewrite Hp, Hm. exact H1. }
  destruct (backup_originals (optimization cfg)); [|apply Hrest; reflexivity].
  destruct (FileSystem.copy2 _ _ _ _) as [[u|e] fs1]; [|reflexivity].
  apply Hrest. reflexivity.
Qed.

Lemma process_dry_outcomes cfg a st :
  outcomes (snd (process_dry cfg a st)) = outcomes st.
Proof.
  unfold process_dry.
  pose proof (permalink_outcomes cfg true (ID a) (title_of a) st) as Hp.
  destruct (update_attachment_permalink cfg true (ID a) (title_of a) st) as [ps sp].
  exact Hp.
Qed.

Lemma process_existing_outcomes env cfg dry_run uploads_path a file st :
  outcomes (snd (process_existing env cfg dry_run uploads_path a file st)) = outcomes st.
Proof.
  unfold process_existing.
  destruct (targets_of _ cfg uploads_path a file) as [t|e]; [|reflexivity].
  destruct dry_run; [apply process_dry_outcomes | apply process_live_outcomes].
Qed.

Lemma process_attachment_outcomes env cfg dry_run uploads_path a st :
  processed (tally (snd (process_attachment env cfg dry_run uploads_path a st)))
  = (processed (tally st)
     + if returned (fst (process_attachment env cfg dry_run uploads_path a st))
       then 1 else 0)%nat
  /\ (errors (tally (snd (process_attachment env cfg dry_run uploads_path a st)))
      = errors (tally st)
      \/ errors (tally (snd (process_attachment env cfg dry_run uploads_path a st)))
         = S (errors (tally st))
         /\ returned (fst (process_attachment env cfg dry_run uploads_path a st)) = false).
Proof.
  unfold process_attachment.
  destruct (file_path a) as [file|]; [|simpl; split; [lia | auto]].
  destruct (negb (Text.truthy file)); [simpl; split; [lia | auto] |].
  cbv zeta. destruct (negb (FileSystem.path_exists _ _)); [simpl; split; [lia | auto] |].
  pose proof (process_existing_outcomes env cfg dry_run uploads_path a file st) as Hstage.
  destruct (process_existing env cfg dry_run uploads_path a file st)
    as [[[[|] ops]|e] st'];
    simpl in Hstage; injection Hstage as Hp He; simpl; rewrite ?Hp, ?He;
    split; auto; lia.
Qed.

(** X12.  [process_attachment] returns [True] exactly when it counts the
    attachment as processed, and it counts an attachment at most once: the
    counter of processed attachments grows by one when it returns [True] and
    not at all otherwise; the error counter grows by at most one, and only
    when it returns [False]. *)
Theorem attachment_is_counted_as_returned :
  forall env cfg dry_run uploads_path a st,
    processed (tally (snd (process_attachment env cfg dry_run uploads_path a st)))
    = (processed (tally st)
       + if returned (fst (process_attachment env cfg dry_run uploads_path a st))
         then 1 else 0)%nat
    /\ (errors (tally (snd (process_attachment env cfg dry_run uploads_path a st)))
        = errors (tally st)
        \/ errors (tally (snd (process_attachment env cfg dry_run uploads_path a st)))
           = S (errors (tally st))
           /\ returned (fst (process_attachment env cfg dry_run uploads_path a st)) = false).
Proof. exact process_attachment_outcomes. Qed.

Lemma fold_outcomes env cfg dry_run uploads_path attachments :
  forall st,
    let final :=
      fold_left (fun st a => snd (process_attachment env cfg dry_run uploads_path a st))
        attachments st in
    (processed (tally st) <= processed (tally final))%nat
    /\ (errors (tally st) <= errors (tally final))%nat
    /\ (processed (tally final) + errors (tally final)
        <= processed (tally st) + errors (tally st) + length attachments)%nat.
Proof.
  induction attachments as [|a rest IH]; intros st; cbn [fold_left length].
  - cbv zeta. lia.
  - cbv zeta. specialize (IH (snd (process_attachment env cfg dry_run uploads_path a st))).
    cbv zeta in IH.
    destruct (process_attachment_outcomes env cfg dry_run uploads_path a st)
      as [Hp He].
    destruct (returned (fst (process_attachment env cfg dry_run uploads_path a st)));
      destruct He as [He | [He Hr]]; try discriminate; lia.
Qed.

(** X13.  A run over the inventory counts every attachment at most once:
    the counters of processed attachments and of errors never go down, and
    together they grow by at most the number of attachments of the inventory.
    The run returns [False] exactly when the inventory is empty (which it
    also is when its query fails), and then it changes no file and no
    counter. *)
Theorem run_counts_each_attachment_at_most_once :
  forall env cfg dry_run uploads_path select st,
    (processed (tally st)
     <= processed (tally (snd (run_optimization env cfg dry_run uploads_path select st))))%nat
    /\ (errors (tally st)
        <= errors (tally (snd (run_optimization env cfg dry_run uploads_path select st))))%nat
    /\ (processed (tally (snd (run_optimization env cfg dry_run uploads_path select st)))
        + errors (tally (snd (run_optimization env cfg dry_run uploads_path select st)))
        <= processed (tally st) + errors (tally st)
           + length (fst (get_media_attachments select (db_connection st))))%nat
    /\ (fst (run_optimization env cfg dry_run uploads_path select st) = false
        <-> fst (get_media_attachments select (db_connection st)) = [])
    /\ (fst (run_optimization env cfg dry_run uploads_path select st) = false ->
        fs (snd (run_optimization env cfg dry_run uploads_path select st)) = fs st
        /\ tally (snd (run_optimization env cfg dry_run uploads_path select st)) = tally st).
Proof.
  intros env cfg dry_run uploads_path select st. unfold run_optimization.
  destruct (get_media_attachments select (db_connection st)) as [attachments conn'].
  cbn [fst]. destruct attachments as [|a rest].
  - simpl. repeat split; auto; lia.
  - pose proof (fold_outcomes env cfg dry_run uploads_path (a :: rest)
                  (with_connection conn' st)) as H.
    cbv zeta in H. cbn [fst snd]. simpl tally in H at 1 3 5 6.
    destruct H as (H1 & H2 & H3).
    repeat split; try assumption; try discriminate.
Qed.

Lemma copy2_keeps_files (faults : FileSystem.os_faults) (fs0 : file_system)
    (src dst path : string) :
  is_Some (fs0 !! path) -> is_Some (snd (FileSystem.copy2 faults fs0 src dst) !! path).
Proof.
  intros H. unfold FileSystem.copy2.
  destruct (fs0 !! src); [|exact H].
  destruct (FileSystem.copy_fault faults) as [|written|[partial|]]; simpl;
    try exact H;
    (destruct (decide (dst = path)) as [->|Hne];
     [rewrite lookup_insert_eq; eauto | rewrite lookup_insert_ne by exact Hne; exact H]).
Qed.

Lemma convert_keeps_files env cfg (fs0 : file_system) (source target path : string) :
  is_Some (fs0 !! path) ->
  is_Some (snd (convert_to_webp env cfg fs0 source target) !! path).
Proof.
  intros H. unfold convert_to_webp.
  destruct (negb (pil_available env)); [exact H |].
  destruct (fs0 !! source) as [image|]; [|exact H].
  destruct (encode env image _ _); [|exact H]. simpl.
  destruct (decide (target = path)) as [->|Hne];
    [rewrite lookup_insert_eq; eauto | rewrite lookup_insert_ne by exact Hne; exact H].
Qed.

Lemma persist_and_unlink_keeps_image env a t ops st :
  well_formed (current_full_path t) ->
  well_formed (new_file_path t) ->
  image_kept t st -> image_kept t (snd (persist_and_unlink env a t ops st)).
Proof.
  intros Hwc Hwn Hkept. unfold persist_and_unlink.
  destruct (update_database_record _ _ _ _) as [updated conn'].
  destruct (FileSystem.path_exists _ _ && negb (PathLib.eqb _ _)) eqn:Hguard;
    [|exact Hkept].
  apply andb_prop in Hguard as [Hnew Hdiff]. apply negb_true_iff in Hdiff.
  apply FileSystemFacts.path_exists_true in Hnew. simpl in Hnew.
  unfold FileSystem.remove.
  destruct (FileSystem.remove_raises (os env)); [exact Hkept |]. simpl.
  destruct (fs st !! PathLib.to_string (current_full_path t)); [|exact Hkept].
  right. simpl. rewrite lookup_delete_ne; [exact Hnew |].
  intros E. apply PathFacts.to_string_inj in E; [|assumption..].
  exact (PathFacts.eqb_false _ _ Hdiff E).
Qed.

Lemma keeps_files_image (t : targets) (st st' : state) :
  (forall path, is_Some (fs st !! path) -> is_Some (fs st' !! path)) ->
  image_kept t st -> image_kept t st'.
Proof. intros H [Hc | Hn]; [left | right]; apply H; assumption. Qed.

Lemma process_live_keeps_image env cfg a t st :
  well_formed (current_full_path t) ->
  well_formed (new_file_path t) ->
  image_kept t st -> image_kept t (snd (process_live env cfg a t st)).
Proof.
  intros Hwc Hwn Hkept. unfold process_live.
  assert (Hbackup : image_kept t (snd (backup_original env cfg t st))).
  { unfold backup_original. destruct (backup_originals (optimization cfg)); [|exact Hkept].
    eapply (keeps_files_image t st); [|exact Hkept].
    intros path Hp.
    pose proof (copy2_keeps_files (os env) (fs st)
                  (PathLib.to_string (current_full_path t))
                  (PathLib.to_string (backup_path_of env (current_full_path t)))
                  path Hp) as H.
    destruct (FileSystem.copy2 _ _ _ _) as [[u|e] fs1]; exact H. }
  destruct (backup_original env cfg t st) as [[ops|e] st1]; [|exact Hbackup].
  simpl in Hbackup.
  assert (Hconv : image_kept t
                    (with_fs (snd (convert_to_webp env cfg (fs st1)
                                     (PathLib.to_string (current_full_path t))
                                     (PathLib.to_string (new_file_path t)))) st1)).
  { eapply (keeps_files_image t st1); [|exact Hbackup].
    intros path Hp. simpl. apply convert_keeps_files, Hp. }
  destruct (convert_to_webp env cfg (fs st1) _ _) as [[[[|] [|n]] new_size] fs2];
    simpl in Hconv; try exact Hconv.
  unfold after_conversion.
  match goal with
  | |- context [add_metadata_with_exiftool env cfg false ?s ?f] =>
      assert (Hmeta : image_kept t (snd (add_metadata_with_exiftool env cfg false s f)))
        by (eapply (keeps_files_image t s); [|exact Hconv];
            intros path Hp; apply ConsistencyFacts.add_metadata_keeps_files, Hp);
      destruct (add_metadata_with_exiftool env cfg false s f) as [ms sm]
  end.
  simpl in Hmeta.
  pose proof (ConsistencyFacts.permalink_keeps_files cfg false (ID a) (title_of a) sm)
    as Hperm.
  destruct (update_attachment_permalink cfg false (ID a) (title_of a) sm) as [ps sp].
  simpl in Hperm.
  apply persist_and_unlink_keeps_image; [assumption.. |].
  unfold image_kept. rewrite Hperm. exact Hmeta.
Qed.

(** X14.  [process_attachment] never loses the image: for a well-formed
    uploads directory and an attachment whose file is on disk, the file is
    afterwards on disk under its old path or under the new one, whether the
    attachment is processed, fails at any stage, or an operation raises. *)
Theorem image_is_never_lost :
  forall env cfg dry_run uploads_path a st file,
    well_formed uploads_path ->
    file_path a = Some file ->
    is_Some (fs st !! PathLib.to_string (PathLib.div uploads_path file)) ->
    is_Some (fs (snd (process_attachment env cfg dry_run uploads_path a st))
               !! PathLib.to_string (PathLib.div uploads_path file))
    \/ exists t,
        targets_of (template env) cfg uploads_path a file = Ok t
        /\ is_Some (fs (snd (process_attachment env cfg dry_run uploads_path a st))
                      !! PathLib.to_string (new_file_path t)).
Proof.
  intros env cfg dry_run uploads_path a st file Hwf Hfile Hthere.
  unfold process_attachment. rewrite Hfile.
  destruct (negb (Text.truthy file)); [left; exact Hthere |].
  cbv zeta. destruct (negb (FileSystem.path_exists _ _)); [left; exact Hthere |].
  unfold process_existing.
  destruct (targets_of (template env) cfg uploads_path a file) as [t|e] eqn:Ht;
    [|left; exact Hthere].
  destruct (ConsistencyFacts.targets_of_ok _ _ _ _ _ _ Ht) as (Hc & Hn & _).
  assert (Hwc : well_formed (current_full_path t))
    by (rewrite Hc; apply PathFacts.div_well_formed, Hwf).
  assert (Hwn : well_formed (new_file_path t)).
  { rewrite Hn. apply PathFacts.div_well_formed, PathFacts.parent_well_formed.
    rewrite <- Hc. exact Hwc. }
  assert (Hkept : image_kept t st) by (left; rewrite Hc; exact Hthere).
  assert (Hstage : image_kept t (snd (if dry_run then process_dry cfg a st
                                      else process_live env cfg a t st))).
  { destruct dry_run.
    - unfold process_dry.
      pose proof (ConsistencyFacts.permalink_keeps_files cfg true (ID a) (title_of a) st)
        as Hperm.
      destruct (update_attachment_permalink cfg true (ID a) (title_of a) st) as [ps sp].
      simpl in *. unfold image_kept. rewrite Hperm. exact Hkept.
    - apply process_live_keeps_image; assumption. }
  assert (Hend : forall st', image_kept t st' ->
            is_Some (fs st' !! PathLib.to_string (PathLib.div uploads_path file))
            \/ exists t', Ok t = Ok t'
                          /\ is_Some (fs st' !! PathLib.to_string (new_file_path t'))).
  { intros st' [Hold | Hnew]; [left; rewrite <- Hc; exact Hold |].
    right. exists t. split; [reflexivity | exact Hnew]. }
  destruct (if dry_run then _ else _) as [[[[|] ops]|e] st']; apply Hend, Hstage.
Qed.

Lemma image_is_never_lost_witness :
  is_Some (fs (snd (process_attachment Samples.enhanced_env (Samples.enhanced_config true)
                      false Samples.uploads Samples.sunset_row_enhanced
                      (Samples.enhanced_state Samples.persist_refused)))
             !! "/up/2024/sunset.jpg")
  \/ is_Some (fs (snd (process_attachment Samples.enhanced_env
                         (Samples.enhanced_config true)
                         false Samples.uploads Samples.sunset_row_enhanced
                         (Samples.enhanced_state Samples.persist_refused)))
                !! "/up/2024/sunset.webp").
Proof.
  assert (Hwf : well_formed Samples.uploads) by repeat constructor.
  assert (Hthere : is_Some (fs (Samples.enhanced_state Samples.persist_refused)
                              !! PathLib.to_string
                                   (PathLib.div Samples.uploads "2024/sunset.jpg")))
    by (vm_compute; eauto).
  destruct (image_is_never_lost Samples.enhanced_env (Samples.enhanced_config true) false
              Samples.uploads Samples.sunset_row_enhanced
              (Samples.enhanced_state Samples.persist_refused) "2024/sunset.jpg"
              Hwf eq_refl Hthere) as [Hold | (t & Ht & Hnew)].
  - left. exact Hold.
  - right. vm_compute in Ht. injection Ht as <-. exact Hnew.
Defined.

End AttachmentFacts.


(** ** The table prefix *)

Module PrefixFacts.

Lemma ends_with_split (suffix s : string) :
  Text.ends_with suffix s = true -> exists p, s = p ++ suffix.
Proof.
  induction s as [|c s IH]; cbn [Text.ends_with].
  - rewrite orb_false_r. intros H. apply String.eqb_eq in H. exists "". exact H.
  - intros H. apply orb_prop in H as [H | H].
    + apply String.eqb_eq in H. exists "". exact H.
    + destruct (IH H) as [p ->]. exists (String c p). reflexivity.
Qed.

Lemma string_take_prefix (p t : string) :
  Text.string_take (String.length p) (p ++ t) = p.
Proof.
  induction p as [|c p IH]; [destruct t; reflexivity |].
  rewrite TextFacts.append_cons. simpl. rewrite IH. reflexivity.
Qed.

(** Cutting the five last characters off a name that ends with [posts]
    leaves what stands before [posts]. *)
Lemma prefix_of_posts (table_name : string) :
  Text.ends_with "posts" table_name = true ->
  Text.string_slice_to (-5) table_name ++ "posts" = table_name.
Proof.
  intros H. apply ends_with_split in H as [p ->].
  unfold Text.string_slice_to, Text.stop_index.
  rewrite TextFacts.length_append. simpl.
  replace (String.length p + 5 - Z.to_nat (- (-5)))%nat with (String.length p) by lia.
  rewrite string_take_prefix. reflexivity.
Qed.

Lemma find_posts (tables : list string) (table_name : string) :
  List.find (Text.ends_with "posts") tables = Some table_name ->
  table_name ∈ tables /\ Text.ends_with "posts" table_name = true.
Proof.
  intros H. apply find_some in H as [Hin He]. split; [|exact He].
  apply list_elem_of_In, Hin.
Qed.

Lemma probe_prefix_result show_tables_like tables :
  forall conn,
    (fst (Enhanced.probe_prefix show_tables_like tables conn) = "wp_"
     \/ (fst (Enhanced.probe_prefix show_tables_like tables conn) ++ "posts" ∈ tables
         /\ show_tables_like
              (fst (Enhanced.probe_prefix show_tables_like tables conn) ++ "options")
              (Store.working conn) <> []))
    /\ same_store conn (snd (Enhanced.probe_prefix show_tables_like tables conn)).
Proof.
  induction tables as [|table_name rest IH]; intros conn.
  - simpl. split; [auto | apply DryRunFacts.same_store_refl].
  - cbn [Enhanced.probe_prefix].
    destruct (Text.ends_with "posts" table_name) eqn:He.
    + pose proof (DryRunFacts.query_reads_only
                    (show_tables_like (Text.string_slice_to (-5) table_name ++ "options"))
                    conn) as Hsame.
      destruct (Store.query _ conn) as [[[|found more]|e] conn'] eqn:Hq; simpl in Hsame.
      * destruct (IH conn') as [Hres Hs]. split.
        -- destruct Hres as [H | [H1 H2]]; [left; exact H |].
           right. split; [apply elem_of_cons; right; exact H1 |].
           rewrite <- (proj2 Hsame). exact H2.
        -- eapply DryRunFacts.same_store_trans; eassumption.
      * split; [|exact Hsame]. right. simpl. split.
        -- rewrite (prefix_of_posts _ He). apply elem_of_cons. left. reflexivity.
        -- apply AttachmentFacts.query_result in Hq as [Hq _]. rewrite <- Hq. discriminate.
      * split; [left; reflexivity | exact Hsame].
    + destruct (IH conn) as [Hres Hs]. split; [|exact Hs].
      destruct Hres as [H | [H1 H2]]; [left; exact H |].
      right. split; [apply elem_of_cons; right; exact H1 | exact H2].
Qed.

(** X15.  Both optimizers detect the table prefix without ever failing and
    without writing to the store.  The prefix is [wp_], or it is what stands
    before [posts] in the name of a table the server listed; the class-based
    optimizer accepts such a prefix only if the server also lists a table for
    [prefix + "options"].  A failed query gives [wp_]. *)
Theorem table_prefix_is_listed_or_default :
  (forall show_tables conn,
      (fst (Complete.get_table_prefix show_tables conn) = "wp_"
       \/ fst (Complete.get_table_prefix show_tables conn) ++ "posts"
          ∈ show_tables (Store.working conn))
      /\ same_store conn (snd (Complete.get_table_prefix show_tables conn))
      /\ (Store.fails conn (Store.executed conn) = true ->
          fst (Complete.get_table_prefix show_tables conn) = "wp_"))
  /\ (forall show_tables_like conn,
         (fst (Enhanced.get_table_prefix show_tables_like conn) = "wp_"
          \/ (fst (Enhanced.get_table_prefix show_tables_like conn) ++ "posts"
              ∈ show_tables_like "%posts" (Store.working conn)
              /\ show_tables_like
                   (fst (Enhanced.get_table_prefix show_tables_like conn) ++ "options")
                   (Store.working conn) <> []))
         /\ same_store conn (snd (Enhanced.get_table_prefix show_tables_like conn))
         /\ (Store.fails conn (Store.executed conn) = true ->
             fst (Enhanced.get_table_prefix show_tables_like conn) = "wp_")).
Proof.
  split.
  - intros show_tables conn. unfold Complete.get_table_prefix.
    pose proof (DryRunFacts.query_reads_only show_tables conn) as Hsame.
    split; [|split].
    + destruct (Store.query show_tables conn) as [[tables|e] conn'] eqn:Hq;
        [|left; reflexivity].
      apply AttachmentFacts.query_result in Hq as [-> _].
      destruct (List.find _ _) as [table_name|] eqn:Hf; [|left; reflexivity].
      apply find_posts in Hf as [Hin He]. right. simpl.
      rewrite (prefix_of_posts _ He). exact Hin.
    + destruct (Store.query show_tables conn) as [[tables|e] conn']; simpl in *;
        [destruct (List.find _ _) |]; exact Hsame.
    + intros Hfail. unfold Store.query. rewrite Hfail. reflexivity.
  - intros show_tables_like conn. unfold Enhanced.get_table_prefix.
    pose proof (DryRunFacts.query_reads_only (show_tables_like "%posts") conn) as Hsame.
    split; [|split].
    + destruct (Store.query _ conn) as [[tables|e] conn'] eqn:Hq; [|left; reflexivity].
      apply AttachmentFacts.query_result in Hq as [-> Hw].
      destruct (probe_prefix_result show_tables_like
                  (show_tables_like "%posts" (Store.working conn)) conn') as [Hres _].
      rewrite Hw in Hres. exact Hres.
    + destruct (Store.query _ conn) as [[tables|e] conn']; simpl in *; [|exact Hsame].
      eapply DryRunFacts.same_store_trans; [exact Hsame |].
      apply probe_prefix_result.
    + intros Hfail. unfold Store.query. rewrite Hfail. reflexivity.
Qed.

End PrefixFacts.


(** ** The filesystem scan *)

Module ScanFacts.

Import Complete.

Lemma scan_file_invariant env_for relpath printable cfg uploads_path processed_db_files
    dry_run (fs0 : file_system) budget root file st :
  scan_invariant printable processed_db_files dry_run fs0 budget st ->
  scan_invariant printable processed_db_files dry_run fs0 (S budget)
    (scan_file env_for relpath printable cfg uploads_path processed_db_files dry_run
       root file st).
Proof.
  intros (Hall & Hcount & Hentries & Herrors & Hsum & Hdry).
  assert (Hsame : scan_invariant printable processed_db_files dry_run fs0 (S budget) st).
  { split; [exact Hall |]. split; [exact Hcount |]. split; [lia |]. split; [lia |].
    split; [|exact Hdry]. intros Hp. specialize (Hsum Hp). lia. }
  unfold scan_file.
  destruct (has_extension image_extensions (Text.lower file)) eqn:Hext; [|exact Hsame].
  cbn [negb]. destruct (bool_decide _) eqn:Hseen; [exact Hsame |].
  apply bool_decide_eq_false in Hseen.
  destruct (Text.ends_with ".webp" (Text.lower file)); [exact Hsame |].
  destruct (clean_filename _ cfg) as [cleaned|e].
  2:{ split; [exact Hall |]. split; [exact Hcount |]. simpl.
      split; [lia |]. split; [lia |]. split; [|exact Hdry].
      intros Hp. specialize (Hsum Hp). lia. }
  cbv zeta.
  destruct (negb (String.eqb _ cleaned) || Text.mem _ scan_webp_extensions) eqn:Hneeds;
    [|exact Hsame].
  pose (entry := fun converted : bool =>
          {| scan_old_filename := file;
             scan_new_filename := cleaned ++ ".webp";
             scan_file_path := PathLib.os_path_join root file;
             scan_relative_path :=
               relpath (PathLib.os_path_join root file) uploads_path;
             scan_needs_cleaning :=
               negb (String.eqb
                       (PathLib.stem (PathLib.parse (PathLib.os_path_join root file)))
                       cleaned);
             scan_needs_webp :=
               Text.mem
                 (Text.lower
                    (PathLib.suffix (PathLib.parse (PathLib.os_path_join root file))))
                 scan_webp_extensions;
             scan_webp_converted := converted;
             scan_iptc_added := converted |}).
  assert (Hadd : forall (converted : bool) (fs' : file_system) (errors' : nat),
             (converted = true -> dry_run = false) ->
             (errors' = scan_errors st
              \/ (errors' = S (scan_errors st)
                  /\ ~ (forall path, printable path = true))) ->
             (dry_run = true -> fs' = scan_fs st) ->
             scan_invariant printable processed_db_files dry_run fs0 (S budget)
               {| scan_fs := fs';
                  scan_processed :=
                    if converted then S (scan_processed st) else scan_processed st;
                  scan_errors := errors';
                  scan_updates := scan_updates st ++ [entry converted] |}).
  { intros converted fs' errors' Hconv Herr Hfs. unfold scan_invariant. cbn [scan_fs
      scan_processed scan_errors scan_updates].
    split.
    { apply Forall_app. split; [exact Hall |]. apply Forall_singleton.
      repeat split; simpl; auto. }
    split.
    { rewrite BatchFacts.count_where_app, Hcount. simpl.
      destruct converted; simpl; lia. }
    rewrite length_app. simpl.
    split; [lia |]. split; [destruct Herr as [-> | [-> _]]; lia |].
    split.
    - intros Hp. specialize (Hsum Hp).
      destruct Herr as [-> | [_ Hno]]; [lia | contradiction].
    - intros Hd. rewrite (Hfs Hd). apply Hdry, Hd. }
  destruct (printable _) eqn:Hprint; cbn [negb].
  2:{ apply (Hadd false (scan_fs st) (S (scan_errors st)));
        [discriminate | right | reflexivity].
      split; [reflexivity |]. intros Hp. rewrite Hp in Hprint. discriminate. }
  destruct dry_run; cbn [negb].
  - exact (Hadd false (scan_fs st) (scan_errors st) ltac:(discriminate)
             (or_introl eq_refl) (fun _ => eq_refl)).
  - destruct (create_backup_copy _ _ _ _) as [backup fs1].
    destruct (convert_to_webp _ cfg fs1 _ _) as [[[|] log] fs2].
    + destruct (write_enhanced_iptc _ fs2 _) as [embedded fs3].
      exact (Hadd true fs3 (scan_errors st) (fun _ => eq_refl)
               (or_introl eq_refl) ltac:(discriminate)).
    + exact (Hadd false fs2 (scan_errors st) ltac:(discriminate)
               (or_introl eq_refl) ltac:(discriminate)).
Qed.

Lemma scan_directory_invariant env_for relpath printable cfg uploads_path
    processed_db_files dry_run (fs0 : file_system) root files :
  forall budget st,
    scan_invariant printable processed_db_files dry_run fs0 budget st ->
    scan_invariant printable processed_db_files dry_run fs0 (budget + length files)
      (fold_left
         (fun st file =>
            scan_file env_for relpath printable cfg uploads_path processed_db_files
              dry_run root file st) files st).
Proof.
  induction files as [|file rest IH]; intros budget st Hinv; cbn [fold_left length].
  - rewrite Nat.add_0_r. exact Hinv.
  - replace (budget + S (length rest))%nat with (S budget + length rest)%nat by lia.
    apply IH, scan_file_invariant, Hinv.
Qed.

Lemma scan_walk_invariant env_for relpath printable cfg uploads_path processed_db_files
    dry_run (fs0 : file_system) walk :
  forall budget st,
    scan_invariant printable processed_db_files dry_run fs0 budget st ->
    scan_invariant printable processed_db_files dry_run fs0 (budget + walked walk)
      (fold_left
         (fun st entry =>
            fold_left
              (fun st file =>
                 scan_file env_for relpath printable cfg uploads_path
                   processed_db_files dry_run (fst entry) file st)
              (snd entry) st)
         walk st).
Proof.
  induction walk as [|[root files] rest IH]; intros budget st Hinv;
    unfold walked; cbn [fold_left map concat snd fst].
  - simpl. rewrite Nat.add_0_r. exact Hinv.
  - rewrite length_app, Nat.add_assoc.
    apply IH, scan_directory_invariant, Hinv.
Qed.

(** A file whose path cannot be printed is reported and counted as an error
    at once: the entry is in the list when [print] raises. *)
Example unprintable_path_is_reported_and_counted :
  let r := scan_filesystem_for_optimization (fun _ => Samples.worker_env)
             (fun path _ => path) (fun _ => false) (Samples.complete_config [])
             "/up" ∅ false [("/up", ["a.jpg"])] Samples.two_byte_image in
  length (scan_updates r) = 1%nat
  /\ scan_errors r = 1%nat
  /\ scan_processed r = 0%nat
  /\ scan_fs r = Samples.two_byte_image.
Proof. vm_compute. auto. Qed.

(** X16.  The filesystem scan reports only image files that the store did
    not name: every entry of its result is a file with an image extension
    whose path is not among the paths seen through the store, and which needs
    cleaning or conversion.  The number of processed files it returns is the
    number of entries marked converted.  Neither the entries nor the errors
    exceed the number of files walked; a file whose path [print] cannot
    write is both reported and counted as an error, and when every path can
    be printed the entries and the errors together do not exceed the number
    of files walked.  In a dry run the scan changes no file, marks no entry
    converted and returns zero processed files. *)
Theorem scan_reports_only_unseen_images :
  forall env_for relpath printable cfg uploads_path processed_db_files dry_run walk
         (fs : file_system),
    let r := scan_filesystem_for_optimization env_for relpath printable cfg uploads_path
               processed_db_files dry_run walk fs in
    Forall (scan_entry_ok processed_db_files dry_run) (scan_updates r)
    /\ scan_processed r = count_where scan_webp_converted (scan_updates r)
    /\ (length (scan_updates r) <= walked walk)%nat
    /\ (scan_errors r <= walked walk)%nat
    /\ ((forall path, printable path = true) ->
        (length (scan_updates r) + scan_errors r <= walked walk)%nat)
    /\ (dry_run = true -> scan_fs r = fs /\ scan_processed r = 0%nat).
Proof.
  intros env_for relpath printable cfg uploads_path processed_db_files dry_run walk fs0 r.
  subst r. unfold scan_filesystem_for_optimization.
  destruct (scan_walk_invariant env_for relpath printable cfg uploads_path
              processed_db_files dry_run fs0 walk 0
              {| scan_fs := fs0; scan_processed := 0; scan_errors := 0;
                 scan_updates := [] |})
    as (Hall & Hcount & Hentries & Herrors & Hsum & Hdry).
  { repeat split; simpl; auto. }
  split; [exact Hall |]. split; [exact Hcount |]. split; [exact Hentries |].
  split; [exact Herrors |]. split; [exact Hsum |].
  intros ->. split; [apply Hdry; reflexivity |].
  rewrite Hcount. clear Hcount Hentries Herrors Hsum Hdry.
  induction Hall as [|u l (_ & _ & _ & Hu) _ IH]; [reflexivity |].
  simpl. destruct (scan_webp_converted u); [specialize (Hu eq_refl); discriminate |].
  exact IH.
Qed.

End ScanFacts.


(** ** Alternate text *)

Module AltTextFacts.

Lemma first_of_collapse (p : ascii -> bool) (r : ascii) (s : string) :
  p r = true ->
  first_char_in p (Text.collapse_runs p (String r "") s) = first_char_in p s.
Proof.
  intros Hr. induction s as [|c s IH]; [reflexivity |].
  cbn [Text.collapse_runs]. destruct (p c) eqn:Hc.
  - destruct s as [|c' s']; [simpl; rewrite Hr, Hc; reflexivity |].
    destruct (p c') eqn:Hc'.
    + rewrite IH. simpl. rewrite Hc, Hc'. reflexivity.
    + change (String r "" ++ ?x) with (String r x). simpl. rewrite Hr, Hc. reflexivity.
  - simpl. reflexivity.
Qed.

Lemma no_adjacent_cons (p : ascii -> bool) (c : ascii) (s : string) :
  no_adjacent p (String c s) = negb (p c && first_char_in p s) && no_adjacent p s.
Proof.
  destruct s as [|c' s']; simpl; [rewrite andb_false_r; reflexivity | reflexivity].
Qed.

(** After a run is replaced by one character of the class, no two
    neighbours are in the class. *)
Lemma no_adjacent_collapse (p : ascii -> bool) (r : ascii) (s : string) :
  p r = true -> no_adjacent p (Text.collapse_runs p (String r "") s) = true.
Proof.
  intros Hr. induction s as [|c s IH]; [reflexivity |].
  cbn [Text.collapse_runs]. destruct (p c) eqn:Hc.
  - destruct s as [|c' s']; [reflexivity |].
    destruct (p c') eqn:Hc'; [exact IH |].
    change (String r "" ++ ?x) with (String r x).
    rewrite no_adjacent_cons, IH, (first_of_collapse p r _ Hr). simpl.
    rewrite Hc', andb_false_r. reflexivity.
  - rewrite no_adjacent_cons, IH, Hc. reflexivity.
Qed.

Lemma no_adjacent_tail (p : ascii -> bool) (c : ascii) (s : string) :
  no_adjacent p (String c s) = true -> no_adjacent p s = true.
Proof. rewrite no_adjacent_cons. intros H. apply andb_prop in H as [_ H]. exact H. Qed.

Lemma no_adjacent_lstrip (p q : ascii -> bool) (s : string) :
  no_adjacent q s = true -> no_adjacent q (Text.lstrip p s) = true.
Proof.
  induction s as [|c s IH]; [reflexivity |].
  intros H. cbn [Text.lstrip]. destruct (p c); [|exact H].
  apply IH. exact (no_adjacent_tail q c s H).
Qed.

Lemma first_of_rstrip (p q : ascii -> bool) (s : string) :
  first_char_in q (Text.rstrip p s) = true -> first_char_in q s = true.
Proof.
  destruct s as [|c s]; [discriminate |].
  cbn [Text.rstrip]. destruct (Text.rstrip p s); [destruct (p c) |]; simpl; auto.
  discriminate.
Qed.

Lemma no_adjacent_rstrip (p q : ascii -> bool) (s : string) :
  no_adjacent q s = true -> no_adjacent q (Text.rstrip p s) = true.
Proof.
  induction s as [|c s IH]; [reflexivity |].
  intros H. rewrite no_adjacent_cons in H. apply andb_prop in H as [Hc Hs].
  specialize (IH Hs). cbn [Text.rstrip].
  destruct (Text.rstrip p s) as [|c' r] eqn:E.
  - destruct (p c); reflexivity.
  - rewrite no_adjacent_cons, IH, andb_true_r.
    destruct (q c) eqn:Hqc; [|reflexivity].
    destruct (first_char_in q (String c' r)) eqn:Hf; [|reflexivity].
    rewrite <- E in Hf. apply first_of_rstrip in Hf. rewrite Hf in Hc. discriminate.
Qed.

Lemma space_is_space : Text.is_space " " = true.
Proof. reflexivity. Qed.

(** X17.  The alternate text [clean_alt_text] returns is trimmed and its
    white space is normalised (in the ASCII reading of white space), whatever the configured patterns delete and
    even if some of them are invalid: it neither starts nor ends with white
    space, every white-space character in it is a plain space, and no two
    spaces follow each other.  An empty text stays empty. *)
Theorem clean_alt_text_is_normalised :
  forall alt_text cfg,
    first_char_in Text.is_space (Complete.clean_alt_text alt_text cfg) = false
    /\ last_char_in Text.is_space (Complete.clean_alt_text alt_text cfg) = false
    /\ all_chars plain_space (Complete.clean_alt_text alt_text cfg) = true
    /\ no_adjacent Text.is_space (Complete.clean_alt_text alt_text cfg) = true
    /\ Complete.clean_alt_text "" cfg = "".
Proof.
  intros alt_text cfg. unfold Complete.clean_alt_text.
  destruct (negb (Text.truthy alt_text)); [repeat split |].
  cbv zeta.
  destruct (CharsetFacts.strip_edges Text.is_space
              (Text.collapse_runs Text.is_space " "
                 (Complete.remove_unwanted_lenient (Complete.unwanted_patterns cfg)
                    alt_text))) as [Hfirst Hlast].
  split; [exact Hfirst |]. split; [exact Hlast |]. split; [|split; [|reflexivity]].
  - apply CharsetFacts.all_chars_strip, CharsetFacts.all_chars_collapse; [reflexivity |].
    apply (CharsetFacts.all_chars_impl (fun _ => true));
      [|apply CharsetFacts.all_chars_true].
    intros c _. unfold plain_space. destruct (Text.is_space c); reflexivity.
  - unfold Text.strip. apply no_adjacent_rstrip, no_adjacent_lstrip.
    apply no_adjacent_collapse, space_is_space.
Qed.

End AltTextFacts.


(** ** The sequential backup *)

Module CopyFacts.

Import Complete.

(** X18.  When the sequential [create_backup_copy] returns a path, it is
    the source path followed by [_backup_] and the time stamp, the file there
    has the size of the source, and the source and every other file are as
    they were.  Whatever it returns, it changes no file but the one at the
    backup path. *)
Theorem create_backup_copy_verifies_what_it_returns :
  forall os timestamp (fs : file_system) file_path,
    (forall other,
        other <> file_path ++ "_backup_" ++ timestamp ->
        snd (create_backup_copy os timestamp fs file_path) !! other = fs !! other)
    /\ (forall made,
           fst (create_backup_copy os timestamp fs file_path) = Some made ->
           made = file_path ++ "_backup_" ++ timestamp
           /\ exists source backup,
               fs !! file_path = Some source
               /\ snd (create_backup_copy os timestamp fs file_path) !! made = Some backup
               /\ length backup = length source).
Proof.
  intros os timestamp fs file_path. unfold create_backup_copy.
  set (backup_path := file_path ++ "_backup_" ++ timestamp).
  assert (Hne : backup_path <> file_path)
    by (apply TextFacts.append_not_self; discriminate).
  assert (Hcopy : forall other, other <> backup_path ->
             snd (FileSystem.copy2 os fs file_path backup_path) !! other = fs !! other).
  { intros other Ho. unfold FileSystem.copy2.
    destruct (fs !! file_path); [|reflexivity].
    destruct (FileSystem.copy_fault os) as [|written|[partial|]]; simpl;
      try reflexivity; apply lookup_insert_ne; congruence. }
  split.
  - intros other Ho. specialize (Hcopy other Ho).
    destruct (FileSystem.copy2 os fs file_path backup_path) as [[u|e] fs1];
      simpl in Hcopy; [|exact Hcopy].
    destruct (FileSystem.getsize fs1 file_path); [|exact Hcopy].
    destruct (FileSystem.getsize fs1 backup_path); [|exact Hcopy].
    destruct (negb _); exact Hcopy.
  - intros made. specialize (Hcopy file_path (not_eq_sym Hne)).
    destruct (FileSystem.copy2 os fs file_path backup_path) as [[u|e] fs1];
      simpl in Hcopy; [|discriminate].
    unfold FileSystem.getsize. rewrite Hcopy.
    destruct (fs !! file_path) as [source|]; [|discriminate].
    destruct (fs1 !! backup_path) as [backup|] eqn:Hb; [|discriminate].
    destruct (length source =? length backup)%nat eqn:Hsize; simpl; [|discriminate].
    intros [= <-]. split; [reflexivity |].
    exists source, backup. split; [reflexivity |]. split; [exact Hb |].
    symmetry. apply Nat.eqb_eq, Hsize.
Qed.

Lemma create_backup_copy_verifies_what_it_returns_witness :
  "/up/a.jpg_backup_20240309_120000" = "/up/a.jpg" ++ "_backup_" ++ "20240309_120000"
  /\ exists source backup,
      Samples.two_byte_image !! "/up/a.jpg" = Some source
      /\ snd (create_backup_copy FileSystem.no_faults "20240309_120000"
                Samples.two_byte_image "/up/a.jpg")
           !! "/up/a.jpg_backup_20240309_120000" = Some backup
      /\ length backup = length source.
Proof.
  apply (proj2 (create_backup_copy_verifies_what_it_returns FileSystem.no_faults
                  "20240309_120000" Samples.two_byte_image "/up/a.jpg")).
  reflexivity.
Defined.

End CopyFacts.


(** ** The permalink of an attachment *)

Module PermalinkFacts.

Import Enhanced.

Lemma digits_of_uint (d : Decimal.uint) :
  all_chars name_char (NilEmpty.string_of_uint d) = true.
Proof. induction d; simpl; auto. Qed.

Lemma str_of_Z_chars (n : Z) : all_chars name_char (Text.str_of_Z n) = true.
Proof.
  unfold Text.str_of_Z, NilZero.string_of_int, NilZero.string_of_uint.
  destruct (Z.to_int n) as [d|d]; [destruct d | simpl; destruct d];
    try reflexivity; apply digits_of_uint.
Qed.

Lemma suffixed_chars (slug number : string) :
  all_chars name_char slug = true -> all_chars name_char number = true ->
  all_chars name_char (slug ++ "-" ++ number) = true.
Proof.
  intros Hs Hn. rewrite !CharsetFacts.all_chars_append, Hs, Hn. reflexivity.
Qed.

Lemma first_free_slug_chars rounds :
  forall counter slug id c s c',
    all_chars name_char slug = true ->
    first_free_slug rounds counter slug id c = (Ok s, c') ->
    all_chars name_char s = true.
Proof.
  induction rounds as [|rounds IH]; intros counter slug id c s c' Hslug.
  - simpl. intros [= <- _]. apply suffixed_chars; [exact Hslug | apply str_of_Z_chars].
  - cbn [first_free_slug].
    destruct (Store.query _ c) as [[[|]|e] c1]; [| |discriminate].
    + apply IH, Hslug.
    + intros [= <- _]. apply suffixed_chars; [exact Hslug | apply str_of_Z_chars].
Qed.

(** A slug stays URL-safe when it is made unique. *)
Lemma ensure_unique_slug_chars (slug : string) (id : Z) (c : Store.connection) :
  all_chars name_char slug = true ->
  all_chars name_char (fst (ensure_unique_slug slug id c)) = true.
Proof.
  intros Hslug. unfold ensure_unique_slug.
  assert (Hfallback : all_chars name_char (slug ++ "-" ++ Text.str_of_Z id) = true)
    by (apply suffixed_chars; [exact Hslug | apply str_of_Z_chars]).
  destruct (Store.query _ c) as [[[|]|e] c1]; cbn [fst]; try assumption.
  destruct (first_free_slug 100 1 slug id c1) as [[s|e] c2] eqn:Hf; cbn [fst];
    [|exact Hfallback].
  exact (first_free_slug_chars 100 1 slug id c1 s c2 Hslug Hf).
Qed.

Lemma query_keeps_autocommit {A} (read : Store.database -> A) (c : Store.connection) :
  Store.autocommit (snd (Store.query read c)) = Store.autocommit c.
Proof. unfold Store.query. destruct (Store.fails c _); reflexivity. Qed.

Lemma first_free_slug_keeps_autocommit rounds :
  forall counter slug id c,
    Store.autocommit (snd (first_free_slug rounds counter slug id c)) = Store.autocommit c.
Proof.
  induction rounds as [|rounds IH]; intros counter slug id c; cbn [first_free_slug].
  - reflexivity.
  - pose proof (query_keeps_autocommit
                  (fun db => Store.slug_taken db
                               (slug ++ "-" ++ Text.str_of_nat counter) id) c) as Hq.
    destruct (Store.query _ c) as [[[|]|e] c']; cbn [snd] in *; try exact Hq.
    rewrite IH. exact Hq.
Qed.

Lemma ensure_unique_slug_keeps_autocommit (slug : string) (id : Z)
    (c : Store.connection) :
  Store.autocommit (snd (ensure_unique_slug slug id c)) = Store.autocommit c.
Proof.
  unfold ensure_unique_slug.
  pose proof (query_keeps_autocommit (fun db => Store.slug_taken db slug id) c) as Hq.
  destruct (Store.query _ c) as [[[|]|e] c']; cbn [snd] in *; try exact Hq.
  pose proof (first_free_slug_keeps_autocommit 100 1 slug id c') as Hf.
  destruct (first_free_slug 100 1 slug id c') as [[slug'|e] c'']; cbn [snd] in *;
    rewrite Hf; exact Hq.
Qed.

(** The server accepts the update of the post name and refuses the commit
    that follows it, on a session opened with autocommit as
    [connect_database] opens it: the function returns [False] and records
    nothing, and the slug is stored and committed all the same. *)
Example refused_commit_leaves_the_slug_stored :
  let r := update_attachment_permalink (Samples.enhanced_config true) false 7 "Sunset"
             (Samples.enhanced_state
                (Samples.session Samples.sunset_database true (fun n => (n =? 2)%nat))) in
  fst r = false
  /\ permalink_updates (snd r) = []
  /\ permalink_failures (tally (snd r)) = 1%nat
  /\ Store.post_name
       <$> Store.posts (Store.committed (db_connection (snd r))) !! 7%Z
     = Some "sunset".
Proof. vm_compute. auto. Qed.

(** X19.  When permalinks are enabled and a live [update_attachment_permalink]
    returns [True], it has stored and committed one slug as the post name of
    the attachment (if its row exists), recorded that same slug in
    [permalink_updates] and counted one updated permalink; the slug is made
    of lower-case letters, digits and hyphens only.  When it returns [False],
    nothing is recorded and one failure is counted; the store is then as it
    was if the server refused the update, and if it refused the commit after
    the update the session holds the new post name, which is committed too
    when the session runs with autocommit. *)
Theorem permalink_update_stores_the_recorded_slug :
  forall cfg id title st,
    permalink_enabled (permalink_optimization cfg) = true ->
    if fst (update_attachment_permalink cfg false id title st)
    then exists slug,
        permalink_updates (snd (update_attachment_permalink cfg false id title st))
        = (permalink_updates st ++ [(id, slug)])%list
        /\ all_chars name_char slug = true
        /\ (forall p,
              Store.posts (Store.committed
                             (db_connection
                                (snd (update_attachment_permalink cfg false id title st))))
                !! id = Some p ->
              Store.post_name p = slug)
        /\ permalinks_updated (tally (snd (update_attachment_permalink cfg false id title st)))
           = S (permalinks_updated (tally st))
    else permalink_updates (snd (update_attachment_permalink cfg false id title st))
         = permalink_updates st
         /\ permalink_failures
              (tally (snd (update_attachment_permalink cfg false id title st)))
            = S (permalink_failures (tally st))
         /\ (same_store (db_connection st)
               (db_connection (snd (update_attachment_permalink cfg false id title st)))
             \/ exists slug,
                 all_chars name_char slug = true
                 /\ Store.working
                      (db_connection
                         (snd (update_attachment_permalink cfg false id title st)))
                    = Store.update_post_name id slug (Store.working (db_connection st))
                 /\ Store.committed
                      (db_connection
                         (snd (update_attachment_permalink cfg false id title st)))
                    = if Store.autocommit (db_connection st)
                      then Store.update_post_name id slug
                             (Store.working (db_connection st))
                      else Store.committed (db_connection st)).
Proof.
  intros cfg id title st Henabled. unfold update_attachment_permalink.
  rewrite Henabled. cbn [negb].
  pose proof (ensure_unique_slug_chars
                (generate_seo_slug title (max_slug_length (permalink_optimization cfg)))
                id (db_connection st)
                (proj1 (SafeNameFacts.generate_seo_slug_chars title _))) as Hchars.
  pose proof (DryRunFacts.ensure_unique_slug_reads_only
                (generate_seo_slug title (max_slug_length (permalink_optimization cfg)))
                id (db_connection st)) as Hsame.
  pose proof (ensure_unique_slug_keeps_autocommit
                (generate_seo_slug title (max_slug_length (permalink_optimization cfg)))
                id (db_connection st)) as Hauto.
  destruct (ensure_unique_slug _ id (db_connection st)) as [slug c1].
  cbn [fst snd] in Hchars, Hsame, Hauto. destruct Hsame as [Hcommitted Hworking].
  unfold Store.execute, Store.commit.
  destruct (Store.fails c1 (Store.executed c1)); cbn -[Store.update_post_name].
  - split; [reflexivity |]. split; [reflexivity |]. left. split; assumption.
  - destruct (Store.fails c1 (S (Store.executed c1))); cbn -[Store.update_post_name].
    + split; [reflexivity |]. split; [reflexivity |].
      right. exists slug. rewrite <- Hauto, Hworking, Hcommitted. auto.
    + exists slug. split; [reflexivity |]. split; [exact Hchars |].
      split; [|reflexivity].
      intros p. simpl. destruct (Store.posts (Store.working c1) !! id) as [q|] eqn:Hq.
      * rewrite lookup_alter_eq, Hq. simpl. intros [= <-]. reflexivity.
      * rewrite lookup_alter_eq, Hq. discriminate.
Qed.

Lemma permalink_update_stores_the_recorded_slug_witness :
  exists slug,
    permalink_updates
      (snd (update_attachment_permalink (Samples.enhanced_config true) false 7 "Sunset"
              (Samples.enhanced_state
                 (Samples.session Samples.sunset_database true (fun _ => false)))))
    = [(7%Z, slug)]
    /\ all_chars name_char slug = true.
Proof.
  destruct (permalink_update_stores_the_recorded_slug (Samples.enhanced_config true) 7
              "Sunset"
              (Samples.enhanced_state
                 (Samples.session Samples.sunset_database true (fun _ => false)))
              eq_refl) as (slug & Hrec & Hchars & _).
  exists slug. split; [exact Hrec | exact Hchars].
Defined.

End PermalinkFacts.


(** ** Merging the user's configuration into the defaults *)

Module MergeFacts.

Import Enhanced.

Lemma merge_entry_dicts (base update : list (string * json)) :
  merge_entry (Some (Dict base)) (Dict update) = Dict (_deep_merge base update).
Proof. reflexivity. Qed.

Lemma dict_get_set_eq (key : string) (v : json) (d : list (string * json)) :
  dict_get key (dict_set key v d) = Some v.
Proof.
  induction d as [|[k x] d IH]; simpl.
  - rewrite String.eqb_refl. reflexivity.
  - destruct (String.eqb k key) eqn:E; simpl; rewrite E; [reflexivity | exact IH].
Qed.

Lemma dict_get_set_ne (key other : string) (v : json) (d : list (string * json)) :
  other <> key -> dict_get other (dict_set key v d) = dict_get other d.
Proof.
  intros Hne. induction d as [|[k x] d IH]; simpl.
  - destruct (String.eqb key other) eqn:E; [|reflexivity].
    apply String.eqb_eq in E. congruence.
  - destruct (String.eqb k key) eqn:E; simpl.
    + apply String.eqb_eq in E. subst k.
      destruct (String.eqb key other) eqn:E'; [|reflexivity].
      apply String.eqb_eq in E'. congruence.
    + destruct (String.eqb k other); [reflexivity | exact IH].
Qed.

Lemma dict_get_none (key : string) (d : list (string * json)) :
  key ∉ map fst d -> dict_get key d = None.
Proof.
  induction d as [|[k x] d IH]; simpl; [reflexivity |].
  intros Hnot. destruct (String.eqb k key) eqn:E.
  - apply String.eqb_eq in E. subst k. exfalso. apply Hnot. apply elem_of_cons. auto.
  - apply IH. intros Hin. apply Hnot. apply elem_of_cons. auto.
Qed.

(** A key the update does not have keeps its value. *)
Lemma merge_into_absent (key : string) (items : list (string * json)) :
  forall result,
    dict_get key items = None ->
    dict_get key (merge_into result items) = dict_get key result.
Proof.
  induction items as [|[k v] rest IH]; intros result; simpl; [reflexivity |].
  destruct (String.eqb k key) eqn:E; [discriminate |].
  intros Hrest. rewrite (IH _ Hrest). apply dict_get_set_ne.
  intros ->. rewrite String.eqb_refl in E. discriminate.
Qed.

(** A key of the update gets the merge of its two values. *)
Lemma merge_into_present (key : string) (v : json) (items : list (string * json)) :
  forall result,
    NoDup (map fst items) ->
    dict_get key items = Some v ->
    dict_get key (merge_into result items)
    = Some (merge_entry (dict_get key result) v).
Proof.
  induction items as [|[k x] rest IH]; intros result Hnd; simpl; [discriminate |].
  simpl in Hnd. apply NoDup_cons in Hnd as [Hk Hnd].
  destruct (String.eqb k key) eqn:E.
  - apply String.eqb_eq in E. subst k. intros [= ->].
    rewrite (merge_into_absent key rest _ (dict_get_none key rest Hk)).
    apply dict_get_set_eq.
  - intros Hrest. rewrite (IH _ Hnd Hrest). f_equal. f_equal.
    apply dict_get_set_ne. intros ->. rewrite String.eqb_refl in E. discriminate.
Qed.

Lemma deep_merge_lookup (dict1 dict2 : list (string * json)) (key : string) :
  NoDup (map fst dict2) ->
  dict_get key (_deep_merge dict1 dict2)
  = match dict_get key dict2 with
    | None => dict_get key dict1
    | Some (Dict update) =>
        match dict_get key dict1 with
        | Some (Dict base) => Some (Dict (_deep_merge base update))
        | _ => Some (Dict update)
        end
    | Some (Atom text) => Some (Atom text)
    end.
Proof.
  intros Hnd. unfold _deep_merge at 1.
  destruct (dict_get key dict2) as [v|] eqn:Hv.
  - rewrite (merge_into_present key v dict2 dict1 Hnd Hv).
    destruct v as [text|update]; [destruct (dict_get key dict1) as [[|]|]; reflexivity |].
    destruct (dict_get key dict1) as [[text|base]|]; reflexivity.
  - apply merge_into_absent, Hv.
Qed.

(** X20.  What [_deep_merge] holds under a key, for an update with distinct
    keys: the value of the first dictionary when the update does not have
    the key; the merge of the two values when both are dictionaries; the
    value of the update in every other case, also when it replaces a
    dictionary of defaults by a value that is none. *)
Theorem deep_merge_prefers_the_update :
  forall dict1 dict2 key,
    NoDup (map fst dict2) ->
    dict_get key (_deep_merge dict1 dict2)
    = match dict_get key dict2 with
      | None => dict_get key dict1
      | Some (Dict update) =>
          match dict_get key dict1 with
          | Some (Dict base) => Some (Dict (_deep_merge base update))
          | _ => Some (Dict update)
          end
      | Some (Atom text) => Some (Atom text)
      end.
Proof. exact deep_merge_lookup. Qed.

Lemma deep_merge_prefers_the_update_witness :
  dict_get "optimization"
    (_deep_merge
       [("optimization", Dict [("webp_quality", Atom "85"); ("webp_lossless", Atom "false")]);
        ("wordpress_path", Atom "null")]
       [("optimization", Dict [("webp_quality", Atom "60")])])
  = Some (Dict (_deep_merge [("webp_quality", Atom "85"); ("webp_lossless", Atom "false")]
                  [("webp_quality", Atom "60")])).
Proof.
  apply (deep_merge_prefers_the_update
           [("optimization", Dict [("webp_quality", Atom "85"); ("webp_lossless", Atom "false")]);
            ("wordpress_path", Atom "null")]
           [("optimization", Dict [("webp_quality", Atom "60")])] "optimization").
  apply NoDup_singleton.
Defined.

Lemma distinct_keys_entry (key : string) (v : json) (d : list (string * json)) :
  distinct_keys (Dict d) -> dict_get key d = Some v -> distinct_keys v.
Proof.
  intros [_ Hall]. induction d as [|[k x] d IH]; simpl; [discriminate |].
  destruct Hall as [Hx Hall]. destruct (String.eqb k key).
  - intros [= <-]. exact Hx.
  - apply IH, Hall.
Qed.

(** X21.  A setting of the user's file wins at any depth: when a path of
    keys leads to a value that is not a dictionary in the update, the same
    path leads to that value in the merged configuration, whatever the
    defaults hold. *)
Theorem user_setting_wins_at_any_depth :
  forall path dict1 dict2 text,
    distinct_keys (Dict dict2) ->
    get_path path (Dict dict2) = Some (Atom text) ->
    get_path path (Dict (_deep_merge dict1 dict2)) = Some (Atom text).
Proof.
  induction path as [|key rest IH]; intros dict1 dict2 text Hwf; [discriminate |].
  cbn [get_path]. rewrite (deep_merge_lookup dict1 dict2 key (proj1 Hwf)).
  destruct (dict_get key dict2) as [[t|update]|] eqn:Hk; [auto | | discriminate].
  pose proof (distinct_keys_entry key (Dict update) dict2 Hwf Hk) as Hwu.
  destruct (dict_get key dict1) as [[t|base]|]; auto.
Qed.

Lemma user_setting_wins_at_any_depth_witness :
  get_path ["optimization"; "webp_quality"]
    (Dict (_deep_merge
             [("optimization",
               Dict [("webp_quality", Atom "85"); ("webp_lossless", Atom "false")])]
             [("optimization", Dict [("webp_quality", Atom "60")])]))
  = Some (Atom "60").
Proof.
  apply (user_setting_wins_at_any_depth ["optimization"; "webp_quality"]
           [("optimization",
             Dict [("webp_quality", Atom "85"); ("webp_lossless", Atom "false")])]
           [("optimization", Dict [("webp_quality", Atom "60")])] "60").
  - simpl. repeat split; apply NoDup_singleton.
  - reflexivity.
Defined.

End MergeFacts.
